(** * Replica placement: the node selectors of master/node_selector.go

    A shallow embedding of the four placement policies (RoundRobin,
    AvailableSpaceFirst, CarryWeight, Straw) and of the helpers they share,
    followed by the properties of [Select] that the specification states,
    and by further properties of the code: the helpers of CarryWeight, the
    order in which the policies pick, what they report when they fail, and
    the two methods of the node-set that call them.

    Conventions of the embedding.
    - Go's [int] and [uint64] are [Z]; where the source can wrap, the wrap is
      written out ([int_wrap], [uint64_sub]).
    - Go's [float64] is the kernel's binary64 type [float], so that
      [0.5 + 0.5], the comparison with [1.0] and NaN behave as in the program.
    - A [sync.Map] is the list of its values in the order [Range] visits
      them.  Every statement quantifies over that list, hence over every
      iteration order.
    - A call of the hook [SelectNodeForWrite] is recorded in a trace: the
      list of the nodes it was invoked on, oldest first.
    - The selector is passed in and handed back (explicit state passing),
      a panic and an exhausted loop budget are outcomes of their own. *)

From Stdlib Require Import ZArith List Lia Bool Sorted.
From Stdlib Require Import Uint63 Floats.PrimFloat Floats.SpecFloat Floats.FloatOps Floats.FloatAxioms.
From stdpp Require Import base option list sorting gmap strings.

Local Open Scope Z_scope.

(** ** Machine numbers *)

Definition int_min : Z := - 2 ^ 63.
Definition int_max : Z := 2 ^ 63 - 1.

(** Two's-complement wrap of Go's 64-bit [int]. *)
Definition int_wrap (z : Z) : Z := (z + 2 ^ 63) mod 2 ^ 64 - 2 ^ 63.

(** Go's [%] on [int] truncates towards zero. *)
Definition int_rem (a b : Z) : Z := Z.rem a b.

(** [a - b] on [uint64]. *)
Definition uint64_sub (a b : Z) : Z := (a - b) mod 2 ^ 64.

(** [float64(x)] for [x : uint64]: round to nearest, ties to even.  The
    kernel converts 63-bit integers; a value with bit 63 set is halved with
    its lowest bit kept sticky, converted, and doubled (exact). *)
Definition float64_of_uint64 (z : Z) : float :=
  if z <? 2 ^ 63 then of_uint63 (Uint63.of_Z z)
  else (of_uint63 (Uint63.of_Z (Z.lor (Z.shiftr z 1) (Z.land z 1))) * 2)%float.

(** [float64(n)] for a small non-negative [int]. *)
Definition float64_of_int (z : Z) : float := of_uint63 (Uint63.of_Z z).

(** ** Outcomes of a call *)

Inductive run (A : Type) : Type :=
| Ret (a : A)     (* the call returned *)
| Panic           (* a run-time panic (index out of range) *)
| NoFuel.         (* the loop budget of the model was used up *)
Arguments Ret {A} a.
Arguments Panic {A}.
Arguments NoFuel {A}.

#[global] Instance run_ret : MRet run := fun A a => Ret a.

#[global] Instance run_bind : MBind run := fun A B (k : A -> run B) (m : run A) =>
  match m with
  | Ret a => k a
  | Panic => Panic
  | NoFuel => NoFuel
  end.

(** ** Nodes and node-sets *)

Inductive NodeResourceType := DataNodeDisk | MetaNodeMemory | MetaNodeRocksdb.

Inductive StoreMode := StoreModeMem | StoreModeRocksDb.

(** The fields and methods of [*DataNode] that the selectors read.  The
    struct is not among the sources; the two predicates [canAlloc()] and
    [canAllocDp()] are taken as the values they return during the call. *)
Record DataNode := {
  dn_ID : Z;
  dn_Addr : string;
  dn_AvailableSpace : Z;
  dn_Total : Z;
  dn_canAlloc : bool;
  dn_canAllocDp : bool
}.

(** The same for [*MetaNode]. *)
Record MetaNode := {
  mn_ID : Z;
  mn_Addr : string;
  mn_Total : Z;
  mn_Used : Z;
  mn_RocksdbTotal : Z;
  mn_RocksdbUsed : Z;
  mn_isWritableMem : bool;
  mn_isWritableRocksdb : bool
}.

Definition isWritable (m : MetaNode) (mode : StoreMode) : bool :=
  match mode with
  | StoreModeMem => mn_isWritableMem m
  | StoreModeRocksDb => mn_isWritableRocksdb m
  end.

(** The interface [Node]: a data node or a meta node. *)
Inductive Node :=
| DataNodePtr (d : DataNode)
| MetaNodePtr (m : MetaNode).

Definition GetID (n : Node) : Z :=
  match n with DataNodePtr d => dn_ID d | MetaNodePtr m => mn_ID m end.

Definition GetAddr (n : Node) : string :=
  match n with DataNodePtr d => dn_Addr d | MetaNodePtr m => mn_Addr m end.

Record nodeSet := {
  dataNodes : list DataNode;
  metaNodes : list MetaNode
}.

(** [ns.getNodes(nodeType)] followed by [asNodeWrap] on every value. *)
Definition getNodes (ns : nodeSet) (nodeType : NodeResourceType) : list Node :=
  match nodeType with
  | DataNodeDisk => map DataNodePtr (dataNodes ns)
  | MetaNodeMemory | MetaNodeRocksdb => map MetaNodePtr (metaNodes ns)
  end.

(** [canAllocPartition].  The type assertion of the source cannot fail on
    a value of [getNodes ns nodeType]; the mismatched cases are closed with
    [false]. *)
Definition canAllocPartition (node : Node) (nodeType : NodeResourceType) : bool :=
  match nodeType, node with
  | DataNodeDisk, DataNodePtr d => dn_canAlloc d && dn_canAllocDp d
  | MetaNodeMemory, MetaNodePtr m => isWritable m StoreModeMem
  | MetaNodeRocksdb, MetaNodePtr m => isWritable m StoreModeRocksDb
  | _, _ => false
  end.

(** Modelled from the spec: [contains], the membership test on the excluded
    addresses ("address not in excluded"); the function is not among the
    sources. *)
Definition contains (arr : list string) (element : string) : bool :=
  existsb (String.eqb element) arr.

Record Peer := { peer_ID : Z; peer_Addr : string }.

Definition mkPeer (n : Node) : Peer := {| peer_ID := GetID n; peer_Addr := GetAddr n |}.

Inductive SelectError :=
| ErrNoEnoughHosts (replicaNum matchNodeCount : Z)
| ErrNoEnoughWritableHosts (replicaNum matchNodeCount : Z)
| ErrOrderHostsIsNil.

(** What [Select] hands back: the three results of the Go function. *)
Record SelectReturn := {
  newHosts : list string;
  peers : list Peer;
  err : option SelectError
}.

(** ** The library the selectors call

    [sort.Slice] / [sort.Sort] and [math.Log] belong to Go's library.  The
    sort is taken with its contract: it permutes its input, and orders it
    when [less] is a strict weak order.  (Go's sort is not stable.) *)

Definition strict_weak {A} (less : A -> A -> bool) : Prop :=
  (forall a b, less a b = true -> less b a = false) /\
  (forall a b c, less a b = false -> less b c = false -> less a c = false).

Class GoLib := {
  sort_Slice : forall {A : Type}, (A -> A -> bool) -> list A -> list A;
  sort_Slice_perm : forall A (less : A -> A -> bool) l, sort_Slice less l ≡ₚ l;
  sort_Slice_sorted : forall A (less : A -> A -> bool) l,
      strict_weak less ->
      StronglySorted (fun a b => less b a = false) (sort_Slice less l);
  math_Log : float -> float
}.

(** The insertion sort Go runs on slices of at most twelve elements: each
    element moves left while it is [less] than its left neighbour.  The
    prefix built so far is kept reversed. *)
Fixpoint insert_left {A} (less : A -> A -> bool) (x : A) (rprefix : list A) : list A :=
  match rprefix with
  | [] => [x]
  | y :: r => if less x y then y :: insert_left less x r else x :: y :: r
  end.

Definition insertionSort {A} (less : A -> A -> bool) (l : list A) : list A :=
  rev (fold_left (fun rprefix x => insert_left less x rprefix) l []).

(** A crude stand-in for the natural logarithm, for running the Straw
    policy: minus infinity at 0 and, for [x = m * 2^e] with [m] in [0.5, 1),
    the exponent plus the linear part of the mantissa, times ln 2. *)
Definition approx_Log (x : float) : float :=
  if (x =? 0)%float then neg_infinity
  else
    let '(m, e) := frshiftexp x in
    ((float64_of_int (Uint63.to_Z e) - 2102 + (m * 2 - 1)) * 0x1.62e42fefa39efp-1)%float.

(** Modelled from the spec: the random permutation [reshuffleHosts] applies
    ("produce a random permutation"); the function is not among the sources.
    [draws] stands for the outcomes of the random source: each host is put
    at a drawn position among those already placed. *)
Fixpoint insert_at {A} (k : nat) (x : A) (l : list A) : list A :=
  match k, l with
  | O, _ => x :: l
  | S k', [] => [x]
  | S k', y :: l' => y :: insert_at k' x l'
  end.

Fixpoint shuffle {A} (draws : list nat) (l : list A) : list A :=
  match l with
  | [] => []
  | x :: l' =>
      let s := shuffle (tail draws) l' in
      insert_at (Nat.modulo (hd O draws) (S (length s))) x s
  end.

(** Modelled from the spec: [reshuffleHosts] ("must fail only if its input
    is empty; otherwise it returns a permutation of its input"); the
    function is not among the sources.  [None] is its error. *)
Definition reshuffleHosts (draws : list nat) (oldHosts : list string) : option (list string) :=
  match oldHosts with
  | [] => None
  | _ => Some (shuffle draws oldHosts)
  end.

(** ** The scan shared in shape by RoundRobin and AvailableSpaceFirst

    What the two nested loops carry from one iteration to the next.  The
    last two fields are instrumentation: the nodes whose hook was invoked
    and the nodes the inner loop looked at, both oldest first. *)
Record scanState := {
  ss_nodeIndex : nat;
  ss_orderHosts : list string;
  ss_peers : list Peer;
  ss_hooked : list Node;
  ss_examined : list Node
}.

Definition scanState0 : scanState :=
  {| ss_nodeIndex := O; ss_orderHosts := []; ss_peers := [];
     ss_hooked := []; ss_examined := [] |}.

(** [excludeHosts == nil || !contains(excludeHosts, addr)]; a nil slice is the
    empty list. *)
Definition is_nil {A} (l : list A) : bool :=
  match l with [] => true | _ => false end.

Definition notExcluded (excludeHosts : list string) (addr : string) : bool :=
  is_nil excludeHosts || negb (contains excludeHosts addr).

(** What [Select] of the two scanning policies hands back: the results, the
    selector after the call, and the instrumentation. *)
Record ScanResult (S : Type) := {
  sr_ret : SelectReturn;
  sr_sel : S;
  sr_hooked : list Node;
  sr_examined : list Node
}.
Arguments sr_ret {S} _.
Arguments sr_sel {S} _.
Arguments sr_hooked {S} _.
Arguments sr_examined {S} _.

(** ** RoundRobinNodeSelector *)

Record RoundRobinNodeSelector := {
  rr_index : Z;
  rr_nodeType : NodeResourceType
}.

(** [sortedNodes[(k + s.index) % len(sortedNodes)]] *)
Definition rr_node (sortedNodes : list Node) (index : Z) (k : nat) : run Node :=
  let pos := int_rem (int_wrap (Z.of_nat k + index)) (Z.of_nat (length sortedNodes)) in
  if pos <? 0 then Panic
  else match sortedNodes !! Z.to_nat pos with
       | Some node => Ret node
       | None => Panic
       end.

(** The inner loop, "loop until we get a writable node". *)
Fixpoint rr_scan (fuel : nat) (sortedNodes : list Node) (index : Z)
    (nodeType : NodeResourceType) (excludeHosts : list string)
    (nodeIndex selectedIndex : nat) (examined : list Node)
    : run (nat * nat * list Node) :=
  if (nodeIndex <? length sortedNodes)%nat then
    match fuel with
    | O => NoFuel
    | S fuel' =>
        node ← rr_node sortedNodes index nodeIndex;
        let nodeIndex := S nodeIndex in
        if canAllocPartition node nodeType && notExcluded excludeHosts (GetAddr node)
        then Ret (nodeIndex, (nodeIndex - 1)%nat, examined ++ [node])
        else rr_scan fuel' sortedNodes index nodeType excludeHosts
               nodeIndex selectedIndex (examined ++ [node])
    end
  else Ret (nodeIndex, selectedIndex, examined).

(** The outer loop, "pick first N nodes". *)
Fixpoint rr_loop (fuel : nat) (sortedNodes : list Node) (index : Z)
    (nodeType : NodeResourceType) (excludeHosts : list string)
    (replicaNum i : Z) (st : scanState) : run scanState :=
  let len := length sortedNodes in
  if (i <? replicaNum) && (ss_nodeIndex st <? len)%nat then
    match fuel with
    | O => NoFuel
    | S fuel' =>
        '(nodeIndex, selectedIndex, examined) ←
          rr_scan len sortedNodes index nodeType excludeHosts
            (ss_nodeIndex st) len (ss_examined st);
        if negb (selectedIndex =? len)%nat then
          node ← rr_node sortedNodes index selectedIndex;
          rr_loop fuel' sortedNodes index nodeType excludeHosts replicaNum (i + 1)
            {| ss_nodeIndex := nodeIndex;
               ss_orderHosts := ss_orderHosts st ++ [GetAddr node];
               ss_peers := ss_peers st ++ [mkPeer node];
               ss_hooked := ss_hooked st ++ [node];
               ss_examined := examined |}
        else
          rr_loop fuel' sortedNodes index nodeType excludeHosts replicaNum (i + 1)
            {| ss_nodeIndex := nodeIndex;
               ss_orderHosts := ss_orderHosts st;
               ss_peers := ss_peers st;
               ss_hooked := ss_hooked st;
               ss_examined := examined |}
    end
  else Ret st.

Definition RoundRobin_Select `{GoLib} (draws : list nat) (s : RoundRobinNodeSelector)
    (ns : nodeSet) (excludeHosts : list string) (replicaNum : Z)
    : run (ScanResult RoundRobinNodeSelector) :=
  if replicaNum =? 0 then
    Ret {| sr_ret := {| newHosts := []; peers := []; err := None |};
           sr_sel := s; sr_hooked := []; sr_examined := [] |}
  else
    let nodes := getNodes ns (rr_nodeType s) in
    if Z.of_nat (length nodes) <? replicaNum then
      Ret {| sr_ret := {| newHosts := []; peers := [];
                          err := Some (ErrNoEnoughWritableHosts replicaNum
                                         (Z.of_nat (length nodes))) |};
             sr_sel := s; sr_hooked := []; sr_examined := [] |}
    else
      let sortedNodes := sort_Slice (fun a b => GetID a <? GetID b) nodes in
      st ← rr_loop (length sortedNodes) sortedNodes (rr_index s) (rr_nodeType s)
             excludeHosts replicaNum 0 scanState0;
      if Z.of_nat (length (ss_orderHosts st)) <? replicaNum then
        Ret {| sr_ret := {| newHosts := []; peers := ss_peers st;
                            err := Some (ErrNoEnoughWritableHosts replicaNum
                                           (Z.of_nat (length (ss_orderHosts st)))) |};
               sr_sel := s; sr_hooked := ss_hooked st; sr_examined := ss_examined st |}
      else
        let s' := {| rr_index := int_wrap (rr_index s + Z.of_nat (ss_nodeIndex st));
                     rr_nodeType := rr_nodeType s |} in
        match reshuffleHosts draws (ss_orderHosts st) with
        | None =>
            Ret {| sr_ret := {| newHosts := []; peers := ss_peers st;
                                err := Some ErrOrderHostsIsNil |};
                   sr_sel := s'; sr_hooked := ss_hooked st; sr_examined := ss_examined st |}
        | Some hosts =>
            Ret {| sr_ret := {| newHosts := hosts; peers := ss_peers st; err := None |};
                   sr_sel := s'; sr_hooked := ss_hooked st; sr_examined := ss_examined st |}
        end.

Definition NewRoundRobinNodeSelector (nodeType : NodeResourceType) : RoundRobinNodeSelector :=
  {| rr_index := 0; rr_nodeType := nodeType |}.

(** ** AvailableSpaceFirstNodeSelector *)

Record AvailableSpaceFirstNodeSelector := {
  asf_nodeType : NodeResourceType
}.

(** [getNodeAvailableSpace]; the mismatched cases of the type assertion are
    closed with [0]. *)
Definition getNodeAvailableSpace (nodeType : NodeResourceType) (node : Node) : Z :=
  match nodeType, node with
  | DataNodeDisk, DataNodePtr d => dn_AvailableSpace d
  | MetaNodeMemory, MetaNodePtr m => uint64_sub (mn_Total m) (mn_Used m)
  | MetaNodeRocksdb, MetaNodePtr m => uint64_sub (mn_RocksdbTotal m) (mn_RocksdbUsed m)
  | _, _ => 0
  end.

Definition asf_node (sortedNodes : list Node) (k : nat) : run Node :=
  match sortedNodes !! k with
  | Some node => Ret node
  | None => Panic
  end.

Fixpoint asf_scan (fuel : nat) (sortedNodes : list Node)
    (nodeType : NodeResourceType) (excludeHosts : list string)
    (nodeIndex selectedIndex : nat) (examined : list Node)
    : run (nat * nat * list Node) :=
  if (nodeIndex <? length sortedNodes)%nat then
    match fuel with
    | O => NoFuel
    | S fuel' =>
        node ← asf_node sortedNodes nodeIndex;
        let nodeIndex := S nodeIndex in
        if canAllocPartition node nodeType && notExcluded excludeHosts (GetAddr node)
        then Ret (nodeIndex, (nodeIndex - 1)%nat, examined ++ [node])
        else asf_scan fuel' sortedNodes nodeType excludeHosts
               nodeIndex selectedIndex (examined ++ [node])
    end
  else Ret (nodeIndex, selectedIndex, examined).

Fixpoint asf_loop (fuel : nat) (sortedNodes : list Node)
    (nodeType : NodeResourceType) (excludeHosts : list string)
    (replicaNum i : Z) (st : scanState) : run scanState :=
  let len := length sortedNodes in
  if (i <? replicaNum) && (ss_nodeIndex st <? len)%nat then
    match fuel with
    | O => NoFuel
    | S fuel' =>
        '(nodeIndex, selectedIndex, examined) ←
          asf_scan len sortedNodes nodeType excludeHosts
            (ss_nodeIndex st) len (ss_examined st);
        if negb (selectedIndex =? len)%nat then
          node ← asf_node sortedNodes selectedIndex;
          asf_loop fuel' sortedNodes nodeType excludeHosts replicaNum (i + 1)
            {| ss_nodeIndex := nodeIndex;
               ss_orderHosts := ss_orderHosts st ++ [GetAddr node];
               ss_peers := ss_peers st ++ [mkPeer node];
               ss_hooked := ss_hooked st ++ [node];
               ss_examined := examined |}
        else
          asf_loop fuel' sortedNodes nodeType excludeHosts replicaNum (i + 1)
            {| ss_nodeIndex := nodeIndex;
               ss_orderHosts := ss_orderHosts st;
               ss_peers := ss_peers st;
               ss_hooked := ss_hooked st;
               ss_examined := examined |}
    end
  else Ret st.

Definition AvailableSpaceFirst_Select `{GoLib} (draws : list nat)
    (s : AvailableSpaceFirstNodeSelector)
    (ns : nodeSet) (excludeHosts : list string) (replicaNum : Z)
    : run (ScanResult AvailableSpaceFirstNodeSelector) :=
  if replicaNum =? 0 then
    Ret {| sr_ret := {| newHosts := []; peers := []; err := None |};
           sr_sel := s; sr_hooked := []; sr_examined := [] |}
  else
    let nodes := getNodes ns (asf_nodeType s) in
    if Z.of_nat (length nodes) <? replicaNum then
      Ret {| sr_ret := {| newHosts := []; peers := [];
                          err := Some (ErrNoEnoughHosts replicaNum
                                         (Z.of_nat (length nodes))) |};
             sr_sel := s; sr_hooked := []; sr_examined := [] |}
    else
      let sortedNodes :=
        sort_Slice (fun a b => getNodeAvailableSpace (asf_nodeType s) b
                               <? getNodeAvailableSpace (asf_nodeType s) a) nodes in
      st ← asf_loop (length sortedNodes) sortedNodes (asf_nodeType s)
             excludeHosts replicaNum 0 scanState0;
      if Z.of_nat (length (ss_orderHosts st)) <? replicaNum then
        Ret {| sr_ret := {| newHosts := []; peers := ss_peers st;
                            err := Some (ErrNoEnoughWritableHosts replicaNum
                                           (Z.of_nat (length (ss_orderHosts st)))) |};
               sr_sel := s; sr_hooked := ss_hooked st; sr_examined := ss_examined st |}
      else
        match reshuffleHosts draws (ss_orderHosts st) with
        | None =>
            Ret {| sr_ret := {| newHosts := []; peers := ss_peers st;
                                err := Some ErrOrderHostsIsNil |};
                   sr_sel := s; sr_hooked := ss_hooked st; sr_examined := ss_examined st |}
        | Some hosts =>
            Ret {| sr_ret := {| newHosts := hosts; peers := ss_peers st; err := None |};
                   sr_sel := s; sr_hooked := ss_hooked st; sr_examined := ss_examined st |}
        end.

(** ** CarryWeightNodeSelector *)

Record weightedNode := {
  Carry : float;
  Weight : float;
  Ptr : Node;
  ID : Z
}.

Record CarryWeightNodeSelector := {
  cw_nodeType : NodeResourceType;
  cw_carry : gmap Z float
}.

(** [s.carry[id]]: reading a missing key of a Go map gives the zero value. *)
Definition carry_at (carry : gmap Z float) (id : Z) : float :=
  default 0%float (carry !! id).

(** The body of the three [prepareCarryFor...] callbacks. *)
Definition prepareCarryEntry (carry : gmap Z float) (id free total : Z) : gmap Z float :=
  match carry !! id with
  | Some _ => carry
  | None => <[id := (float64_of_uint64 free / float64_of_uint64 total)%float]> carry
  end.

Definition prepareCarryForDataNodes (carry : gmap Z float) (nodes : list DataNode)
    (total : Z) : gmap Z float :=
  fold_left (fun c d => prepareCarryEntry c (dn_ID d) (dn_AvailableSpace d) total)
    nodes carry.

Definition prepareCarryForMetaNodeMemory (carry : gmap Z float) (nodes : list MetaNode)
    (total : Z) : gmap Z float :=
  fold_left (fun c m => prepareCarryEntry c (mn_ID m)
                          (uint64_sub (mn_Total m) (mn_Used m)) total)
    nodes carry.

Definition prepareCarryForMetaNodeRocksdb (carry : gmap Z float) (nodes : list MetaNode)
    (total : Z) : gmap Z float :=
  fold_left (fun c m => prepareCarryEntry c (mn_ID m)
                          (uint64_sub (mn_RocksdbTotal m) (mn_RocksdbUsed m)) total)
    nodes carry.

Definition prepareCarry (nodeType : NodeResourceType) (carry : gmap Z float)
    (ns : nodeSet) (total : Z) : gmap Z float :=
  match nodeType with
  | DataNodeDisk => prepareCarryForDataNodes carry (dataNodes ns) total
  | MetaNodeMemory => prepareCarryForMetaNodeMemory carry (metaNodes ns) total
  | MetaNodeRocksdb => prepareCarryForMetaNodeRocksdb carry (metaNodes ns) total
  end.

Definition maxOver {A} (f : A -> Z) (nodes : list A) : Z :=
  fold_left (fun total x => if total <? f x then f x else total) nodes 0.

Definition getTotalMax (nodeType : NodeResourceType) (ns : nodeSet) : Z :=
  match nodeType with
  | DataNodeDisk => maxOver dn_Total (dataNodes ns)
  | MetaNodeMemory => maxOver mn_Total (metaNodes ns)
  | MetaNodeRocksdb => maxOver mn_RocksdbTotal (metaNodes ns)
  end.

Definition getCarryDataNodes (carry : gmap Z float) (maxTotal : Z)
    (excludeHosts : list string) (nodes : list DataNode) : list weightedNode * Z :=
  fold_left (fun '(nodeTabs, availCount) d =>
      if contains excludeHosts (dn_Addr d) then (nodeTabs, availCount)
      else if negb (dn_canAllocDp d) then (nodeTabs, availCount)
      else if negb (dn_canAlloc d) then (nodeTabs, availCount)
      else
        let availCount :=
          if (1 <=? carry_at carry (dn_ID d))%float then availCount + 1 else availCount in
        let nt := {| Carry := carry_at carry (dn_ID d);
                     Weight := (float64_of_uint64 (dn_AvailableSpace d)
                                / float64_of_uint64 maxTotal)%float;
                     Ptr := DataNodePtr d;
                     ID := 0 |} in
        (nodeTabs ++ [nt], availCount))
    nodes ([], 0).

Definition getCarryMetaNodes (nodeType : NodeResourceType) (carry : gmap Z float)
    (maxTotal : Z) (excludeHosts : list string) (nodes : list MetaNode)
    : list weightedNode * Z :=
  let storeMode :=
    match nodeType with MetaNodeRocksdb => StoreModeRocksDb | _ => StoreModeMem end in
  fold_left (fun '(nodeTabs, availCount) m =>
      if contains excludeHosts (mn_Addr m) then (nodeTabs, availCount)
      else if negb (isWritable m storeMode) then (nodeTabs, availCount)
      else
        let availCount :=
          if (1 <=? carry_at carry (mn_ID m))%float then availCount + 1 else availCount in
        let nt := {| Carry := carry_at carry (mn_ID m);
                     Weight := (float64_of_uint64 (uint64_sub (mn_Total m) (mn_Used m))
                                / float64_of_uint64 maxTotal)%float;
                     Ptr := MetaNodePtr m;
                     ID := 0 |} in
        (nodeTabs ++ [nt], availCount))
    nodes ([], 0).

Definition getCarryNodes (nodeType : NodeResourceType) (carry : gmap Z float)
    (ns : nodeSet) (maxTotal : Z) (excludeHosts : list string) : list weightedNode * Z :=
  match nodeType with
  | DataNodeDisk => getCarryDataNodes carry maxTotal excludeHosts (dataNodes ns)
  | MetaNodeMemory | MetaNodeRocksdb =>
      getCarryMetaNodes nodeType carry maxTotal excludeHosts (metaNodes ns)
  end.

(** One pass of the [for _, nt := range nodes] loop of [setNodeCarry]:
    the carry map, the entries rewritten so far, the fresh count. *)
Definition carryStep (acc : gmap Z float * list weightedNode * Z) (nt : weightedNode)
    : gmap Z float * list weightedNode * Z :=
  let '(carryMap, done, availCarryCount) := acc in
  let carry := (Carry nt + Weight nt)%float in
  let carry := if (10 <? carry)%float then 10%float else carry in
  let nt' := {| Carry := carry; Weight := Weight nt; Ptr := Ptr nt; ID := ID nt |} in
  (<[GetID (Ptr nt) := carry]> carryMap, done ++ [nt'],
   if (1 <? carry)%float then availCarryCount + 1 else availCarryCount).

Definition carryPass (carryMap : gmap Z float) (nodes : list weightedNode)
    : gmap Z float * list weightedNode * Z :=
  fold_left carryStep nodes (carryMap, [], 0).

(** [setNodeCarry]: [fuel] bounds the number of passes of the outer loop. *)
Fixpoint setNodeCarry (fuel : nat) (carryMap : gmap Z float) (nodes : list weightedNode)
    (availCarryCount replicaNum : Z) : run (gmap Z float * list weightedNode) :=
  if availCarryCount <? replicaNum then
    match fuel with
    | O => NoFuel
    | S fuel' =>
        let '(carryMap', nodes', count) := carryPass carryMap nodes in
        setNodeCarry fuel' carryMap' nodes' count replicaNum
    end
  else Ret (carryMap, nodes).

(** [selectNodeForWrite] on the carry map: "decrease node weight". *)
Definition decreaseCarry (carryMap : gmap Z float) (node : Node) : gmap Z float :=
  <[GetID node := (carry_at carryMap (GetID node) - 1)%float]> carryMap.

Definition CarryWeight_Select `{GoLib} (fuel : nat) (draws : list nat)
    (s : CarryWeightNodeSelector)
    (ns : nodeSet) (excludeHosts : list string) (replicaNum : Z)
    : run (SelectReturn * CarryWeightNodeSelector * list Node) :=
  let total := getTotalMax (cw_nodeType s) ns in
  let carry0 := prepareCarry (cw_nodeType s) (cw_carry s) ns total in
  let s0 := {| cw_nodeType := cw_nodeType s; cw_carry := carry0 |} in
  if replicaNum =? 0 then
    Ret ({| newHosts := []; peers := []; err := None |}, s0, [])
  else
    let '(weightedNodes, count) :=
      getCarryNodes (cw_nodeType s) carry0 ns total excludeHosts in
    if Z.of_nat (length weightedNodes) <? replicaNum then
      Ret ({| newHosts := []; peers := [];
              err := Some (ErrNoEnoughWritableHosts replicaNum
                             (Z.of_nat (length weightedNodes))) |}, s0, [])
    else
      '(carry1, weightedNodes) ← setNodeCarry fuel carry0 weightedNodes count replicaNum;
      let weightedNodes :=
        sort_Slice (fun a b => (Carry b <? Carry a)%float) weightedNodes in
      let picked := map Ptr (take (Z.to_nat replicaNum) weightedNodes) in
      let carry2 := fold_left decreaseCarry picked carry1 in
      let s2 := {| cw_nodeType := cw_nodeType s; cw_carry := carry2 |} in
      let orderHosts := map GetAddr picked in
      let peers := map mkPeer picked in
      match reshuffleHosts draws orderHosts with
      | None => Ret ({| newHosts := []; peers := peers;
                        err := Some ErrOrderHostsIsNil |}, s2, picked)
      | Some hosts => Ret ({| newHosts := hosts; peers := peers; err := None |}, s2, picked)
      end.

Definition NewCarryWeightNodeSelector (nodeType : NodeResourceType) : CarryWeightNodeSelector :=
  {| cw_nodeType := nodeType; cw_carry := ∅ |}.

(** ** StrawNodeSelector *)

Definition StrawNodeSelectorRandMax : Z := 65536.

(** Modelled from the spec: [util.GB] ("the free capacity of v in
    gigabytes"); the constant is not among the sources. *)
Definition util_GB : float := float64_of_int (2 ^ 30).

(** [*rand.Rand]: the outputs the generator will give, and how many were
    consumed. *)
Record Rand := {
  rand_src : nat -> Z;
  rand_pos : nat
}.

Definition Intn (r : Rand) (n : Z) : Z * Rand :=
  (rand_src r (rand_pos r) mod n,
   {| rand_src := rand_src r; rand_pos := S (rand_pos r) |}).

Record StrawNodeSelector := {
  st_rand : Rand;
  st_nodeType : NodeResourceType
}.

Definition getWeight (nodeType : NodeResourceType) (node : Node) : float :=
  (float64_of_uint64 (getNodeAvailableSpace nodeType node) / util_GB)%float.

(** The body of the loop of [selectOneNode]; [index = -1] and
    [maxNode = None] before the first node. *)
Definition strawStep `{GoLib} (nodeType : NodeResourceType)
    (acc : Rand * Z * float * Z * option Node) (node : Node)
    : Rand * Z * float * Z * option Node :=
  let '(rand, i, maxStraw, index, maxNode) := acc in
  let '(r, rand) := Intn rand StrawNodeSelectorRandMax in
  let straw := float64_of_int r in
  let straw := (math_Log (straw / float64_of_int StrawNodeSelectorRandMax)
                / getWeight nodeType node)%float in
  if (index =? -1) || (maxStraw <? straw)%float
  then (rand, i + 1, straw, i, Some node)
  else (rand, i + 1, maxStraw, index, maxNode).

Definition selectOneNode `{GoLib} (nodeType : NodeResourceType) (rand : Rand)
    (nodes : list Node) : Z * option Node * Rand :=
  let '(rand, _, _, index, maxNode) :=
    fold_left (strawStep nodeType) nodes (rand, 0, 0%float, -1, None) in
  (index, maxNode, rand).

(** [nodes[0], nodes[index] = node, nodes[0]] (when [index != 0]) followed by
    [nodes = nodes[1:]], where [node] is [nodes[index]]. *)
Definition swapRemove (index : nat) (nodes : list Node) : list Node :=
  match nodes with
  | [] => []
  | first :: rest =>
      match index with
      | O => rest
      | S k => <[k := first]> rest
      end
  end.

Record strawState := {
  sw_rand : Rand;
  sw_nodes : list Node;
  sw_orderHosts : list string;
  sw_peers : list Peer;
  sw_hooked : list Node
}.

Fixpoint straw_loop `{GoLib} (fuel : nat) (nodeType : NodeResourceType)
    (replicaNum : Z) (st : strawState) : run strawState :=
  if Z.of_nat (length (sw_orderHosts st)) <? replicaNum then
    if Z.of_nat (length (sw_nodes st)) + Z.of_nat (length (sw_orderHosts st)) <? replicaNum
    then Ret st
    else
      match fuel with
      | O => NoFuel
      | S fuel' =>
          let '(index, maxNode, rand) := selectOneNode nodeType (sw_rand st) (sw_nodes st) in
          match maxNode with
          | None => Panic
          | Some node =>
              let nodes := swapRemove (Z.to_nat index) (sw_nodes st) in
              if negb (canAllocPartition node nodeType) then
                straw_loop fuel' nodeType replicaNum
                  {| sw_rand := rand; sw_nodes := nodes;
                     sw_orderHosts := sw_orderHosts st;
                     sw_peers := sw_peers st;
                     sw_hooked := sw_hooked st |}
              else
                straw_loop fuel' nodeType replicaNum
                  {| sw_rand := rand; sw_nodes := nodes;
                     sw_orderHosts := sw_orderHosts st ++ [GetAddr node];
                     sw_peers := sw_peers st ++ [mkPeer node];
                     sw_hooked := sw_hooked st ++ [node] |}
          end
      end
  else Ret st.

Definition Straw_Select `{GoLib} (draws : list nat) (s : StrawNodeSelector)
    (ns : nodeSet) (excludeHosts : list string) (replicaNum : Z)
    : run (SelectReturn * StrawNodeSelector * list Node) :=
  let nodes :=
    List.filter (fun node => negb (contains excludeHosts (GetAddr node)))
      (getNodes ns (st_nodeType s)) in
  st ← straw_loop (length nodes) (st_nodeType s) replicaNum
         {| sw_rand := st_rand s; sw_nodes := nodes;
            sw_orderHosts := []; sw_peers := []; sw_hooked := [] |};
  let s' := {| st_rand := sw_rand st; st_nodeType := st_nodeType s |} in
  if Z.of_nat (length (sw_orderHosts st)) <? replicaNum then
    Ret ({| newHosts := []; peers := sw_peers st;
            err := Some (ErrNoEnoughWritableHosts replicaNum
                           (Z.of_nat (length (sw_orderHosts st)))) |},
         s', sw_hooked st)
  else
    match reshuffleHosts draws (sw_orderHosts st) with
    | None => Ret ({| newHosts := []; peers := sw_peers st;
                      err := Some ErrOrderHostsIsNil |}, s', sw_hooked st)
    | Some hosts => Ret ({| newHosts := hosts; peers := sw_peers st; err := None |},
                        s', sw_hooked st)
    end.

(** ** The interface [NodeSelector] *)

Inductive NodeSelector :=
| RoundRobin (s : RoundRobinNodeSelector)
| AvailableSpaceFirst (s : AvailableSpaceFirstNodeSelector)
| CarryWeight (s : CarryWeightNodeSelector)
| Straw (s : StrawNodeSelector).

Definition GetName (sel : NodeSelector) : string :=
  match sel with
  | RoundRobin _ => "RoundRobin"
  | AvailableSpaceFirst _ => "AvailableSpaceFirst"
  | CarryWeight _ => "CarryWeight"
  | Straw _ => "Straw"
  end.

Definition NewAvailableSpaceFirstNodeSelector (nodeType : NodeResourceType)
    : AvailableSpaceFirstNodeSelector :=
  {| asf_nodeType := nodeType |}.

(** [NewStrawNodeSelector]; the generator seeded from the clock is taken as
    an argument. *)
Definition NewStrawNodeSelector (rand : Rand) (nodeType : NodeResourceType)
    : StrawNodeSelector :=
  {| st_rand := rand; st_nodeType := nodeType |}.

Definition NewNodeSelector (rand : Rand) (name : string) (nodeType : NodeResourceType)
    : NodeSelector :=
  if String.eqb name "RoundRobin" then RoundRobin (NewRoundRobinNodeSelector nodeType)
  else if String.eqb name "CarryWeight" then CarryWeight (NewCarryWeightNodeSelector nodeType)
  else if String.eqb name "AvailableSpaceFirst"
       then AvailableSpaceFirst (NewAvailableSpaceFirstNodeSelector nodeType)
  else if String.eqb name "Straw" then Straw (NewStrawNodeSelector rand nodeType)
  else CarryWeight (NewCarryWeightNodeSelector nodeType).

(** [Select] of the interface: the results, the selector after the call and
    the nodes whose hook was invoked during the call.  [fuel] bounds the
    passes of the carry loop, [draws] feeds [reshuffleHosts]. *)
Definition Select `{GoLib} (fuel : nat) (draws : list nat) (sel : NodeSelector)
    (ns : nodeSet) (excludeHosts : list string) (replicaNum : Z)
    : run (SelectReturn * NodeSelector * list Node) :=
  match sel with
  | RoundRobin s =>
      r ← RoundRobin_Select draws s ns excludeHosts replicaNum;
      Ret (sr_ret r, RoundRobin (sr_sel r), sr_hooked r)
  | AvailableSpaceFirst s =>
      r ← AvailableSpaceFirst_Select draws s ns excludeHosts replicaNum;
      Ret (sr_ret r, AvailableSpaceFirst (sr_sel r), sr_hooked r)
  | CarryWeight s =>
      '(ret, s', hooked) ← CarryWeight_Select fuel draws s ns excludeHosts replicaNum;
      Ret (ret, CarryWeight s', hooked)
  | Straw s =>
      '(ret, s', hooked) ← Straw_Select draws s ns excludeHosts replicaNum;
      Ret (ret, Straw s', hooked)
  end.

(** ** The callers of [Select]

    A node-set carries one selector for each resource type.  The two
    methods below take the locks of the node-set and run [Select] of the
    selector that fits the request.  The locks order concurrent callers and
    are released on every path; one call alone is what is modelled. *)

Record nodeSetWithSelectors := {
  nss_nodes : nodeSet;
  dataNodeDiskSelector : NodeSelector;
  metaNodeMemorySelector : NodeSelector;
  metaNodeRocksdbSelector : NodeSelector
}.

Definition getAvailMetaNodeHosts `{GoLib} (fuel : nat) (draws : list nat)
    (ns : nodeSetWithSelectors) (excludeHosts : list string) (replicaNum : Z)
    (storeMode : StoreMode) : run (SelectReturn * nodeSetWithSelectors * list Node) :=
  match storeMode with
  | StoreModeRocksDb =>
      '(ret, sel', hooked) ←
        Select fuel draws (metaNodeRocksdbSelector ns) (nss_nodes ns) excludeHosts replicaNum;
      Ret (ret,
           {| nss_nodes := nss_nodes ns;
              dataNodeDiskSelector := dataNodeDiskSelector ns;
              metaNodeMemorySelector := metaNodeMemorySelector ns;
              metaNodeRocksdbSelector := sel' |},
           hooked)
  | StoreModeMem =>
      '(ret, sel', hooked) ←
        Select fuel draws (metaNodeMemorySelector ns) (nss_nodes ns) excludeHosts replicaNum;
      Ret (ret,
           {| nss_nodes := nss_nodes ns;
              dataNodeDiskSelector := dataNodeDiskSelector ns;
              metaNodeMemorySelector := sel';
              metaNodeRocksdbSelector := metaNodeRocksdbSelector ns |},
           hooked)
  end.

Definition getAvailDataNodeHosts `{GoLib} (fuel : nat) (draws : list nat)
    (ns : nodeSetWithSelectors) (excludeHosts : list string) (replicaNum : Z)
    : run (SelectReturn * nodeSetWithSelectors * list Node) :=
  '(ret, sel', hooked) ←
    Select fuel draws (dataNodeDiskSelector ns) (nss_nodes ns) excludeHosts replicaNum;
  Ret (ret,
       {| nss_nodes := nss_nodes ns;
          dataNodeDiskSelector := sel';
          metaNodeMemorySelector := metaNodeMemorySelector ns;
          metaNodeRocksdbSelector := metaNodeRocksdbSelector ns |},
       hooked).

(** ** [SortedWeightedNodes] and [sort.Sort]

    The three methods of [sort.Interface] on a slice of entries.  An index
    outside the slice is a run-time panic. *)

Definition SortedWeightedNodes_at (nodes : list weightedNode) (i : Z) : option weightedNode :=
  if i <? 0 then None else nodes !! Z.to_nat i.

Definition SortedWeightedNodes_Len (nodes : list weightedNode) : Z :=
  Z.of_nat (length nodes).

(** [nodes[i].Carry > nodes[j].Carry] *)
Definition SortedWeightedNodes_Less (nodes : list weightedNode) (i j : Z) : run bool :=
  match SortedWeightedNodes_at nodes i, SortedWeightedNodes_at nodes j with
  | Some a, Some b => Ret (Carry b <? Carry a)%float
  | _, _ => Panic
  end.

(** [nodes[i], nodes[j] = nodes[j], nodes[i]] *)
Definition SortedWeightedNodes_Swap (nodes : list weightedNode) (i j : Z)
    : run (list weightedNode) :=
  match SortedWeightedNodes_at nodes i, SortedWeightedNodes_at nodes j with
  | Some a, Some b => Ret (<[Z.to_nat j := a]> (<[Z.to_nat i := b]> nodes))
  | _, _ => Panic
  end.

(** [sort.Sort] calls [Less] and [Swap] only on indices of the slice, so it
    orders the slice as soon as [less] is a strict weak order on the elements
    of that slice.  This is the contract of [GoLib] made local; it is what
    the comparison of carries needs, which is a strict weak order on numbers
    but not on NaN. *)
Definition strict_weak_on {A} (P : A -> Prop) (less : A -> A -> bool) : Prop :=
  (forall a b, P a -> P b -> less a b = true -> less b a = false) /\
  (forall a b c, P a -> P b -> P c ->
                 less a b = false -> less b c = false -> less a c = false).

Class GoSortLocal `{GoLib} := {
  sort_Slice_sorted_on : forall A (less : A -> A -> bool) (l : list A),
      strict_weak_on (fun x => x ∈ l) less ->
      StronglySorted (fun a b => less b a = false) (sort_Slice less l)
}.

(** ** Reference functions for the statements

    [eligible]: the test of the inner loops.  [pickScan elig n l]: the first
    [n] eligible nodes of [l], and the prefix of [l] that has to be read to
    find them. *)

Definition eligible (nodeType : NodeResourceType) (excludeHosts : list string)
    (node : Node) : bool :=
  canAllocPartition node nodeType && notExcluded excludeHosts (GetAddr node).

Fixpoint pickScan (elig : Node -> bool) (n : nat) (l : list Node)
    : list Node * list Node :=
  match n, l with
  | O, _ => ([], [])
  | _, [] => ([], [])
  | S n', x :: l' =>
      if elig x
      then let '(p, e) := pickScan elig n' l' in (x :: p, x :: e)
      else let '(p, e) := pickScan elig n l' in (p, x :: e)
  end.

(** The two nested loops over an arbitrary way [get] of reading the k-th
    node; [rr_scan]/[rr_loop] and [asf_scan]/[asf_loop] are instances. *)
Fixpoint scan_with (get : nat -> run Node) (len : nat) (elig : Node -> bool)
    (fuel nodeIndex selectedIndex : nat) (examined : list Node)
    : run (nat * nat * list Node) :=
  if (nodeIndex <? len)%nat then
    match fuel with
    | O => NoFuel
    | S fuel' =>
        node ← get nodeIndex;
        if elig node
        then Ret (S nodeIndex, (S nodeIndex - 1)%nat, examined ++ [node])
        else scan_with get len elig fuel' (S nodeIndex) selectedIndex (examined ++ [node])
    end
  else Ret (nodeIndex, selectedIndex, examined).

Fixpoint loop_with (get : nat -> run Node) (len : nat) (elig : Node -> bool)
    (fuel : nat) (replicaNum i : Z) (st : scanState) : run scanState :=
  if (i <? replicaNum) && (ss_nodeIndex st <? len)%nat then
    match fuel with
    | O => NoFuel
    | S fuel' =>
        '(nodeIndex, selectedIndex, examined) ←
          scan_with get len elig len (ss_nodeIndex st) len (ss_examined st);
        if negb (selectedIndex =? len)%nat then
          node ← get selectedIndex;
          loop_with get len elig fuel' replicaNum (i + 1)
            {| ss_nodeIndex := nodeIndex;
               ss_orderHosts := ss_orderHosts st ++ [GetAddr node];
               ss_peers := ss_peers st ++ [mkPeer node];
               ss_hooked := ss_hooked st ++ [node];
               ss_examined := examined |}
        else
          loop_with get len elig fuel' replicaNum (i + 1)
            {| ss_nodeIndex := nodeIndex;
               ss_orderHosts := ss_orderHosts st;
               ss_peers := ss_peers st;
               ss_hooked := ss_hooked st;
               ss_examined := examined |}
    end
  else Ret st.

(** The state after the loops, from what [pickScan] says was picked and read. *)
Definition extendState (st : scanState) (pe : list Node * list Node) : scanState :=
  {| ss_nodeIndex := (ss_nodeIndex st + length pe.2)%nat;
     ss_orderHosts := ss_orderHosts st ++ map GetAddr pe.1;
     ss_peers := ss_peers st ++ map mkPeer pe.1;
     ss_hooked := ss_hooked st ++ pe.1;
     ss_examined := ss_examined st ++ pe.2 |}.

(** What a call that returned [ret] after invoking the hook on [hooked]
    must satisfy: the hooked nodes are distinct entries of the node-set,
    writable and not excluded, the peers are theirs, and either the call
    succeeded with the hosts being exactly their [replicaNum] addresses, or
    it failed with fewer than [replicaNum] nodes hooked. *)
Definition selectOutcome (nodes : list Node) (nodeType : NodeResourceType)
    (excludeHosts : list string) (replicaNum : Z)
    (ret : SelectReturn) (hooked : list Node) : Prop :=
  hooked ⊆+ nodes /\
  Forall (fun n => canAllocPartition n nodeType = true /\ GetAddr n ∉ excludeHosts) hooked /\
  peers ret = map mkPeer hooked /\
  ((err ret = None /\ newHosts ret ≡ₚ map GetAddr hooked /\
    Z.of_nat (length hooked) = replicaNum) \/
   (err ret <> None /\ newHosts ret = [] /\
    (hooked = [] \/ Z.of_nat (length hooked) < replicaNum))).

(** The invariant of the loop of [Straw.Select] over the candidates [cand]. *)
Definition strawInv (nodeType : NodeResourceType) (replicaNum : Z)
    (cand : list Node) (st : strawState) : Prop :=
  sw_hooked st ++ sw_nodes st ⊆+ cand /\
  sw_orderHosts st = map GetAddr (sw_hooked st) /\
  sw_peers st = map mkPeer (sw_hooked st) /\
  Forall (fun n => canAllocPartition n nodeType = true) (sw_hooked st) /\
  (sw_hooked st = [] \/ Z.of_nat (length (sw_hooked st)) <= replicaNum).

(** The resource type a selector is bound to. *)
Definition selectorType (sel : NodeSelector) : NodeResourceType :=
  match sel with
  | RoundRobin s => rr_nodeType s
  | AvailableSpaceFirst s => asf_nodeType s
  | CarryWeight s => cw_nodeType s
  | Straw s => st_nodeType s
  end.

(** The cursor of RoundRobin starts at 0 and only grows; the statements
    below hold while it has not come within one round of overflowing. *)
Definition cursorInRange (sel : NodeSelector) (ns : nodeSet) : Prop :=
  match sel with
  | RoundRobin s =>
      0 <= rr_index s /\
      rr_index s + Z.of_nat (length (getNodes ns (rr_nodeType s))) <= int_max
  | _ => True
  end.

Definition isCarryWeight (sel : NodeSelector) : Prop :=
  match sel with CarryWeight _ => True | _ => False end.

(** The number of entries whose carry is at least [1.0]: the count the
    comment in [Select] defines ("a node is a carry node when its carry
    >= 1.0"). *)
Definition carryNodeCount (nodes : list weightedNode) : Z :=
  Z.of_nat (length (List.filter (fun nt => (1 <=? Carry nt)%float) nodes)).

(** The number of entries whose carry is strictly above [1.0]. *)
Definition aboveOneCount (nodes : list weightedNode) : Z :=
  Z.of_nat (length (List.filter (fun nt => (1 <? Carry nt)%float) nodes)).

(** The value one step of a pass writes for the entry [nt]:
    [min(carry + weight, 10.0)] as the source computes it. *)
Definition advanced (nt : weightedNode) : float :=
  let carry := (Carry nt + Weight nt)%float in
  if (10 <? carry)%float then 10%float else carry.





(** The ids of the nodes of the entries: the keys of the carry map a pass
    over the entries writes. *)
Definition candidateIDs (nodes : list weightedNode) : list Z :=
  map (fun nt => GetID (Ptr nt)) nodes.



(** The capacity of a node that [getTotalMax] compares. *)
Definition nodeTotal (nodeType : NodeResourceType) (node : Node) : Z :=
  match nodeType, node with
  | DataNodeDisk, DataNodePtr d => dn_Total d
  | MetaNodeMemory, MetaNodePtr m => mn_Total m
  | MetaNodeRocksdb, MetaNodePtr m => mn_RocksdbTotal m
  | _, _ => 0
  end.

(** The number of nodes of the set that can take a partition and are not
    excluded. *)
Definition eligibleCount (nodeType : NodeResourceType) (excludeHosts : list string)
    (ns : nodeSet) : Z :=
  Z.of_nat (length (List.filter (eligible nodeType excludeHosts) (getNodes ns nodeType))).

(** The entries agree with the carry map: [nt.Carry] is [s.carry[id]]. *)
Definition carrySynced (carryMap : gmap Z float) (nodes : list weightedNode) : Prop :=
  Forall (fun nt => Carry nt = carry_at carryMap (GetID (Ptr nt))) nodes.

(** The names [NewNodeSelector] knows. *)
Definition selectorNames : list string :=
  ["RoundRobin"; "CarryWeight"; "AvailableSpaceFirst"; "Straw"].

Definition isStraw (sel : NodeSelector) : Prop :=
  match sel with Straw _ => True | _ => False end.

(** No carry of the entries is NaN. *)
Definition carriesAreNumbers (nodes : list weightedNode) : Prop :=
  Forall (fun nt => is_nan (Carry nt) = false) nodes.

(** The straw [selectOneNode] computes for the node it reads as the
    [i]-th of a call that starts with the random source [rand]. *)
Definition strawAt `{GoLib} (nodeType : NodeResourceType) (rand : Rand) (i : nat)
    (node : Node) : float :=
  (math_Log (float64_of_int (rand_src rand (rand_pos rand + i)%nat
                               mod StrawNodeSelectorRandMax)
             / float64_of_int StrawNodeSelectorRandMax)
   / getWeight nodeType node)%float.

(** ** Fleets for running the model *)

Definition mkDataNode (id : Z) (addr : string) (avail total : Z) (writable : bool)
    : DataNode :=
  {| dn_ID := id; dn_Addr := addr; dn_AvailableSpace := avail; dn_Total := total;
     dn_canAlloc := writable; dn_canAllocDp := writable |}.

Definition dataFleet (nodes : list DataNode) : nodeSet :=
  {| dataNodes := nodes; metaNodes := [] |}.

(** Two data nodes: [A] has all its space free and is writable, [B] is full
    and not writable. *)
Definition nodeA : DataNode := mkDataNode 1 "A" 100 100 true.
Definition nodeB_full : DataNode := mkDataNode 2 "B" 0 100 false.
Definition fleetOneWritable : nodeSet := dataFleet [nodeB_full; nodeA].

(** A fixed random source for the Straw policy. *)
Definition someRand : Rand :=
  {| rand_src := fun n => Z.of_nat n * 7919 + 13; rand_pos := 0 |}.

(** Scenario S1/S2 of the specification: five writable data nodes with
    100, 90, 80, 70 and 60 units of available space. *)
Definition n1 : DataNode := mkDataNode 1 "n1" 100 100 true.
Definition n2 : DataNode := mkDataNode 2 "n2" 90 100 true.
Definition n3 : DataNode := mkDataNode 3 "n3" 80 100 true.
Definition n4 : DataNode := mkDataNode 4 "n4" 70 100 true.
Definition n5 : DataNode := mkDataNode 5 "n5" 60 100 true.
Definition fleetFive : nodeSet := dataFleet [n3; n5; n1; n4; n2].

(** What AvailableSpaceFirst returns on [fleetFive] with [n1] excluded and
    three replicas asked for (scenario S2), for the draws [2; 0; 1]. *)
Definition scenarioS2 : ScanResult AvailableSpaceFirstNodeSelector :=
  {| sr_ret := {| newHosts := ["n3"; "n4"; "n2"];
                  peers := map mkPeer [DataNodePtr n2; DataNodePtr n3; DataNodePtr n4];
                  err := None |};
     sr_sel := {| asf_nodeType := DataNodeDisk |};
     sr_hooked := [DataNodePtr n2; DataNodePtr n3; DataNodePtr n4];
     sr_examined := [DataNodePtr n1; DataNodePtr n2; DataNodePtr n3; DataNodePtr n4] |}.

(** Four data nodes with the two middle ones (by id) not writable. *)
Definition fleetGap : nodeSet :=
  dataFleet [mkDataNode 1 "A" 100 100 true; mkDataNode 2 "B" 0 100 false;
             mkDataNode 3 "C" 0 100 false; mkDataNode 4 "D" 100 100 true].

(** Two calls of RoundRobin in a row on [fleetFive], two replicas each. *)
Definition rrFirstCall : ScanResult RoundRobinNodeSelector :=
  {| sr_ret := {| newHosts := ["n2"; "n1"];
                  peers := map mkPeer [DataNodePtr n1; DataNodePtr n2];
                  err := None |};
     sr_sel := {| rr_index := 2; rr_nodeType := DataNodeDisk |};
     sr_hooked := [DataNodePtr n1; DataNodePtr n2];
     sr_examined := [DataNodePtr n1; DataNodePtr n2] |}.

Definition rrSecondCall : ScanResult RoundRobinNodeSelector :=
  {| sr_ret := {| newHosts := ["n3"; "n4"];
                  peers := map mkPeer [DataNodePtr n3; DataNodePtr n4];
                  err := None |};
     sr_sel := {| rr_index := 4; rr_nodeType := DataNodeDisk |};
     sr_hooked := [DataNodePtr n3; DataNodePtr n4];
     sr_examined := [DataNodePtr n3; DataNodePtr n4] |}.


(** Two writable data nodes, half and a quarter free. *)
Definition fleetHalf : nodeSet :=
  dataFleet [mkDataNode 1 "A" 50 100 true; mkDataNode 2 "B" 25 100 true].

(** An entry with carry and weight one half. *)
Definition halfEntry : weightedNode :=
  {| Carry := 0.5; Weight := 0.5; Ptr := DataNodePtr (mkDataNode 1 "A" 50 100 true);
     ID := 0 |}.



(** A meta node that is writable in both store modes. *)
Definition metaM : MetaNode :=
  {| mn_ID := 7; mn_Addr := "M"; mn_Total := 100; mn_Used := 40;
     mn_RocksdbTotal := 200; mn_RocksdbUsed := 50;
     mn_isWritableMem := true; mn_isWritableRocksdb := true |}.

(** The data node [A] and the meta node [M], each resource type served by
    an AvailableSpaceFirst selector. *)
Definition clusterAM : nodeSetWithSelectors :=
  {| nss_nodes := {| dataNodes := [nodeA]; metaNodes := [metaM] |};
     dataNodeDiskSelector :=
       AvailableSpaceFirst (NewAvailableSpaceFirstNodeSelector DataNodeDisk);
     metaNodeMemorySelector :=
       AvailableSpaceFirst (NewAvailableSpaceFirstNodeSelector MetaNodeMemory);
     metaNodeRocksdbSelector :=
       AvailableSpaceFirst (NewAvailableSpaceFirstNodeSelector MetaNodeRocksdb) |}.

(** Two meta nodes that are writable in both store modes: [free] uses 40
    of 100, [over] uses 110 of 100. *)
Definition metaFree : MetaNode :=
  {| mn_ID := 1; mn_Addr := "free"; mn_Total := 100; mn_Used := 40;
     mn_RocksdbTotal := 200; mn_RocksdbUsed := 50;
     mn_isWritableMem := true; mn_isWritableRocksdb := true |}.



(** The meta node [free] beside a meta node that uses 110 of 100 and is not
    writable. *)
Definition metaOff : MetaNode :=
  {| mn_ID := 2; mn_Addr := "off"; mn_Total := 100; mn_Used := 110;
     mn_RocksdbTotal := 200; mn_RocksdbUsed := 50;
     mn_isWritableMem := false; mn_isWritableRocksdb := false |}.

Definition fleetOff : nodeSet :=
  {| dataNodes := []; metaNodes := [metaFree; metaOff] |}.

(** An entry of the meta node [free] half a step below the ceiling, and a
    carry map that holds it beside an entry of 1000 for the node [off]. *)
Definition highEntry : weightedNode :=
  {| Carry := 9.75; Weight := 0.5; Ptr := MetaNodePtr metaFree; ID := 0 |}.

Definition highCarry : gmap Z float := {[ 1 := 9.75%float; 2 := 1000%float ]}.

(** * Properties *)

(** ** The library: insertion sort meets the contract of [sort.Slice] *)

Section InsertionSort.
Context {A : Type} (less : A -> A -> bool).

Lemma insert_left_perm x rprefix : insert_left less x rprefix ≡ₚ x :: rprefix.
Proof.
  induction rprefix as [|y r IH]; simpl; [done|].
  destruct (less x y); [|done].
  rewrite IH. apply Permutation_swap.
Qed.

Lemma fold_insert_left_perm l acc :
  fold_left (fun rprefix x => insert_left less x rprefix) l acc ≡ₚ l ++ acc.
Proof.
  revert acc. induction l as [|x l IH]; intros acc; simpl; [done|].
  rewrite IH, insert_left_perm. by rewrite Permutation_middle.
Qed.

Lemma insertionSort_perm l : insertionSort less l ≡ₚ l.
Proof.
  unfold insertionSort. rewrite <- Permutation_rev.
  rewrite fold_insert_left_perm. by rewrite app_nil_r.
Qed.

Hypothesis Hsw : strict_weak less.

(** The reversed prefix is ordered from the largest element down. *)
Lemma insert_left_sorted x rprefix :
  StronglySorted (fun a b => less a b = false) rprefix ->
  StronglySorted (fun a b => less a b = false) (insert_left less x rprefix).
Proof.
  destruct Hsw as [Hasym Hneg].
  induction rprefix as [|y r IH]; simpl; intros Hs.
  - repeat constructor.
  - apply StronglySorted_cons in Hs as [Hy Hr].
    rewrite list.Forall_forall in Hy.
    destruct (less x y) eqn:Hxy.
    + apply StronglySorted_cons. split; [|by apply IH].
      apply list.Forall_forall. intros z Hz.
      rewrite insert_left_perm in Hz.
      apply elem_of_cons in Hz as [->|Hz]; [by apply Hasym|by apply Hy].
    + apply StronglySorted_cons. split.
      * apply list.Forall_forall. intros z Hz.
        apply elem_of_cons in Hz as [->|Hz]; [done|].
        eapply Hneg; [exact Hxy|]. by apply Hy.
      * apply StronglySorted_cons. split; [by apply list.Forall_forall|done].
Qed.

Lemma fold_insert_left_sorted l acc :
  StronglySorted (fun a b => less a b = false) acc ->
  StronglySorted (fun a b => less a b = false)
    (fold_left (fun rprefix x => insert_left less x rprefix) l acc).
Proof.
  revert acc. induction l as [|x l IH]; intros acc Hacc; simpl; [done|].
  apply IH. by apply insert_left_sorted.
Qed.

Lemma StronglySorted_rev_flip (R : A -> A -> Prop) l :
  StronglySorted R l -> StronglySorted (fun a b => R b a) (rev l).
Proof.
  induction 1 as [|x l Hl IH Hx]; simpl; [constructor|].
  apply StronglySorted_app_2; [|done|repeat constructor].
  intros a b Ha Hb. apply list_elem_of_singleton in Hb as ->.
  rewrite list.Forall_forall in Hx. apply Hx.
  apply list_elem_of_In. apply list_elem_of_In in Ha. by apply in_rev.
Qed.

Lemma insertionSort_sorted l :
  StronglySorted (fun a b => less b a = false) (insertionSort less l).
Proof.
  unfold insertionSort.
  apply (StronglySorted_rev_flip (fun a b => less a b = false)).
  apply fold_insert_left_sorted. constructor.
Qed.
End InsertionSort.

(** The library used to run the model on concrete inputs. *)
#[global] Instance insertionLib : GoLib := {|
  sort_Slice := @insertionSort;
  sort_Slice_perm := @insertionSort_perm;
  sort_Slice_sorted := fun A less l H => @insertionSort_sorted A less H l;
  math_Log := approx_Log
|}.

(** ** The loops of the scanning policies compute [pickScan] *)

Lemma contains_true (excludeHosts : list string) (addr : string) :
  contains excludeHosts addr = true <-> addr ∈ excludeHosts.
Proof.
  unfold contains. rewrite existsb_exists. split.
  - intros (x & Hx & Heq). apply String.eqb_eq in Heq as ->. by apply list_elem_of_In.
  - intros Hin. exists addr. split; [by apply list_elem_of_In|apply String.eqb_refl].
Qed.

Lemma contains_false (excludeHosts : list string) (addr : string) :
  contains excludeHosts addr = false <-> addr ∉ excludeHosts.
Proof.
  rewrite <- contains_true. destruct (contains excludeHosts addr); naive_solver.
Qed.

Lemma notExcluded_contains (excludeHosts : list string) (addr : string) :
  notExcluded excludeHosts addr = negb (contains excludeHosts addr).
Proof. unfold notExcluded. by destruct excludeHosts. Qed.

Lemma eligible_true nodeType excludeHosts node :
  eligible nodeType excludeHosts node = true <->
  canAllocPartition node nodeType = true /\ GetAddr node ∉ excludeHosts.
Proof.
  unfold eligible. rewrite andb_true_iff, notExcluded_contains, negb_true_iff.
  by rewrite contains_false.
Qed.

Lemma rr_scan_with fuel sortedNodes index nodeType excludeHosts ni si ex :
  rr_scan fuel sortedNodes index nodeType excludeHosts ni si ex =
  scan_with (rr_node sortedNodes index) (length sortedNodes)
    (eligible nodeType excludeHosts) fuel ni si ex.
Proof.
  revert ni ex. induction fuel as [|fuel IH]; intros ni ex; simpl; [done|].
  destruct (ni <? length sortedNodes)%nat; [|done].
  destruct (rr_node sortedNodes index ni) as [node| |]; simpl; [|done..].
  unfold eligible at 1. destruct (_ && _); [done|apply IH].
Qed.

Lemma rr_loop_with fuel sortedNodes index nodeType excludeHosts replicaNum i st :
  rr_loop fuel sortedNodes index nodeType excludeHosts replicaNum i st =
  loop_with (rr_node sortedNodes index) (length sortedNodes)
    (eligible nodeType excludeHosts) fuel replicaNum i st.
Proof.
  revert i st. induction fuel as [|fuel IH]; intros i st; simpl; [done|].
  destruct (_ && _); [|done]. rewrite rr_scan_with.
  destruct (scan_with _ _ _ _ _ _ _) as [[[ni si] ex]| |]; simpl; [|done..].
  destruct (negb _); [|apply IH].
  destruct (rr_node sortedNodes index si); simpl; [apply IH|done..].
Qed.

Lemma asf_scan_with fuel sortedNodes nodeType excludeHosts ni si ex :
  asf_scan fuel sortedNodes nodeType excludeHosts ni si ex =
  scan_with (asf_node sortedNodes) (length sortedNodes)
    (eligible nodeType excludeHosts) fuel ni si ex.
Proof.
  revert ni ex. induction fuel as [|fuel IH]; intros ni ex; simpl; [done|].
  destruct (ni <? length sortedNodes)%nat; [|done].
  destruct (asf_node sortedNodes ni) as [node| |]; simpl; [|done..].
  unfold eligible at 1. destruct (_ && _); [done|apply IH].
Qed.

Lemma asf_loop_with fuel sortedNodes nodeType excludeHosts replicaNum i st :
  asf_loop fuel sortedNodes nodeType excludeHosts replicaNum i st =
  loop_with (asf_node sortedNodes) (length sortedNodes)
    (eligible nodeType excludeHosts) fuel replicaNum i st.
Proof.
  revert i st. induction fuel as [|fuel IH]; intros i st; simpl; [done|].
  destruct (_ && _); [|done]. rewrite asf_scan_with.
  destruct (scan_with _ _ _ _ _ _ _) as [[[ni si] ex]| |]; simpl; [|done..].
  destruct (negb _); [|apply IH].
  destruct (asf_node sortedNodes si); simpl; [apply IH|done..].
Qed.

Section ScanLoops.
Variables (get : nat -> run Node) (elig : Node -> bool) (visit : list Node).
Hypothesis Hget : forall k x, visit !! k = Some x -> get k = Ret x.

Let len := length visit.

(** What one run of the inner loop does on the nodes not yet read. *)
Lemma scan_with_found pre sk x rest fuel sel ex :
  visit = pre ++ sk ++ x :: rest ->
  Forall (fun y => elig y = false) sk ->
  elig x = true ->
  (length sk < fuel)%nat ->
  scan_with get len elig fuel (length pre) sel ex =
  Ret (S (length pre + length sk), (length pre + length sk)%nat, ex ++ sk ++ [x]).
Proof.
  revert pre fuel ex. induction sk as [|y sk IH]; intros pre fuel ex Hv Hsk Hx Hfuel.
  - destruct fuel as [|fuel]; [simpl in Hfuel; lia|]. simpl.
    assert ((length pre <? len)%nat = true) as ->.
    { apply Nat.ltb_lt. subst len. rewrite Hv, length_app. simpl. lia. }
    rewrite (Hget (length pre) x).
    2:{ rewrite Hv. simpl. by apply list_lookup_middle. }
    simpl. rewrite Hx. by rewrite Nat.add_0_r, Nat.sub_0_r.
  - destruct fuel as [|fuel]; [simpl in Hfuel; lia|]. simpl.
    assert ((length pre <? len)%nat = true) as ->.
    { apply Nat.ltb_lt. subst len. rewrite Hv, length_app. simpl. lia. }
    rewrite (Hget (length pre) y).
    2:{ rewrite Hv. simpl. by apply list_lookup_middle. }
    simpl. apply Forall_cons in Hsk as [Hy Hsk]. rewrite Hy.
    specialize (IH (pre ++ [y]) fuel (ex ++ [y])).
    rewrite length_app in IH. simpl in IH.
    replace (S (length pre)) with (length pre + 1)%nat by lia.
    rewrite IH; [|by rewrite Hv, <- app_assoc|done..|simpl in Hfuel; lia].
    f_equal. f_equal; [f_equal; simpl; lia|by rewrite <- app_assoc].
Qed.

Lemma scan_with_none pre rest fuel sel ex :
  visit = pre ++ rest ->
  Forall (fun y => elig y = false) rest ->
  (length rest <= fuel)%nat ->
  scan_with get len elig fuel (length pre) sel ex = Ret (len, sel, ex ++ rest).
Proof.
  revert pre fuel ex. induction rest as [|y rest IH]; intros pre fuel ex Hv Hr Hfuel.
  - assert (length pre = len) as Hlen.
    { subst len. by rewrite Hv, app_nil_r. }
    rewrite app_nil_r. destruct fuel; simpl; rewrite Hlen, Nat.ltb_irrefl; done.
  - destruct fuel as [|fuel]; [simpl in Hfuel; lia|]. simpl.
    assert ((length pre <? len)%nat = true) as ->.
    { apply Nat.ltb_lt. subst len. rewrite Hv, length_app. simpl. lia. }
    rewrite (Hget (length pre) y).
    2:{ rewrite Hv. simpl. by apply list_lookup_middle. }
    simpl. apply Forall_cons in Hr as [Hy Hr]. rewrite Hy.
    specialize (IH (pre ++ [y]) fuel (ex ++ [y])).
    rewrite length_app in IH. simpl in IH.
    replace (S (length pre)) with (length pre + 1)%nat by lia.
    rewrite IH; [|by rewrite Hv, <- app_assoc|done|simpl in Hfuel; lia].
    by rewrite <- app_assoc.
Qed.

(** A list either has a first eligible node or none. *)
Lemma first_eligible (l : list Node) :
  (exists sk x rest, l = sk ++ x :: rest /\
      Forall (fun y => elig y = false) sk /\ elig x = true) \/
  Forall (fun y => elig y = false) l.
Proof.
  induction l as [|y l IH]; [by right|].
  destruct (elig y) eqn:Hy.
  - left. exists [], y, l. by repeat split.
  - destruct IH as [(sk & x & rest & -> & Hsk & Hx)|Hall].
    + left. exists (y :: sk), x, rest. repeat split; [|done]. by constructor.
    + right. by constructor.
Qed.

Lemma pickScan_found n sk x rest :
  Forall (fun y => elig y = false) sk -> elig x = true ->
  pickScan elig (S n) (sk ++ x :: rest) =
  (x :: (pickScan elig n rest).1, sk ++ x :: (pickScan elig n rest).2).
Proof.
  intros Hsk Hx. induction Hsk as [|y sk Hy Hsk IH]; simpl.
  - rewrite Hx. by destruct (pickScan elig n rest).
  - rewrite Hy. simpl in IH. rewrite IH. done.
Qed.

Lemma pickScan_none n l :
  Forall (fun y => elig y = false) l -> pickScan elig (S n) l = ([], l).
Proof.
  induction 1 as [|y l Hy Hl IH]; [done|].
  simpl. rewrite Hy. simpl in IH. by rewrite IH.
Qed.

Lemma pickScan_0 l : pickScan elig 0 l = ([], []).
Proof. by destruct l. Qed.

Lemma extendState_nil st : extendState st ([], []) = st.
Proof.
  destruct st. unfold extendState. simpl.
  by rewrite Nat.add_0_r, !app_nil_r.
Qed.

Lemma loop_with_done fuel replicaNum i st :
  (len <= ss_nodeIndex st)%nat ->
  loop_with get len elig fuel replicaNum i st = Ret st.
Proof.
  intros Hge. apply Nat.ltb_ge in Hge.
  destruct fuel; simpl; rewrite Hge, andb_false_r; done.
Qed.

(** The outer loop, started with [pre] read and [rest] to go. *)
Lemma loop_with_spec fuel replicaNum i st pre rest :
  visit = pre ++ rest ->
  ss_nodeIndex st = length pre ->
  (length rest <= fuel)%nat ->
  loop_with get len elig fuel replicaNum i st =
  Ret (extendState st (pickScan elig (Z.to_nat (replicaNum - i)) rest)).
Proof.
  revert i st pre rest.
  induction fuel as [|fuel IH]; intros i st pre rest Hv Hni Hfuel.
  - destruct rest; [|simpl in Hfuel; lia].
    rewrite loop_with_done.
    + destruct (Z.to_nat _); by rewrite extendState_nil.
    + rewrite Hni. subst len. by rewrite Hv, app_nil_r.
  - simpl. destruct (i <? replicaNum) eqn:Hi; simpl.
    2:{ apply Z.ltb_ge in Hi. replace (Z.to_nat (replicaNum - i)) with O by lia.
        by rewrite pickScan_0, extendState_nil. }
    apply Z.ltb_lt in Hi.
    replace (Z.to_nat (replicaNum - i)) with (S (Z.to_nat (replicaNum - (i + 1)))) by lia.
    destruct rest as [|r0 rest0].
    { assert (ss_nodeIndex st = len) as ->.
      { rewrite Hni. subst len. by rewrite Hv, app_nil_r. }
      rewrite Nat.ltb_irrefl. simpl. by rewrite extendState_nil. }
    assert ((ss_nodeIndex st <? len)%nat = true) as ->.
    { apply Nat.ltb_lt. rewrite Hni. subst len. rewrite Hv, length_app. simpl. lia. }
    assert (length (r0 :: rest0) <= len)%nat as Hrl.
    { subst len. rewrite Hv, length_app. lia. }
    rewrite Hni.
    destruct (first_eligible (r0 :: rest0)) as [(sk & x & rest' & Hr & Hsk & Hx)|Hnone].
    + rewrite Hr in *.
      rewrite (scan_with_found pre sk x rest'); [|done..|].
      2:{ rewrite length_app in Hrl. simpl in Hrl. lia. }
      simpl.
      assert (length pre + length sk <> len)%nat as Hne.
      { subst len. rewrite Hv, !length_app. simpl. lia. }
      apply Nat.eqb_neq in Hne. rewrite Hne. simpl.
      rewrite (Hget (length pre + length sk)%nat x).
      2:{ rewrite Hv, app_assoc, <- length_app. by rewrite list_lookup_middle. }
      simpl.
      rewrite (IH _ _ (pre ++ sk ++ [x]) rest').
      * rewrite pickScan_found by done.
        destruct (pickScan elig _ rest') as [p e]. unfold extendState. simpl.
        f_equal. f_equal.
        -- rewrite Hni, !length_app. simpl. lia.
        -- by rewrite <- app_assoc.
        -- by rewrite <- app_assoc.
        -- by rewrite <- app_assoc.
        -- rewrite <- !app_assoc. done.
      * rewrite Hv. by rewrite <- !app_assoc.
      * simpl. rewrite !length_app. simpl. lia.
      * rewrite length_app in Hfuel. simpl in Hfuel. lia.
    + rewrite (pickScan_none _ _ Hnone).
      rewrite (scan_with_none pre (r0 :: rest0)); [|done..].
      simpl. rewrite Nat.eqb_refl. simpl.
      rewrite loop_with_done by (simpl; lia).
      unfold extendState. simpl.
      f_equal. f_equal.
      -- rewrite Hni. subst len. rewrite Hv, length_app. done.
      -- by rewrite app_nil_r.
      -- by rewrite app_nil_r.
      -- by rewrite app_nil_r.
Qed.

Corollary loop_with_start replicaNum :
  loop_with get len elig len replicaNum 0 scanState0 =
  Ret (extendState scanState0 (pickScan elig (Z.to_nat replicaNum) visit)).
Proof.
  rewrite (loop_with_spec len replicaNum 0 scanState0 [] visit); try done.
  by rewrite Z.sub_0_r.
Qed.
End ScanLoops.

(** ** What [pickScan] picks and reads *)

Lemma submseteq_NoDup {A} (l k : list A) : l ⊆+ k -> NoDup k -> NoDup l.
Proof.
  intros Hsub Hk. apply submseteq_Permutation in Hsub as [k' Hk'].
  rewrite Hk' in Hk. by apply NoDup_app in Hk as [? _].
Qed.

Lemma map_submseteq_NoDup {A B} (f : A -> B) (l k : list A) :
  l ⊆+ k -> NoDup (map f k) -> NoDup (map f l).
Proof.
  intros Hsub. apply submseteq_NoDup.
  by apply (fmap_submseteq f) in Hsub.
Qed.

Section PickScan.
Variable elig : Node -> bool.

Lemma pickScan_picked_sublist n l :
  (pickScan elig n l).1 `sublist_of` (pickScan elig n l).2.
Proof.
  revert n. induction l as [|x l IH]; intros [|n]; simpl; try constructor.
  destruct (elig x).
  - specialize (IH n). destruct (pickScan elig n l). by constructor.
  - specialize (IH (S n)). destruct (pickScan elig (S n) l). by constructor.
Qed.

Lemma pickScan_examined_prefix n l :
  (pickScan elig n l).2 = take (length (pickScan elig n l).2) l.
Proof.
  revert n. induction l as [|x l IH]; intros [|n]; simpl; try done.
  destruct (elig x).
  - specialize (IH n). destruct (pickScan elig n l). simpl in *. by f_equal.
  - specialize (IH (S n)). destruct (pickScan elig (S n) l). simpl in *. by f_equal.
Qed.

Lemma pickScan_examined_length n l :
  (length (pickScan elig n l).2 <= length l)%nat.
Proof.
  rewrite (pickScan_examined_prefix n l) at 1. rewrite length_take. lia.
Qed.

Lemma pickScan_picked_in n l : (pickScan elig n l).1 `sublist_of` l.
Proof.
  etrans; [apply pickScan_picked_sublist|].
  rewrite pickScan_examined_prefix. apply sublist_take.
Qed.

Lemma pickScan_picked_eligible n l :
  Forall (fun x => elig x = true) (pickScan elig n l).1.
Proof.
  revert n. induction l as [|x l IH]; intros [|n]; simpl; try constructor.
  destruct (elig x) eqn:Hx.
  - specialize (IH n). destruct (pickScan elig n l). by constructor.
  - specialize (IH (S n)). by destruct (pickScan elig (S n) l).
Qed.

Lemma pickScan_picked_length n l : (length (pickScan elig n l).1 <= n)%nat.
Proof.
  revert n. induction l as [|x l IH]; intros [|n]; simpl; try lia.
  destruct (elig x).
  - specialize (IH n). destruct (pickScan elig n l). simpl in *. lia.
  - specialize (IH (S n)). by destruct (pickScan elig (S n) l).
Qed.

(** Fewer than [n] picked: the whole list was read, and every eligible
    node of it was picked. *)
Lemma pickScan_short n l :
  (length (pickScan elig n l).1 < n)%nat ->
  (pickScan elig n l).2 = l /\
  forall x, x ∈ l -> elig x = true -> x ∈ (pickScan elig n l).1.
Proof.
  revert n. induction l as [|x l IH]; intros [|n]; simpl; try lia.
  { intros _. split; [done|]. intros x Hx. by apply elem_of_nil in Hx. }
  destruct (elig x) eqn:Hx.
  - specialize (IH n). destruct (pickScan elig n l) as [p e]. simpl in *.
    intros Hlt. destruct IH as [-> Hall]; [lia|]. split; [done|].
    intros y Hy Hey. apply elem_of_cons in Hy as [->|Hy]; [left|right; auto].
  - specialize (IH (S n)). destruct (pickScan elig (S n) l) as [p e]. simpl in *.
    intros Hlt. destruct IH as [-> Hall]; [lia|]. split; [done|].
    intros y Hy Hey. apply elem_of_cons in Hy as [->|Hy]; [congruence|auto].
Qed.


Lemma pickScan_all_eligible n l :
  Forall (fun x => elig x = true) l ->
  pickScan elig n l = (take n l, take n l).
Proof.
  intros Hall. revert n. induction Hall as [|x l Hx Hl IH]; intros [|n]; simpl; try done.
  rewrite Hx, IH. done.
Qed.
End PickScan.

(** ** [reshuffleHosts] *)

Lemma insert_at_perm {A} k (x : A) l : insert_at k x l ≡ₚ x :: l.
Proof.
  revert k. induction l as [|y l IH]; intros [|k]; simpl; try done.
  rewrite IH. apply Permutation_swap.
Qed.

Lemma shuffle_perm {A} draws (l : list A) : shuffle draws l ≡ₚ l.
Proof.
  revert draws. induction l as [|x l IH]; intros draws; simpl; [done|].
  rewrite insert_at_perm. by rewrite IH.
Qed.

Lemma reshuffleHosts_Some draws oldHosts hosts :
  reshuffleHosts draws oldHosts = Some hosts -> hosts ≡ₚ oldHosts.
Proof.
  destruct oldHosts; simpl; [done|]. intros ?; simplify_eq. apply (shuffle_perm draws (_ :: _)).
Qed.

Lemma reshuffleHosts_Some_length draws oldHosts hosts :
  reshuffleHosts draws oldHosts = Some hosts -> (0 < length oldHosts)%nat.
Proof. destruct oldHosts; simpl; [done|lia]. Qed.

Lemma reshuffleHosts_None draws oldHosts :
  reshuffleHosts draws oldHosts = None <-> oldHosts = [].
Proof. by destruct oldHosts. Qed.

(** ** RoundRobin: the nodes are read in rotated order *)

Lemma int_wrap_small z : int_min <= z <= int_max -> int_wrap z = z.
Proof.
  unfold int_min, int_max, int_wrap. intros Hz.
  rewrite Z.mod_small; lia.
Qed.

Lemma rr_node_rotate sortedNodes index k x :
  0 <= index ->
  index + Z.of_nat (length sortedNodes) <= int_max ->
  rotate (Z.to_nat index) sortedNodes !! k = Some x ->
  rr_node sortedNodes index k = Ret x.
Proof.
  intros Hi Hmax Hk. apply lookup_rotate_r_Some in Hk as [Hk Hlt].
  unfold rr_node, int_rem.
  rewrite int_wrap_small by (unfold int_min, int_max in *; lia).
  rewrite Z.rem_mod_nonneg by lia.
  assert (0 <= (Z.of_nat k + index) `mod` Z.of_nat (length sortedNodes)) as Hpos
    by (apply Z.mod_pos_bound; lia).
  destruct (_ <? 0) eqn:Hneg; [apply Z.ltb_lt in Hneg; lia|].
  unfold rotate_nat_add in Hk. rewrite Z2Nat.id in Hk by lia.
  rewrite (Z.add_comm (Z.of_nat k)). by rewrite Hk.
Qed.

Lemma rotate_perm {A} n (l : list A) : rotate n l ≡ₚ l.
Proof.
  unfold rotate. rewrite Permutation_app_comm. by rewrite take_drop.
Qed.

Lemma rr_loop_spec sortedNodes index nodeType excludeHosts replicaNum :
  0 <= index ->
  index + Z.of_nat (length sortedNodes) <= int_max ->
  rr_loop (length sortedNodes) sortedNodes index nodeType excludeHosts
    replicaNum 0 scanState0 =
  Ret (extendState scanState0
         (pickScan (eligible nodeType excludeHosts) (Z.to_nat replicaNum)
            (rotate (Z.to_nat index) sortedNodes))).
Proof.
  intros Hi Hmax. rewrite rr_loop_with.
  rewrite <- (length_rotate sortedNodes (Z.to_nat index)).
  apply loop_with_start. intros k x. by apply rr_node_rotate.
Qed.

Lemma asf_loop_spec sortedNodes nodeType excludeHosts replicaNum :
  asf_loop (length sortedNodes) sortedNodes nodeType excludeHosts
    replicaNum 0 scanState0 =
  Ret (extendState scanState0
         (pickScan (eligible nodeType excludeHosts) (Z.to_nat replicaNum) sortedNodes)).
Proof.
  rewrite asf_loop_with. apply loop_with_start.
  intros k x Hk. unfold asf_node. by rewrite Hk.
Qed.

(** The end of the scanning policies: from the picked nodes to the outcome. *)
Lemma picked_outcome nodes visit nodeType excludeHosts replicaNum (ret : SelectReturn) n :
  let picked := (pickScan (eligible nodeType excludeHosts) n visit).1 in
  visit ≡ₚ nodes ->
  peers ret = map mkPeer picked ->
  (err ret = None /\ newHosts ret ≡ₚ map GetAddr picked /\
    Z.of_nat (length picked) = replicaNum) \/
   (err ret <> None /\ newHosts ret = [] /\
    (picked = [] \/ Z.of_nat (length picked) < replicaNum)) ->
  selectOutcome nodes nodeType excludeHosts replicaNum ret picked.
Proof.
  intros picked Hperm Hpeers Hcase. split; [|split; [|split]]; try done.
  - rewrite <- Hperm. apply sublist_submseteq, pickScan_picked_in.
  - eapply Forall_impl; [apply pickScan_picked_eligible|].
    intros x Hx. by apply eligible_true in Hx.
Qed.

Lemma RoundRobin_Select_outcome `{GoLib} draws s ns excludeHosts replicaNum r :
  0 <= rr_index s ->
  rr_index s + Z.of_nat (length (getNodes ns (rr_nodeType s))) <= int_max ->
  RoundRobin_Select draws s ns excludeHosts replicaNum = Ret r ->
  selectOutcome (getNodes ns (rr_nodeType s)) (rr_nodeType s) excludeHosts replicaNum
    (sr_ret r) (sr_hooked r).
Proof.
  intros Hi Hmax. unfold RoundRobin_Select.
  destruct (replicaNum =? 0) eqn:H0.
  { intros ?; simplify_eq. simpl. apply Z.eqb_eq in H0. repeat split; try done.
    - apply submseteq_nil_l.
    - left. by repeat split. }
  destruct (_ <? replicaNum) eqn:Hlen.
  { intros ?; simplify_eq. simpl. repeat split; try done.
    - apply submseteq_nil_l.
    - right. repeat split; try done. by left. }
  set (nodes := getNodes ns (rr_nodeType s)) in *.
  set (sortedNodes := sort_Slice _ nodes).
  assert (length sortedNodes = length nodes) as Hlens
    by (subst sortedNodes; by rewrite sort_Slice_perm).
  rewrite rr_loop_spec by (rewrite ?Hlens; done).
  cbn [mbind run_bind].
  set (visit := rotate _ sortedNodes).
  assert (visit ≡ₚ nodes) as Hperm.
  { subst visit sortedNodes. by rewrite rotate_perm, sort_Slice_perm. }
  unfold extendState. cbn [ss_orderHosts ss_peers ss_hooked ss_examined ss_nodeIndex scanState0].
  rewrite !app_nil_l. rewrite length_map.
  destruct (Z.of_nat (length (pickScan _ _ _).1) <? replicaNum) eqn:Hshort.
  { intros ?; simplify_eq. cbn. apply picked_outcome; [done..|].
    right. apply Z.ltb_lt in Hshort. repeat split; try done. by right. }
  apply Z.ltb_ge in Hshort.
  destruct (reshuffleHosts _ _) as [hosts|] eqn:Hre; intros ?; simplify_eq; cbn;
    apply picked_outcome; try done.
  - left. pose proof (reshuffleHosts_Some_length _ _ _ Hre) as Hpos.
    rewrite length_map in Hpos.
    apply reshuffleHosts_Some in Hre. repeat split; try done.
    pose proof (pickScan_picked_length (eligible (rr_nodeType s) excludeHosts)
                  (Z.to_nat replicaNum) visit). lia.
  - right. apply reshuffleHosts_None in Hre. repeat split; try done.
    left. by apply map_eq_nil in Hre.
Qed.

Lemma AvailableSpaceFirst_Select_outcome `{GoLib} draws s ns excludeHosts replicaNum r :
  AvailableSpaceFirst_Select draws s ns excludeHosts replicaNum = Ret r ->
  selectOutcome (getNodes ns (asf_nodeType s)) (asf_nodeType s) excludeHosts replicaNum
    (sr_ret r) (sr_hooked r).
Proof.
  unfold AvailableSpaceFirst_Select.
  destruct (replicaNum =? 0) eqn:H0.
  { intros ?; simplify_eq. simpl. apply Z.eqb_eq in H0. repeat split; try done.
    - apply submseteq_nil_l.
    - left. by repeat split. }
  destruct (_ <? replicaNum) eqn:Hlen.
  { intros ?; simplify_eq. simpl. repeat split; try done.
    - apply submseteq_nil_l.
    - right. repeat split; try done. by left. }
  set (nodes := getNodes ns (asf_nodeType s)) in *.
  set (sortedNodes := sort_Slice _ nodes).
  rewrite asf_loop_spec.
  cbn [mbind run_bind].
  assert (sortedNodes ≡ₚ nodes) as Hperm by (subst sortedNodes; apply sort_Slice_perm).
  unfold extendState. cbn [ss_orderHosts ss_peers ss_hooked ss_examined ss_nodeIndex scanState0].
  rewrite !app_nil_l. rewrite length_map.
  destruct (Z.of_nat (length (pickScan _ _ _).1) <? replicaNum) eqn:Hshort.
  { intros ?; simplify_eq. cbn. apply picked_outcome; [done..|].
    right. apply Z.ltb_lt in Hshort. repeat split; try done. by right. }
  apply Z.ltb_ge in Hshort.
  destruct (reshuffleHosts _ _) as [hosts|] eqn:Hre; intros ?; simplify_eq; cbn;
    apply picked_outcome; try done.
  - left. pose proof (reshuffleHosts_Some_length _ _ _ Hre) as Hpos.
    rewrite length_map in Hpos.
    apply reshuffleHosts_Some in Hre. repeat split; try done.
    pose proof (pickScan_picked_length (eligible (asf_nodeType s) excludeHosts)
                  (Z.to_nat replicaNum) sortedNodes). lia.
  - right. apply reshuffleHosts_None in Hre. repeat split; try done.
    left. by apply map_eq_nil in Hre.
Qed.

(** ** CarryWeight: the candidates and the carry passes *)

Lemma eligible_data excludeHosts d :
  eligible DataNodeDisk excludeHosts (DataNodePtr d) =
  dn_canAlloc d && dn_canAllocDp d && negb (contains excludeHosts (dn_Addr d)).
Proof. unfold eligible. by rewrite notExcluded_contains. Qed.

Lemma eligible_meta nodeType excludeHosts m :
  nodeType <> DataNodeDisk ->
  eligible nodeType excludeHosts (MetaNodePtr m) =
  isWritable m (match nodeType with
                | MetaNodeRocksdb => StoreModeRocksDb | _ => StoreModeMem end)
  && negb (contains excludeHosts (mn_Addr m)).
Proof. unfold eligible. rewrite notExcluded_contains. by destruct nodeType. Qed.

Lemma getCarryDataNodes_acc carry maxTotal excludeHosts nodes acc count :
  map Ptr (fold_left (fun '(nodeTabs, availCount) d =>
      if contains excludeHosts (dn_Addr d) then (nodeTabs, availCount)
      else if negb (dn_canAllocDp d) then (nodeTabs, availCount)
      else if negb (dn_canAlloc d) then (nodeTabs, availCount)
      else
        let availCount :=
          if (1 <=? carry_at carry (dn_ID d))%float then availCount + 1 else availCount in
        let nt := {| Carry := carry_at carry (dn_ID d);
                     Weight := (float64_of_uint64 (dn_AvailableSpace d)
                                / float64_of_uint64 maxTotal)%float;
                     Ptr := DataNodePtr d;
                     ID := 0 |} in
        (nodeTabs ++ [nt], availCount))
    nodes (acc, count)).1 =
  map Ptr acc ++
  List.filter (eligible DataNodeDisk excludeHosts) (map DataNodePtr nodes).
Proof.
  revert acc count. induction nodes as [|d nodes IH]; intros acc count;
    cbn [fold_left map List.filter].
  - by rewrite app_nil_r.
  - rewrite eligible_data.
    destruct (contains excludeHosts (dn_Addr d)); cbn [negb].
    { rewrite andb_false_r. apply IH. }
    destruct (dn_canAllocDp d); cbn [negb].
    2:{ rewrite andb_false_r. apply IH. }
    destruct (dn_canAlloc d); cbn [negb andb]; [|apply IH].
    rewrite IH, map_app. cbn [map Ptr]. by rewrite <- app_assoc.
Qed.

Lemma getCarryMetaNodes_acc nodeType carry maxTotal excludeHosts nodes acc count :
  nodeType <> DataNodeDisk ->
  map Ptr (fold_left (fun '(nodeTabs, availCount) m =>
      if contains excludeHosts (mn_Addr m) then (nodeTabs, availCount)
      else if negb (isWritable m
                (match nodeType with MetaNodeRocksdb => StoreModeRocksDb | _ => StoreModeMem end))
      then (nodeTabs, availCount)
      else
        let availCount :=
          if (1 <=? carry_at carry (mn_ID m))%float then availCount + 1 else availCount in
        let nt := {| Carry := carry_at carry (mn_ID m);
                     Weight := (float64_of_uint64 (uint64_sub (mn_Total m) (mn_Used m))
                                / float64_of_uint64 maxTotal)%float;
                     Ptr := MetaNodePtr m;
                     ID := 0 |} in
        (nodeTabs ++ [nt], availCount))
    nodes (acc, count)).1 =
  map Ptr acc ++
  List.filter (eligible nodeType excludeHosts) (map MetaNodePtr nodes).
Proof.
  intros Hty.
  revert acc count. induction nodes as [|m nodes IH]; intros acc count;
    cbn [fold_left map List.filter].
  - by rewrite app_nil_r.
  - rewrite eligible_meta by done.
    destruct (contains excludeHosts (mn_Addr m)); cbn [negb].
    { rewrite andb_false_r. apply IH. }
    destruct (isWritable m _); cbn [negb andb]; [|apply IH].
    rewrite IH, map_app. cbn [map Ptr]. by rewrite <- app_assoc.
Qed.

Lemma getCarryNodes_Ptr nodeType carry ns maxTotal excludeHosts :
  map Ptr (getCarryNodes nodeType carry ns maxTotal excludeHosts).1 =
  List.filter (eligible nodeType excludeHosts) (getNodes ns nodeType).
Proof.
  destruct nodeType; simpl.
  - apply (getCarryDataNodes_acc carry maxTotal excludeHosts (dataNodes ns) [] 0).
  - by apply (getCarryMetaNodes_acc MetaNodeMemory carry maxTotal excludeHosts
             (metaNodes ns) [] 0).
  - by apply (getCarryMetaNodes_acc MetaNodeRocksdb carry maxTotal excludeHosts
             (metaNodes ns) [] 0).
Qed.

Lemma carryStep_fold_Ptr nodes carryMap done count :
  map Ptr (fold_left carryStep nodes (carryMap, done, count)).1.2 =
  map Ptr done ++ map Ptr nodes.
Proof.
  revert carryMap done count.
  induction nodes as [|nt nodes IH]; intros carryMap done count; simpl.
  - by rewrite app_nil_r.
  - rewrite IH, map_app. simpl. by rewrite <- app_assoc.
Qed.

Lemma carryPass_Ptr carryMap nodes :
  map Ptr (carryPass carryMap nodes).1.2 = map Ptr nodes.
Proof. apply (carryStep_fold_Ptr nodes carryMap [] 0). Qed.

Lemma setNodeCarry_Ptr fuel carryMap nodes count replicaNum carryMap' nodes' :
  setNodeCarry fuel carryMap nodes count replicaNum = Ret (carryMap', nodes') ->
  map Ptr nodes' = map Ptr nodes.
Proof.
  revert carryMap nodes count.
  induction fuel as [|fuel IH]; intros carryMap nodes count; simpl.
  - destruct (count <? replicaNum); [done|]. by intros ?; simplify_eq.
  - destruct (count <? replicaNum); [|by intros ?; simplify_eq].
    pose proof (carryPass_Ptr carryMap nodes) as Hp.
    destruct (carryPass carryMap nodes) as [[m1 n1] c1]. simpl in Hp.
    intros Hrec. apply IH in Hrec. congruence.
Qed.

Lemma filter_sublist {A} (f : A -> bool) (l : list A) : List.filter f l `sublist_of` l.
Proof.
  induction l as [|x l IH]; simpl; [constructor|].
  destruct (f x); by constructor.
Qed.

Lemma map_take_sublist {A B} (f : A -> B) n (l : list A) :
  map f (take n l) `sublist_of` map f l.
Proof. apply (fmap_sublist f), sublist_take. Qed.

Lemma CarryWeight_Select_outcome `{GoLib} fuel draws s ns excludeHosts replicaNum
    ret s' hooked :
  CarryWeight_Select fuel draws s ns excludeHosts replicaNum = Ret (ret, s', hooked) ->
  selectOutcome (getNodes ns (cw_nodeType s)) (cw_nodeType s) excludeHosts replicaNum
    ret hooked /\
  (err ret <> None -> hooked = []).
Proof.
  unfold CarryWeight_Select.
  destruct (replicaNum =? 0) eqn:H0.
  { intros ?; simplify_eq. simpl. apply Z.eqb_eq in H0. repeat split; try done.
    - apply submseteq_nil_l.
    - left. by repeat split. }
  set (total := getTotalMax _ _). set (carry0 := prepareCarry _ _ _ _).
  pose proof (getCarryNodes_Ptr (cw_nodeType s) carry0 ns total excludeHosts) as Hcand.
  destruct (getCarryNodes _ _ _ _ _) as [weightedNodes count]. simpl in Hcand.
  destruct (Z.of_nat (length weightedNodes) <? replicaNum) eqn:Hlen.
  { intros ?; simplify_eq. simpl. repeat split; try done.
    - apply submseteq_nil_l.
    - right. repeat split; try done. by left. }
  apply Z.ltb_ge in Hlen.
  destruct (setNodeCarry _ _ _ _ _) as [[carry1 weighted1]| |] eqn:Hset;
    cbn [mbind run_bind]; [|done..].
  apply setNodeCarry_Ptr in Hset.
  set (sorted := sort_Slice _ weighted1).
  set (picked := map Ptr (take (Z.to_nat replicaNum) sorted)).
  assert (map Ptr sorted ≡ₚ map Ptr weighted1) as Hsp.
  { subst sorted. apply Permutation_map, sort_Slice_perm. }
  assert (picked ⊆+ getNodes ns (cw_nodeType s)) as Hsub.
  { subst picked. etrans; [apply sublist_submseteq, map_take_sublist|].
    rewrite Hsp, Hset, Hcand. apply sublist_submseteq, filter_sublist. }
  assert (Forall (fun n => canAllocPartition n (cw_nodeType s) = true /\
                           GetAddr n ∉ excludeHosts) picked) as Hok.
  { apply list.Forall_forall. intros x Hx.
    assert (x ∈ map Ptr weighted1) as Hx1.
    { rewrite <- Hsp. subst picked. eapply elem_of_sublist; [exact Hx|apply map_take_sublist]. }
    rewrite Hset, Hcand in Hx1. apply list_elem_of_In, filter_In in Hx1 as [_ Hx1].
    by apply eligible_true in Hx1. }
  assert (length picked = Z.to_nat replicaNum) as Hlp.
  { subst picked. rewrite length_map, length_take.
    assert (length sorted = length weightedNodes) as ->; [|lia].
    subst sorted. rewrite sort_Slice_perm.
    rewrite <- (length_map Ptr weighted1), Hset. by rewrite length_map. }
  destruct (reshuffleHosts _ _) as [hosts|] eqn:Hre; intros ?; simplify_eq; cbn.
  - split; [|done]. split; [done|]. split; [done|]. split; [done|].
    left. pose proof (reshuffleHosts_Some_length _ _ _ Hre) as Hpos.
    rewrite length_map in Hpos.
    apply reshuffleHosts_Some in Hre. repeat split; try done. lia.
  - apply reshuffleHosts_None, map_eq_nil in Hre.
    split; [|done]. split; [done|]. split; [done|]. split; [done|].
    right. repeat split; try done. by left.
Qed.

(** ** Straw: the draw and the swap-remove *)

Lemma strawStep_fold `{GoLib} nodeType rest pre rand i maxStraw index maxNode :
  (pre = [] /\ index = -1 /\ maxNode = None) \/
  (exists j node, index = Z.of_nat j /\ maxNode = Some node /\ pre !! j = Some node) ->
  i = Z.of_nat (length pre) ->
  let '(_, _, _, index', maxNode') :=
    fold_left (strawStep nodeType) rest (rand, i, maxStraw, index, maxNode) in
  (pre ++ rest = [] /\ index' = -1 /\ maxNode' = None) \/
  (exists j node, index' = Z.of_nat j /\ maxNode' = Some node /\
                  (pre ++ rest) !! j = Some node).
Proof.
  revert pre rand i maxStraw index maxNode.
  induction rest as [|x rest IH]; intros pre rand i maxStraw index maxNode Hinv Hi.
  - simpl. rewrite app_nil_r. destruct Hinv as [(-> & -> & ->)|Hinv]; [by left|by right].
  - cbn [fold_left]. unfold strawStep at 2.
    destruct (Intn rand StrawNodeSelectorRandMax) as [r rand'].
    replace (pre ++ x :: rest) with ((pre ++ [x]) ++ rest) by (by rewrite <- app_assoc).
    match goal with |- context [if ?c then _ else _] => destruct c eqn:Hc end.
    + apply IH.
      * right. exists (length pre), x. split; [lia|]. split; [done|].
        by apply list_lookup_middle.
      * rewrite length_app. simpl. lia.
    + apply IH.
      * right. destruct Hinv as [(-> & -> & ->)|(j & node & -> & -> & Hj)].
        { simpl in Hc. done. }
        exists j, node. repeat split; try done. by apply lookup_app_l_Some.
      * rewrite length_app. simpl. lia.
Qed.

Lemma selectOneNode_spec `{GoLib} nodeType rand nodes :
  nodes <> [] ->
  exists j node rand',
    selectOneNode nodeType rand nodes = (Z.of_nat j, Some node, rand') /\
    nodes !! j = Some node.
Proof.
  intros Hne. unfold selectOneNode.
  pose proof (strawStep_fold nodeType nodes [] rand 0 0%float (-1) None) as Hf.
  destruct (fold_left _ _ _) as [[[[rand' i'] ms'] index'] maxNode'].
  destruct Hf as [(Hnil & _)|(j & node & -> & -> & Hj)]; [by left|done|done|].
  by exists j, node, rand'.
Qed.

Lemma swapRemove_perm (index : nat) (nodes : list Node) (node : Node) :
  nodes !! index = Some node ->
  node :: swapRemove index nodes ≡ₚ nodes.
Proof.
  destruct nodes as [|first rest]; [done|].
  destruct index as [|k]; simpl.
  - by intros ?; simplify_eq.
  - intros Hk. rewrite insert_take_drop by (by eapply lookup_lt_Some).
    rewrite <- (take_drop_middle rest k node Hk) at 3.
    rewrite <- !Permutation_middle. apply Permutation_swap.
Qed.

Lemma straw_loop_inv `{GoLib} fuel nodeType replicaNum cand st st' :
  strawInv nodeType replicaNum cand st ->
  straw_loop fuel nodeType replicaNum st = Ret st' ->
  strawInv nodeType replicaNum cand st'.
Proof.
  revert st. induction fuel as [|fuel IH]; intros st Hinv; simpl.
  - destruct (_ <? replicaNum); [|by intros ?; simplify_eq].
    destruct (_ <? replicaNum); [by intros ?; simplify_eq|done].
  - destruct (Z.of_nat (length (sw_orderHosts st)) <? replicaNum) eqn:Hlt;
      [|by intros ?; simplify_eq].
    destruct (_ + _ <? replicaNum) eqn:Hbrk; [by intros ?; simplify_eq|].
    apply Z.ltb_lt in Hlt. apply Z.ltb_ge in Hbrk.
    assert (sw_nodes st <> []) as Hne.
    { intros Hnil. rewrite Hnil in Hbrk. simpl in Hbrk. lia. }
    destruct (selectOneNode_spec nodeType (sw_rand st) (sw_nodes st) Hne)
      as (j & node & rand' & -> & Hj).
    rewrite Nat2Z.id.
    pose proof (swapRemove_perm j (sw_nodes st) node Hj) as Hperm.
    destruct Hinv as (Hsub & Hoh & Hpe & Hwr & Hlen).
    destruct (canAllocPartition node nodeType) eqn:Hw; cbn [negb]; apply IH.
    + unfold strawInv. cbn [sw_hooked sw_nodes sw_orderHosts sw_peers].
      split; [|split; [|split; [|split]]].
      * rewrite <- app_assoc. cbn [app].
        etrans; [|exact Hsub]. apply submseteq_app; [done|].
        apply Permutation_submseteq, Hperm.
      * rewrite map_app. by rewrite Hoh.
      * rewrite map_app. by rewrite Hpe.
      * apply Forall_app. split; [done|]. by constructor.
      * right. rewrite length_app. simpl. rewrite Hoh, length_map in Hlt. lia.
    + unfold strawInv. cbn [sw_hooked sw_nodes sw_orderHosts sw_peers].
      split; [|done].
      etrans; [|exact Hsub]. apply submseteq_app; [done|].
      etrans; [apply (submseteq_cons node); reflexivity|].
      apply Permutation_submseteq, Hperm.
Qed.

Lemma Straw_Select_outcome `{GoLib} draws s ns excludeHosts replicaNum ret s' hooked :
  Straw_Select draws s ns excludeHosts replicaNum = Ret (ret, s', hooked) ->
  selectOutcome (getNodes ns (st_nodeType s)) (st_nodeType s) excludeHosts replicaNum
    ret hooked.
Proof.
  unfold Straw_Select.
  set (cand := List.filter _ (getNodes ns (st_nodeType s))).
  set (st0 := {| sw_rand := st_rand s; sw_nodes := cand; sw_orderHosts := [];
                 sw_peers := []; sw_hooked := [] |}).
  destruct (straw_loop _ _ _ _) as [st| |] eqn:Hloop; cbn [mbind run_bind]; [|done..].
  assert (strawInv (st_nodeType s) replicaNum cand st) as (Hsub & Hoh & Hpe & Hwr & Hlen).
  { eapply straw_loop_inv; [|exact Hloop].
    unfold strawInv, st0. cbn. repeat split; try done. by left. }
  assert (sw_hooked st ⊆+ getNodes ns (st_nodeType s)) as Hsub'.
  { etrans; [apply submseteq_inserts_r; reflexivity|].
    etrans; [exact Hsub|]. apply sublist_submseteq, filter_sublist. }
  assert (Forall (fun n => canAllocPartition n (st_nodeType s) = true /\
                           GetAddr n ∉ excludeHosts) (sw_hooked st)) as Hok.
  { apply list.Forall_forall. intros x Hx. split.
    - rewrite list.Forall_forall in Hwr. by apply Hwr.
    - assert (x ∈ cand) as Hc.
      { eapply elem_of_submseteq; [|exact Hsub]. apply elem_of_app. by left. }
      apply list_elem_of_In, filter_In in Hc as [_ Hc].
      apply negb_true_iff in Hc. by apply contains_false. }
  rewrite Hoh, length_map.
  destruct (_ <? replicaNum) eqn:Hshort.
  { intros ?; simplify_eq. cbn. apply Z.ltb_lt in Hshort.
    repeat split; try done. right. repeat split; try done. by right. }
  apply Z.ltb_ge in Hshort.
  destruct (reshuffleHosts _ _) as [hosts|] eqn:Hre; intros ?; simplify_eq; cbn.
  - split; [done|]. split; [done|]. split; [done|].
    left. pose proof (reshuffleHosts_Some_length _ _ _ Hre) as Hpos.
    rewrite length_map in Hpos.
    apply reshuffleHosts_Some in Hre. repeat split; try done.
    destruct Hlen as [Hnil|Hle]; [rewrite Hnil in Hpos; simpl in Hpos; lia|lia].
  - apply reshuffleHosts_None, map_eq_nil in Hre.
    split; [done|]. split; [done|]. split; [done|].
    right. repeat split; try done. by left.
Qed.

(** ** All four policies *)

Lemma Select_outcome `{GoLib} fuel draws sel ns excludeHosts replicaNum ret sel' hooked :
  cursorInRange sel ns ->
  Select fuel draws sel ns excludeHosts replicaNum = Ret (ret, sel', hooked) ->
  selectOutcome (getNodes ns (selectorType sel)) (selectorType sel) excludeHosts
    replicaNum ret hooked /\
  (isCarryWeight sel -> err ret <> None -> hooked = []).
Proof.
  intros Hcur. destruct sel as [s|s|s|s]; simpl.
  - destruct (RoundRobin_Select _ _ _ _ _) as [r| |] eqn:Hsel; cbn [mbind run_bind]; [|done..].
    intros ?; simplify_eq. split; [|done].
    destruct Hcur. by eapply RoundRobin_Select_outcome.
  - destruct (AvailableSpaceFirst_Select _ _ _ _ _) as [r| |] eqn:Hsel;
      cbn [mbind run_bind]; [|done..].
    intros ?; simplify_eq. split; [|done].
    by eapply AvailableSpaceFirst_Select_outcome.
  - destruct (CarryWeight_Select _ _ _ _ _ _) as [[[ret0 s0] h0]| |] eqn:Hsel;
      cbn [mbind run_bind]; [|done..].
    intros ?; simplify_eq.
    apply CarryWeight_Select_outcome in Hsel as [Hout Herr]. split; [done|]. by intros _.
  - destruct (Straw_Select _ _ _ _ _) as [[[ret0 s0] h0]| |] eqn:Hsel;
      cbn [mbind run_bind]; [|done..].
    intros ?; simplify_eq. split; [|done].
    by eapply Straw_Select_outcome.
Qed.

(** C2.  For every policy, a call of [Select] that returns without error
    returns exactly [replicaNum] hosts, pairwise distinct, none of them
    excluded (the addresses of the node-set being unique, and the
    RoundRobin cursor in range). *)
Theorem Select_hosts_distinct `{GoLib} fuel draws sel ns excludeHosts replicaNum
    ret sel' hooked :
  NoDup (map GetAddr (getNodes ns (selectorType sel))) ->
  cursorInRange sel ns ->
  Select fuel draws sel ns excludeHosts replicaNum = Ret (ret, sel', hooked) ->
  err ret = None ->
  Z.of_nat (length (newHosts ret)) = replicaNum /\
  NoDup (newHosts ret) /\
  (forall h, h ∈ newHosts ret -> h ∉ excludeHosts).
Proof.
  intros Hnd Hcur Hsel Herr.
  apply Select_outcome in Hsel as [(Hsub & Hok & _ & Hcase) _]; [|done].
  destruct Hcase as [(_ & Hperm & Hlen)|(Hne & _)]; [|done].
  split; [|split].
  - rewrite Hperm, length_map. done.
  - rewrite Hperm. by eapply map_submseteq_NoDup.
  - intros h Hh. rewrite Hperm in Hh.
    apply list_elem_of_In, in_map_iff in Hh as (n & <- & Hn).
    rewrite list.Forall_forall in Hok. by apply Hok, list_elem_of_In.
Qed.

Lemma Select_hosts_distinct_witness :
  Z.of_nat (length (newHosts (sr_ret scenarioS2))) = 3 /\
  NoDup (newHosts (sr_ret scenarioS2)) /\
  (forall h, h ∈ newHosts (sr_ret scenarioS2) -> h ∉ ["n1"]).
Proof.
  apply (Select_hosts_distinct 0 [2; 0; 1]%nat
           (AvailableSpaceFirst (NewAvailableSpaceFirstNodeSelector DataNodeDisk))
           fleetFive ["n1"] 3
           (sr_ret scenarioS2) (AvailableSpaceFirst (sr_sel scenarioS2))
           (sr_hooked scenarioS2)).
  - apply (bool_decide_unpack _). vm_compute. exact I.
  - exact I.
  - reflexivity.
  - reflexivity.
Defined.

(** C1 (as amended).  For every policy: the hook is never invoked twice on
    a node during a call, and the nodes it was invoked on are the peers the
    call reports; a call that succeeds has invoked it on exactly
    [replicaNum] nodes, those returned; a call that fails has invoked it on
    fewer than [replicaNum] nodes, and on none at all under CarryWeight. *)
Theorem Select_charges `{GoLib} fuel draws sel ns excludeHosts replicaNum
    ret sel' hooked :
  NoDup (map GetAddr (getNodes ns (selectorType sel))) ->
  cursorInRange sel ns ->
  Select fuel draws sel ns excludeHosts replicaNum = Ret (ret, sel', hooked) ->
  NoDup (map GetAddr hooked) /\
  peers ret = map mkPeer hooked /\
  (err ret = None ->
     Z.of_nat (length hooked) = replicaNum /\ newHosts ret ≡ₚ map GetAddr hooked) /\
  (err ret <> None ->
     (hooked = [] \/ Z.of_nat (length hooked) < replicaNum) /\
     (isCarryWeight sel -> hooked = [])).
Proof.
  intros Hnd Hcur Hsel.
  apply Select_outcome in Hsel as [(Hsub & Hok & Hpeers & Hcase) Hcw]; [|done].
  split; [by eapply map_submseteq_NoDup|]. split; [done|]. split.
  - intros Herr. destruct Hcase as [(_ & Hperm & Hlen)|(Hne & _)]; done.
  - intros Herr. destruct Hcase as [(Hnone & _)|(_ & _ & Hlen)]; [done|].
    split; [done|]. intros Hc. by apply Hcw.
Qed.

Lemma Select_charges_witness :
  NoDup (map GetAddr [DataNodePtr nodeA]) /\
  peers {| newHosts := []; peers := [mkPeer (DataNodePtr nodeA)];
           err := Some (ErrNoEnoughWritableHosts 2 1) |}
    = map mkPeer [DataNodePtr nodeA] /\
  (err {| newHosts := []; peers := [mkPeer (DataNodePtr nodeA)];
          err := Some (ErrNoEnoughWritableHosts 2 1) |} = None ->
     Z.of_nat (length [DataNodePtr nodeA]) = 2 /\
     newHosts {| newHosts := []; peers := [mkPeer (DataNodePtr nodeA)];
                 err := Some (ErrNoEnoughWritableHosts 2 1) |}
       ≡ₚ map GetAddr [DataNodePtr nodeA]) /\
  (err {| newHosts := []; peers := [mkPeer (DataNodePtr nodeA)];
          err := Some (ErrNoEnoughWritableHosts 2 1) |} <> None ->
     ([DataNodePtr nodeA] = [] \/ Z.of_nat (length [DataNodePtr nodeA]) < 2) /\
     (isCarryWeight (AvailableSpaceFirst {| asf_nodeType := DataNodeDisk |}) ->
      [DataNodePtr nodeA] = [])).
Proof.
  apply (Select_charges 0 [] (AvailableSpaceFirst {| asf_nodeType := DataNodeDisk |})
           fleetOneWritable [] 2
           {| newHosts := []; peers := [mkPeer (DataNodePtr nodeA)];
              err := Some (ErrNoEnoughWritableHosts 2 1) |}
           (AvailableSpaceFirst {| asf_nodeType := DataNodeDisk |})
           [DataNodePtr nodeA]).
  - apply (bool_decide_unpack _). vm_compute. exact I.
  - exact I.
  - reflexivity.
Defined.

(** C1 as stated fails: with one writable node out of two and two replicas
    asked for, RoundRobin, AvailableSpaceFirst and Straw all return the
    not-enough-writable-hosts error after the hook of [A] has been invoked.
    (Straw draws [A] first whatever the logarithm: the straw of the full
    node [B], of weight 0, is minus infinity.) *)
Lemma Select_charges_on_error :
  Select 0 [] (RoundRobin (NewRoundRobinNodeSelector DataNodeDisk))
    fleetOneWritable [] 2 =
  Ret ({| newHosts := []; peers := [mkPeer (DataNodePtr nodeA)];
          err := Some (ErrNoEnoughWritableHosts 2 1) |},
       RoundRobin (NewRoundRobinNodeSelector DataNodeDisk),
       [DataNodePtr nodeA]) /\
  Select 0 [] (AvailableSpaceFirst {| asf_nodeType := DataNodeDisk |})
    fleetOneWritable [] 2 =
  Ret ({| newHosts := []; peers := [mkPeer (DataNodePtr nodeA)];
          err := Some (ErrNoEnoughWritableHosts 2 1) |},
       AvailableSpaceFirst {| asf_nodeType := DataNodeDisk |},
       [DataNodePtr nodeA]) /\
  (exists sel',
    Select 0 [] (Straw {| st_rand := someRand; st_nodeType := DataNodeDisk |})
      fleetOneWritable [] 2 =
    Ret ({| newHosts := []; peers := [mkPeer (DataNodePtr nodeA)];
            err := Some (ErrNoEnoughWritableHosts 2 1) |},
         sel',
         [DataNodePtr nodeA])).
Proof.
  split; [reflexivity|]. split; [reflexivity|].
  eexists. vm_compute. reflexivity.
Qed.

(** ** Zero replicas *)

Lemma straw_loop_zero `{GoLib} fuel nodeType rand nodes :
  straw_loop fuel nodeType 0
    {| sw_rand := rand; sw_nodes := nodes; sw_orderHosts := [];
       sw_peers := []; sw_hooked := [] |} =
  Ret {| sw_rand := rand; sw_nodes := nodes; sw_orderHosts := [];
         sw_peers := []; sw_hooked := [] |}.
Proof. by destruct fuel. Qed.

(** C3.  With [replicaNum = 0], RoundRobin, AvailableSpaceFirst and
    CarryWeight return empty host and peer lists and no error, whatever the
    node-set and the excluded list; Straw has no such guard, hands the empty
    list to [reshuffleHosts] and returns its error. *)
Theorem Select_zero_replicas `{GoLib} fuel draws sel ns excludeHosts :
  match sel with
  | Straw s =>
      Select fuel draws sel ns excludeHosts 0 =
      Ret ({| newHosts := []; peers := []; err := Some ErrOrderHostsIsNil |}, sel, [])
  | _ =>
      exists sel',
      Select fuel draws sel ns excludeHosts 0 =
      Ret ({| newHosts := []; peers := []; err := None |}, sel', [])
  end.
Proof.
  destruct sel as [s|s|s|s]; simpl.
  - by eexists.
  - by eexists.
  - by eexists.
  - unfold Straw_Select. rewrite straw_loop_zero. by destruct s.
Qed.

(** ** The cursor of RoundRobin *)

Lemma scan_with_examined get len elig fuel ni si ex ni' si' ex' :
  scan_with get len elig fuel ni si ex = Ret (ni', si', ex') ->
  ni = length ex -> ni' = length ex'.
Proof.
  revert ni ex. induction fuel as [|fuel IH]; intros ni ex; simpl.
  - destruct (ni <? len)%nat; [done|]. by intros ?; simplify_eq.
  - destruct (ni <? len)%nat; [|by intros ?; simplify_eq].
    destruct (get ni) as [node| |]; simpl; [|done..].
    destruct (elig node).
    + intros ? ->; simplify_eq. rewrite length_app. simpl. lia.
    + intros Hrec ->. apply IH in Hrec; [done|]. rewrite length_app. simpl. lia.
Qed.

Lemma loop_with_examined get len elig fuel replicaNum i st st' :
  loop_with get len elig fuel replicaNum i st = Ret st' ->
  ss_nodeIndex st = length (ss_examined st) ->
  ss_nodeIndex st' = length (ss_examined st').
Proof.
  revert i st. induction fuel as [|fuel IH]; intros i st; simpl.
  - destruct (_ && _); [done|]. by intros ?; simplify_eq.
  - destruct (_ && _); [|by intros ?; simplify_eq].
    destruct (scan_with _ _ _ _ _ _ _) as [[[ni si] ex]| |] eqn:Hscan; simpl; [|done..].
    intros Hrec Hst. apply (scan_with_examined _ _ _ _ _ _ _ _ _ _ Hscan) in Hst.
    destruct (negb _).
    + destruct (get si) as [node| |]; simpl in Hrec; [|done..]. by apply IH in Hrec.
    + by apply IH in Hrec.
Qed.

(** C10.  A call of RoundRobin that returns the not-enough-writable-hosts
    error hands the selector back as it was: the cursor has not moved. *)
Theorem RoundRobin_error_keeps_cursor `{GoLib} draws s ns excludeHosts replicaNum r n m :
  RoundRobin_Select draws s ns excludeHosts replicaNum = Ret r ->
  err (sr_ret r) = Some (ErrNoEnoughWritableHosts n m) ->
  sr_sel r = s.
Proof.
  unfold RoundRobin_Select.
  destruct (replicaNum =? 0); [by intros ?; simplify_eq|].
  destruct (_ <? replicaNum); [by intros ?; simplify_eq|].
  destruct (rr_loop _ _ _ _ _ _ _ _) as [st| |]; cbn [mbind run_bind]; [|done..].
  destruct (_ <? replicaNum); [by intros ?; simplify_eq|].
  destruct (reshuffleHosts _ _); by intros ?; simplify_eq.
Qed.

(** The nodes were examined all the same: here both of them. *)
Lemma RoundRobin_error_keeps_cursor_witness :
  sr_sel {| sr_ret := {| newHosts := []; peers := [mkPeer (DataNodePtr nodeA)];
                         err := Some (ErrNoEnoughWritableHosts 2 1) |};
            sr_sel := NewRoundRobinNodeSelector DataNodeDisk;
            sr_hooked := [DataNodePtr nodeA];
            sr_examined := [DataNodePtr nodeA; DataNodePtr nodeB_full] |} =
  NewRoundRobinNodeSelector DataNodeDisk.
Proof.
  apply (RoundRobin_error_keeps_cursor [] (NewRoundRobinNodeSelector DataNodeDisk)
           fleetOneWritable [] 2
           {| sr_ret := {| newHosts := []; peers := [mkPeer (DataNodePtr nodeA)];
                           err := Some (ErrNoEnoughWritableHosts 2 1) |};
              sr_sel := NewRoundRobinNodeSelector DataNodeDisk;
              sr_hooked := [DataNodePtr nodeA];
              sr_examined := [DataNodePtr nodeA; DataNodePtr nodeB_full] |} 2 1).
  - reflexivity.
  - reflexivity.
Defined.

(** C6 (as amended).  A call of RoundRobin that returns without error leaves
    the cursor at its old value plus the number of nodes examined, in Go's
    [int] arithmetic; without overflow that is the plain sum. *)
Theorem RoundRobin_cursor_advance `{GoLib} draws s ns excludeHosts replicaNum r :
  int_min <= rr_index s <= int_max ->
  RoundRobin_Select draws s ns excludeHosts replicaNum = Ret r ->
  err (sr_ret r) = None ->
  rr_index (sr_sel r) = int_wrap (rr_index s + Z.of_nat (length (sr_examined r))) /\
  (rr_index s + Z.of_nat (length (sr_examined r)) <= int_max ->
   rr_index (sr_sel r) = rr_index s + Z.of_nat (length (sr_examined r))).
Proof.
  intros Hint Hsel Herr.
  assert (rr_index (sr_sel r) =
          int_wrap (rr_index s + Z.of_nat (length (sr_examined r)))) as Hw.
  { revert Hsel Herr. unfold RoundRobin_Select.
    destruct (replicaNum =? 0).
    { intros ?; simplify_eq. simpl. by rewrite Z.add_0_r, int_wrap_small. }
    destruct (_ <? replicaNum); [by intros ?; simplify_eq|].
    destruct (rr_loop _ _ _ _ _ _ _ _) as [st| |] eqn:Hloop;
      cbn [mbind run_bind]; [|done..].
    rewrite rr_loop_with in Hloop. apply loop_with_examined in Hloop; [|done].
    destruct (_ <? replicaNum); [by intros ?; simplify_eq|].
    destruct (reshuffleHosts _ _); intros ?; simplify_eq; [|done].
    simpl. by rewrite Hloop. }
  split; [done|]. intros Hmax. rewrite Hw. apply int_wrap_small.
  unfold int_min in *. lia.
Qed.

Lemma RoundRobin_cursor_advance_witness :
  rr_index {| rr_index := 1; rr_nodeType := DataNodeDisk |} = int_wrap (0 + 1) /\
  (0 + 1 <= int_max ->
   rr_index {| rr_index := 1; rr_nodeType := DataNodeDisk |} = 0 + 1).
Proof.
  apply (RoundRobin_cursor_advance [] (NewRoundRobinNodeSelector DataNodeDisk)
           fleetOneWritable [] 1
           {| sr_ret := {| newHosts := ["A"]; peers := [mkPeer (DataNodePtr nodeA)];
                           err := None |};
              sr_sel := {| rr_index := 1; rr_nodeType := DataNodeDisk |};
              sr_hooked := [DataNodePtr nodeA];
              sr_examined := [DataNodePtr nodeA] |}).
  - vm_compute. split; discriminate.
  - reflexivity.
  - reflexivity.
Defined.

(** C6 as stated fails on the error path: asked for two replicas on the fleet
    with one writable node, RoundRobin examines both nodes, returns the
    error, and the cursor is still 0. *)
Lemma RoundRobin_cursor_stays_on_error :
  exists r,
    RoundRobin_Select [] (NewRoundRobinNodeSelector DataNodeDisk)
      fleetOneWritable [] 2 = Ret r /\
    err (sr_ret r) = Some (ErrNoEnoughWritableHosts 2 1) /\
    sr_examined r = [DataNodePtr nodeA; DataNodePtr nodeB_full] /\
    rr_index (sr_sel r) = 0 /\
    rr_index (sr_sel r) <>
      rr_index (NewRoundRobinNodeSelector DataNodeDisk)
      + Z.of_nat (length (sr_examined r)).
Proof.
  eexists. split; [reflexivity|]. simpl. repeat split; discriminate.
Qed.

(** ** AvailableSpaceFirst picks from the top *)

Lemma availableSpace_order nodeType :
  strict_weak (fun a b : Node =>
    getNodeAvailableSpace nodeType b <? getNodeAvailableSpace nodeType a).
Proof.
  split.
  - intros a b Hab. apply Z.ltb_lt in Hab. apply Z.ltb_ge. lia.
  - intros a b c Hab Hbc. apply Z.ltb_ge in Hab, Hbc. apply Z.ltb_ge. lia.
Qed.

Lemma NoDup_map_inj {A B} (f : A -> B) (l : list A) x y :
  NoDup (map f l) -> x ∈ l -> y ∈ l -> f x = f y -> x = y.
Proof.
  induction l as [|z l IH]; simpl; intros Hnd Hx Hy Hf.
  - by apply elem_of_nil in Hx.
  - apply NoDup_cons in Hnd as [Hz Hnd].
    apply elem_of_cons in Hx as [->|Hx]; apply elem_of_cons in Hy as [->|Hy].
    + done.
    + exfalso. apply Hz. rewrite Hf. apply list_elem_of_In, in_map.
      by apply list_elem_of_In.
    + exfalso. apply Hz. rewrite <- Hf. apply list_elem_of_In, in_map.
      by apply list_elem_of_In.
    + by apply IH.
Qed.






(** ** RoundRobin: two calls in a row *)

Lemma nodeID_order : strict_weak (fun a b : Node => GetID a <? GetID b).
Proof.
  split.
  - intros a b Hab. apply Z.ltb_lt in Hab. apply Z.ltb_ge. lia.
  - intros a b c Hab Hbc. apply Z.ltb_ge in Hab, Hbc. apply Z.ltb_ge. lia.
Qed.

(** Sorting by id gives the same list whatever the iteration order, the ids
    being unique. *)
Lemma sort_by_id_unique `{GoLib} (nodes nodes' : list Node) :
  NoDup (map GetID nodes) ->
  nodes' ≡ₚ nodes ->
  sort_Slice (fun a b => GetID a <? GetID b) nodes' =
  sort_Slice (fun a b => GetID a <? GetID b) nodes.
Proof.
  intros Hnd Hperm.
  apply (StronglySorted_unique_strong (fun a b => (GetID b <? GetID a) = false)).
  - intros x1 x2 Hx1 Hx2 H12 H21.
    rewrite sort_Slice_perm in Hx1, Hx2. rewrite Hperm in Hx1.
    apply Z.ltb_ge in H12, H21.
    apply (NoDup_map_inj GetID nodes); [done..|lia].
  - apply sort_Slice_sorted, nodeID_order.
  - apply sort_Slice_sorted, nodeID_order.
  - by rewrite !sort_Slice_perm.
Qed.

(** A successful call, the cursor being in range, in terms of [pickScan]. *)
Lemma RoundRobin_Select_success `{GoLib} draws s ns excludeHosts replicaNum r :
  0 <= rr_index s ->
  rr_index s + Z.of_nat (length (getNodes ns (rr_nodeType s))) <= int_max ->
  RoundRobin_Select draws s ns excludeHosts replicaNum = Ret r ->
  err (sr_ret r) = None ->
  let pe := pickScan (eligible (rr_nodeType s) excludeHosts) (Z.to_nat replicaNum)
              (rotate (Z.to_nat (rr_index s))
                 (sort_Slice (fun a b => GetID a <? GetID b)
                    (getNodes ns (rr_nodeType s)))) in
  sr_hooked r = pe.1 /\ sr_examined r = pe.2 /\
  newHosts (sr_ret r) ≡ₚ map GetAddr pe.1 /\
  rr_index (sr_sel r) = rr_index s + Z.of_nat (length pe.2) /\
  rr_nodeType (sr_sel r) = rr_nodeType s.
Proof.
  intros Hi Hmax. unfold RoundRobin_Select.
  destruct (replicaNum =? 0) eqn:H0.
  { apply Z.eqb_eq in H0 as ->. intros ?; simplify_eq. simpl.
    rewrite pickScan_0. simpl. repeat split; try done. lia. }
  destruct (_ <? replicaNum); [by intros ?; simplify_eq|].
  set (sortedNodes := sort_Slice _ _).
  assert (length sortedNodes = length (getNodes ns (rr_nodeType s))) as Hlens
    by (subst sortedNodes; by rewrite sort_Slice_perm).
  rewrite rr_loop_spec by (rewrite ?Hlens; done).
  cbn [mbind run_bind].
  set (pe := pickScan _ _ _).
  unfold extendState. cbn [ss_orderHosts ss_peers ss_hooked ss_examined ss_nodeIndex scanState0].
  rewrite !app_nil_l.
  destruct (_ <? replicaNum); [by intros ?; simplify_eq|].
  destruct (reshuffleHosts _ _) as [hosts|] eqn:Hre; intros ?; simplify_eq; [|done].
  cbn. apply reshuffleHosts_Some in Hre. repeat split; try done.
  apply int_wrap_small.
  pose proof (pickScan_examined_length (eligible (rr_nodeType s) excludeHosts)
                (Z.to_nat replicaNum) (rotate (Z.to_nat (rr_index s)) sortedNodes)) as Hle.
  rewrite length_rotate, Hlens in Hle. fold pe in Hle.
  unfold int_min, int_max in *. lia.
Qed.

Lemma take_rotate_add {A} (l : list A) (i k1 k2 : nat) :
  (k1 + k2 <= length l)%nat ->
  take k2 (rotate (i + k1) l) = take k2 (drop k1 (rotate i l)).
Proof.
  intros Hle. apply list_eq. intros j.
  destruct (decide (j < k2)%nat) as [Hj|Hj].
  - rewrite !lookup_take_lt by done. rewrite lookup_drop.
    rewrite !lookup_rotate_r by lia. f_equal.
    unfold rotate_nat_add. f_equal. f_equal. lia.
  - by rewrite !lookup_take_ge by lia.
Qed.

(** When every node is eligible, a call examines exactly what it picks. *)
Lemma pickScan_all_examined elig n l :
  Forall (fun x => elig x = true) l ->
  (n <= length l)%nat ->
  length (pickScan elig n l).2 = n.
Proof.
  intros Hall Hn. rewrite pickScan_all_eligible by done.
  simpl. rewrite length_take. lia.
Qed.

(** The cursor never moves back, and stays in the range of [int], as long
    as one more round fits. *)
Lemma RoundRobin_cursor_monotone `{GoLib} draws s ns excludeHosts replicaNum r :
  0 <= rr_index s ->
  rr_index s + Z.of_nat (length (getNodes ns (rr_nodeType s))) <= int_max ->
  RoundRobin_Select draws s ns excludeHosts replicaNum = Ret r ->
  rr_index s <= rr_index (sr_sel r)
    <= rr_index s + Z.of_nat (length (getNodes ns (rr_nodeType s))).
Proof.
  intros Hi Hmax. unfold RoundRobin_Select.
  destruct (replicaNum =? 0); [intros ?; simplify_eq; simpl; lia|].
  destruct (_ <? replicaNum); [intros ?; simplify_eq; simpl; lia|].
  set (sortedNodes := sort_Slice _ _).
  assert (length sortedNodes = length (getNodes ns (rr_nodeType s))) as Hlens
    by (subst sortedNodes; by rewrite sort_Slice_perm).
  rewrite rr_loop_spec by (rewrite ?Hlens; done).
  cbn [mbind run_bind].
  pose proof (pickScan_examined_length (eligible (rr_nodeType s) excludeHosts)
                (Z.to_nat replicaNum) (rotate (Z.to_nat (rr_index s)) sortedNodes)) as Hle.
  rewrite length_rotate, Hlens in Hle.
  set (pe := pickScan _ _ _) in *.
  unfold extendState. cbn [ss_orderHosts ss_peers ss_hooked ss_examined ss_nodeIndex scanState0].
  rewrite !app_nil_l.
  assert (int_wrap (rr_index s + Z.of_nat (0 + length pe.2)) =
          rr_index s + Z.of_nat (length pe.2)) as Hw.
  { rewrite Nat.add_0_l. apply int_wrap_small. unfold int_min, int_max in *. lia. }
  destruct (_ <? replicaNum); [intros ?; simplify_eq; simpl; lia|].
  destruct (reshuffleHosts _ _); intros ?; simplify_eq; simpl in *; lia.
Qed.

(** C7 (as amended).  Two consecutive successful calls of RoundRobin on the
    same node-set (ids and addresses unique, whatever the iteration order
    of the second call), with nothing excluded, return disjoint host sets
    when [|S| >= 2N] and every node is writable, and more generally whenever
    the two calls together examine at most [|S|] nodes. *)
Theorem RoundRobin_consecutive_disjoint `{GoLib} draws1 draws2 s ns ns' replicaNum r1 r2 :
  NoDup (map GetAddr (getNodes ns (rr_nodeType s))) ->
  NoDup (map GetID (getNodes ns (rr_nodeType s))) ->
  getNodes ns' (rr_nodeType s) ≡ₚ getNodes ns (rr_nodeType s) ->
  0 <= rr_index s ->
  rr_index s + 2 * Z.of_nat (length (getNodes ns (rr_nodeType s))) <= int_max ->
  RoundRobin_Select draws1 s ns [] replicaNum = Ret r1 ->
  err (sr_ret r1) = None ->
  RoundRobin_Select draws2 (sr_sel r1) ns' [] replicaNum = Ret r2 ->
  err (sr_ret r2) = None ->
  (2 * replicaNum <= Z.of_nat (length (getNodes ns (rr_nodeType s))) /\
   Forall (fun n => canAllocPartition n (rr_nodeType s) = true)
     (getNodes ns (rr_nodeType s))) \/
  (length (sr_examined r1) + length (sr_examined r2)
   <= length (getNodes ns (rr_nodeType s)))%nat ->
  forall h, h ∈ newHosts (sr_ret r1) -> h ∉ newHosts (sr_ret r2).
Proof.
  intros Hnd Hid Hperm Hi Hmax Hsel1 Herr1 Hsel2 Herr2 Hcond h Hh1 Hh2.
  apply RoundRobin_Select_success in Hsel1 as (Hk1 & He1 & Hn1 & Hc1 & Ht1);
    [|done|lia|done].
  set (nodes := getNodes ns (rr_nodeType s)) in *.
  set (sorted := sort_Slice (fun a b => GetID a <? GetID b) nodes) in *.
  assert (length sorted = length nodes) as Hlens
    by (subst sorted; by rewrite sort_Slice_perm).
  set (R := rotate (Z.to_nat (rr_index s)) sorted) in *.
  assert (length R = length nodes) as HlenR by (subst R; by rewrite length_rotate).
  set (elig := eligible (rr_nodeType s) []) in *.
  set (pe1 := pickScan elig (Z.to_nat replicaNum) R) in *.
  assert (length pe1.2 <= length nodes)%nat as Hk1le.
  { rewrite <- HlenR. apply pickScan_examined_length. }
  apply RoundRobin_Select_success in Hsel2 as (Hk2 & He2 & Hn2 & _ & _);
    [|rewrite Hc1; lia|..|done].
  2:{ rewrite Ht1, Hc1, Hperm. fold nodes. lia. }
  rewrite Ht1, Hc1 in Hk2, He2, Hn2.
  rewrite (sort_by_id_unique nodes _ Hid Hperm) in Hk2, He2, Hn2.
  fold sorted elig in Hk2, He2, Hn2.
  replace (Z.to_nat (rr_index s + Z.of_nat (length pe1.2)))
    with (Z.to_nat (rr_index s) + length pe1.2)%nat in Hk2, He2, Hn2 by lia.
  set (R2 := rotate (Z.to_nat (rr_index s) + length pe1.2) sorted) in *.
  set (pe2 := pickScan elig (Z.to_nat replicaNum) R2) in *.
  assert (length pe1.2 + length pe2.2 <= length nodes)%nat as Hex.
  { destruct Hcond as [[H2n Hall]|Hex]; [|by rewrite He1, He2 in Hex].
    assert (forall l, l ≡ₚ nodes -> Forall (fun x => elig x = true) l) as Helig.
    { intros l Hl. rewrite Hl. eapply Forall_impl; [exact Hall|].
      intros x Hx. apply eligible_true. split; [done|]. apply not_elem_of_nil. }
    unfold pe1, pe2. rewrite !pickScan_all_eligible.
    - simpl. rewrite !length_take. lia.
    - apply Helig. subst R2 sorted. by rewrite rotate_perm, sort_Slice_perm.
    - apply Helig. subst R sorted. by rewrite rotate_perm, sort_Slice_perm. }
  (* where the addresses of the two calls come from *)
  assert (h ∈ map GetAddr (take (length pe1.2) R)) as Hin1.
  { rewrite Hn1 in Hh1. apply list_elem_of_In, in_map_iff in Hh1 as (p & <- & Hp).
    apply list_elem_of_In, in_map, list_elem_of_In.
    unfold pe1 at 1. rewrite <- pickScan_examined_prefix.
    eapply elem_of_sublist; [by apply list_elem_of_In|apply pickScan_picked_sublist]. }
  assert (h ∈ map GetAddr (drop (length pe1.2) R)) as Hin2.
  { rewrite Hn2 in Hh2. apply list_elem_of_In, in_map_iff in Hh2 as (p & <- & Hp).
    apply list_elem_of_In, in_map, list_elem_of_In.
    assert (p ∈ take (length pe2.2) R2) as Hp2.
    { unfold pe2 at 1. rewrite <- pickScan_examined_prefix.
      eapply elem_of_sublist; [by apply list_elem_of_In|apply pickScan_picked_sublist]. }
    unfold R2 in Hp2. rewrite take_rotate_add in Hp2 by lia.
    eapply elem_of_sublist; [exact Hp2|apply sublist_take]. }
  assert (NoDup (map GetAddr R)) as HndR.
  { assert (map GetAddr R ≡ₚ map GetAddr nodes) as ->; [|done].
    apply Permutation_map. subst R sorted. by rewrite rotate_perm, sort_Slice_perm. }
  rewrite <- (take_drop (length pe1.2) R), map_app in HndR.
  apply NoDup_app in HndR as (_ & Hdisj & _). by apply (Hdisj h).
Qed.

Lemma RoundRobin_consecutive_disjoint_witness :
  "n1" ∈ newHosts (sr_ret rrFirstCall) /\ "n1" ∉ newHosts (sr_ret rrSecondCall).
Proof.
  assert ("n1" ∈ newHosts (sr_ret rrFirstCall)) as Hin.
  { apply (bool_decide_unpack _). vm_compute. exact I. }
  split; [exact Hin|].
  apply (RoundRobin_consecutive_disjoint [1; 0]%nat [0; 1]%nat
           (NewRoundRobinNodeSelector DataNodeDisk) fleetFive fleetFive 2
           rrFirstCall rrSecondCall).
  - apply (bool_decide_unpack _). vm_compute. exact I.
  - apply (bool_decide_unpack _). vm_compute. exact I.
  - reflexivity.
  - vm_compute. discriminate.
  - vm_compute. discriminate.
  - reflexivity.
  - reflexivity.
  - reflexivity.
  - reflexivity.
  - left. split; [vm_compute; discriminate|]. repeat constructor.
  - exact Hin.
Defined.

(** C7 as stated fails: on four nodes of which the second and third are not
    writable, two replicas, nothing excluded, the first call examines all
    four nodes and returns [A] and [D]; the cursor is then 4, and the second
    call starts at the same place and returns [A] and [D] again. *)
Lemma RoundRobin_consecutive_overlap :
  exists r1 r2,
    (2 * 2 <= Z.of_nat (length (getNodes fleetGap DataNodeDisk))) /\
    RoundRobin_Select [] (NewRoundRobinNodeSelector DataNodeDisk) fleetGap [] 2 = Ret r1 /\
    err (sr_ret r1) = None /\
    RoundRobin_Select [] (sr_sel r1) fleetGap [] 2 = Ret r2 /\
    err (sr_ret r2) = None /\
    newHosts (sr_ret r1) = ["A"; "D"] /\
    newHosts (sr_ret r2) = ["A"; "D"].
Proof.
  eexists. eexists.
  split; [vm_compute; discriminate|].
  repeat (split; [reflexivity|]). reflexivity.
Qed.

(** ** Comparisons of [float64] *)

Lemma SFcompare_swap a b : SFcompare b a = option_map CompOpp (SFcompare a b).
Proof.
  destruct a as [sa|sa| |sa ma ea], b as [sb|sb| |sb mb eb]; simpl; try done;
    try (by destruct sa); try (by destruct sb); try (by destruct sa, sb).
  destruct sa, sb; simpl; try done.
  - rewrite (Z.compare_antisym ea eb). destruct (ea ?= eb) eqn:E; simpl; try done.
    rewrite (Pos.compare_cont_antisym ma mb Eq). simpl. 
    by destruct (Pos.compare_cont Eq ma mb).
  - rewrite (Z.compare_antisym ea eb). destruct (ea ?= eb) eqn:E; simpl; try done.
    by rewrite (Pos.compare_cont_antisym ma mb Eq).
Qed.

Lemma is_nan_false x : is_nan x = false -> Prim2SF x <> S754_nan.
Proof.
  unfold is_nan. rewrite FloatAxioms.eqb_spec. intros Hx Hn. rewrite Hn in Hx. done.
Qed.

Lemma SFcompare_None a b : SFcompare a b = None -> a = S754_nan \/ b = S754_nan.
Proof.
  destruct a as [sa|sa| |sa ma ea], b as [sb|sb| |sb mb eb]; simpl; try done; auto.
Qed.

Lemma float_not_lt_le (x y : float) :
  is_nan x = false -> is_nan y = false -> (x <? y)%float = false -> (y <=? x)%float = true.
Proof.
  intros Hx Hy. apply is_nan_false in Hx, Hy.
  rewrite FloatAxioms.ltb_spec, FloatAxioms.leb_spec. unfold SFltb, SFleb.
  rewrite (SFcompare_swap (Prim2SF x) (Prim2SF y)).
  destruct (SFcompare (Prim2SF x) (Prim2SF y)) as [[]|] eqn:Hc; simpl; try done.
  apply SFcompare_None in Hc as [?|?]; done.
Qed.

(** ** CarryWeight: the ceiling of the carry *)

Lemma carry_at_insert carryMap k v id :
  carry_at (<[k := v]> carryMap) id = if decide (k = id) then v else carry_at carryMap id.
Proof. unfold carry_at. rewrite lookup_insert. by destruct (decide (k = id)). Qed.

Lemma advanced_ceiling nt : (10 <? advanced nt)%float = false.
Proof.
  unfold advanced. destruct (10 <? Carry nt + Weight nt)%float eqn:E; [reflexivity|exact E].
Qed.

Lemma advanced_le nt :
  is_nan (advanced nt) = false -> (advanced nt <=? 10)%float = true.
Proof.
  intros Hn. apply float_not_lt_le; [reflexivity|done|apply advanced_ceiling].
Qed.

Lemma carryStep_fold nodes carryMap done count :
  fold_left carryStep nodes (carryMap, done, count) =
  (fold_left (fun m nt => <[GetID (Ptr nt) := advanced nt]> m) nodes carryMap,
   done ++ map (fun nt => {| Carry := advanced nt; Weight := Weight nt;
                             Ptr := Ptr nt; ID := ID nt |}) nodes,
   count + aboveOneCount (map (fun nt => {| Carry := advanced nt; Weight := Weight nt;
                                           Ptr := Ptr nt; ID := ID nt |}) nodes)).
Proof.
  revert carryMap done count.
  induction nodes as [|nt nodes IH]; intros carryMap done count.
  - simpl. unfold aboveOneCount. simpl. by rewrite app_nil_r, Z.add_0_r.
  - cbn [fold_left map]. unfold carryStep at 2. fold (advanced nt).
    rewrite IH. f_equal; [f_equal; by rewrite <- app_assoc|].
    unfold aboveOneCount. cbn [List.filter Carry].
    destruct (1 <? advanced nt)%float; cbn [length]; lia.
Qed.

Lemma carryPass_eq carryMap nodes :
  carryPass carryMap nodes =
  (fold_left (fun m nt => <[GetID (Ptr nt) := advanced nt]> m) nodes carryMap,
   map (fun nt => {| Carry := advanced nt; Weight := Weight nt;
                     Ptr := Ptr nt; ID := ID nt |}) nodes,
   aboveOneCount (map (fun nt => {| Carry := advanced nt; Weight := Weight nt;
                                    Ptr := Ptr nt; ID := ID nt |}) nodes)).
Proof. unfold carryPass. by rewrite carryStep_fold. Qed.

Lemma carry_writes_ceiling nodes carryMap id :
  (10 <? carry_at carryMap id)%float = false \/
  (exists nt, nt ∈ nodes /\ GetID (Ptr nt) = id) ->
  (10 <? carry_at (fold_left (fun m nt => <[GetID (Ptr nt) := advanced nt]> m)
                     nodes carryMap) id)%float = false.
Proof.
  revert carryMap. induction nodes as [|nt nodes IH]; intros carryMap Hid; simpl.
  - destruct Hid as [Hid|(nt & Hnt & _)]; [done|by apply elem_of_nil in Hnt].
  - apply IH. rewrite carry_at_insert. destruct (decide (GetID (Ptr nt) = id)) as [Heq|Hne].
    + left. apply advanced_ceiling.
    + destruct Hid as [Hid|(nt' & Hnt' & Hid)]; [by left|].
      apply elem_of_cons in Hnt' as [->|Hnt']; [done|]. right. by exists nt'.
Qed.

(** A pass writes the entries of its candidates and no other. *)
Lemma carry_fold_other nodes (carryMap : gmap Z float) id :
  id ∉ map (fun nt => GetID (Ptr nt)) nodes ->
  fold_left (fun m nt => <[GetID (Ptr nt) := advanced nt]> m) nodes carryMap !! id
  = carryMap !! id.
Proof.
  revert carryMap. induction nodes as [|x nodes IH]; intros carryMap Hid; simpl; [done|].
  simpl in Hid. apply not_elem_of_cons in Hid as [Hne Hid].
  rewrite IH by done. by rewrite lookup_insert_ne.
Qed.

Lemma carryPass_other carryMap nodes id :
  id ∉ map (fun nt => GetID (Ptr nt)) nodes ->
  (carryPass carryMap nodes).1.1 !! id = carryMap !! id.
Proof. intros Hid. rewrite carryPass_eq. cbn [fst snd]. by apply carry_fold_other. Qed.

(** An entry above [10.0] after a pass, or after the loop, is not one the
    loop has written. *)
Lemma carryPass_above carryMap nodes id :
  (10 <? carry_at (carryPass carryMap nodes).1.1 id)%float = true ->
  (id ∉ candidateIDs nodes) /\
  (carryPass carryMap nodes).1.1 !! id = carryMap !! id.
Proof.
  intros Habove.
  assert (id ∉ candidateIDs nodes) as Hid.
  { intros Hin. apply list_elem_of_fmap in Hin as (nt & -> & Hnt).
    rewrite carryPass_eq in Habove. cbn [fst snd] in Habove.
    rewrite carry_writes_ceiling in Habove; [done|]. right. by exists nt. }
  split; [done|]. by apply carryPass_other.
Qed.

Lemma setNodeCarry_above fuel carryMap nodes count replicaNum carryMap' nodes' id :
  setNodeCarry fuel carryMap nodes count replicaNum = Ret (carryMap', nodes') ->
  (10 <? carry_at carryMap' id)%float = true ->
  carryMap' !! id = carryMap !! id /\
  (count < replicaNum -> id ∉ candidateIDs nodes).
Proof.
  revert carryMap nodes count.
  induction fuel as [|fuel IH]; intros carryMap nodes count; simpl.
  - destruct (count <? replicaNum) eqn:Hc; [done|]. apply Z.ltb_ge in Hc.
    intros ? _; simplify_eq. split; [done|lia].
  - destruct (count <? replicaNum) eqn:Hc.
    2:{ apply Z.ltb_ge in Hc. intros ? _; simplify_eq. split; [done|lia]. }
    pose proof (carryPass_above carryMap nodes id) as Hpass.
    destruct (carryPass carryMap nodes) as [[m1 n1] c1]. cbn [fst snd] in Hpass.
    intros Hrec Habove. destruct (IH _ _ _ Hrec Habove) as [Heq _].
    unfold carry_at in Habove, Hpass. rewrite Heq in Habove.
    destruct (Hpass Habove) as [Hid Hsame]. split; [by rewrite Heq|done].
Qed.

(** C9 (as amended).  Every value a pass of the advancement loop writes
    does not exceed [10.0] (and is at most [10.0] unless it is NaN); after
    the pass the carry-map entry of every candidate does not exceed [10.0].
    The entries of the other nodes are left as they are: no pass raises one
    above [10.0], and an entry that is above [10.0] after a pass, or when
    the loop returns, belongs to a node that is no candidate of a loop that
    ran and is the entry the map had before. *)
Theorem carry_ceiling (carryMap : gmap Z float) (nodes : list weightedNode) :
  (forall nt, nt ∈ (carryPass carryMap nodes).1.2 ->
     (10 <? Carry nt)%float = false /\
     (is_nan (Carry nt) = false -> (Carry nt <=? 10)%float = true)) /\
  (forall nt, nt ∈ nodes ->
     (10 <? carry_at (carryPass carryMap nodes).1.1 (GetID (Ptr nt)))%float = false) /\
  (forall id, (10 <? carry_at carryMap id)%float = false ->
     (10 <? carry_at (carryPass carryMap nodes).1.1 id)%float = false) /\
  (forall id, id ∉ candidateIDs nodes ->
     (carryPass carryMap nodes).1.1 !! id = carryMap !! id) /\
  (forall id, (10 <? carry_at (carryPass carryMap nodes).1.1 id)%float = true ->
     (id ∉ candidateIDs nodes) /\
     (carryPass carryMap nodes).1.1 !! id = carryMap !! id) /\
  (forall fuel count replicaNum carryMap' nodes' id,
     setNodeCarry fuel carryMap nodes count replicaNum = Ret (carryMap', nodes') ->
     (10 <? carry_at carryMap' id)%float = true ->
     carryMap' !! id = carryMap !! id /\
     (count < replicaNum -> id ∉ candidateIDs nodes)).
Proof.
  split; [|split; [|split; [|split; [|split]]]].
  - rewrite carryPass_eq. cbn [fst snd].
    intros nt Hnt. apply list_elem_of_In, in_map_iff in Hnt as (nt0 & <- & _).
    cbn [Carry]. split; [apply advanced_ceiling|apply advanced_le].
  - rewrite carryPass_eq. cbn [fst snd].
    intros nt Hnt. apply carry_writes_ceiling. right. by exists nt.
  - rewrite carryPass_eq. cbn [fst snd].
    intros id Hid. apply carry_writes_ceiling. by left.
  - intros id Hid. by apply carryPass_other.
  - apply carryPass_above.
  - intros fuel count replicaNum carryMap' nodes' id. apply setNodeCarry_above.
Qed.

Lemma carry_ceiling_witness :
  (10 <? carry_at (carryPass highCarry [highEntry]).1.1 (mn_ID metaFree))%float = false /\
  (carryPass highCarry [highEntry]).1.1 !! mn_ID metaOff = highCarry !! mn_ID metaOff.
Proof.
  destruct (carry_ceiling highCarry [highEntry]) as (_ & Hcand & _ & Hother & _).
  split.
  - apply (Hcand highEntry). apply list_elem_of_singleton. reflexivity.
  - apply Hother. unfold candidateIDs. simpl. intros Hin.
    apply list_elem_of_singleton in Hin. discriminate.
Defined.

(** C9 as stated fails.  [prepareCarry] seeds an entry for every node of
    the set, with no ceiling, and the loop writes the entries of the
    candidates only.  The meta node [off] is not writable and has used 10
    more than its total: its seed is (total - used) in unsigned arithmetic
    over 100, about 1.8e17.  The only candidate is [free]; the pass of the
    loop leaves the entry of [off] where it was, and so does the call, which
    succeeds. *)
Lemma carry_above_ceiling :
  canAllocPartition (MetaNodePtr metaOff) MetaNodeMemory = false /\
  candidateIDs
    (getCarryNodes MetaNodeMemory
       (prepareCarry MetaNodeMemory ∅ fleetOff (getTotalMax MetaNodeMemory fleetOff))
       fleetOff (getTotalMax MetaNodeMemory fleetOff) []).1 = [1] /\
  (10 <? carry_at
           (carryPass
              (prepareCarry MetaNodeMemory ∅ fleetOff (getTotalMax MetaNodeMemory fleetOff))
              (getCarryNodes MetaNodeMemory
                 (prepareCarry MetaNodeMemory ∅ fleetOff
                    (getTotalMax MetaNodeMemory fleetOff))
                 fleetOff (getTotalMax MetaNodeMemory fleetOff) []).1).1.1 2)%float = true /\
  exists ret s' hooked,
    CarryWeight_Select 1 [0]%nat (NewCarryWeightNodeSelector MetaNodeMemory)
      fleetOff [] 1 = Ret (ret, s', hooked) /\
    err ret = None /\ newHosts ret = ["free"] /\
    (10 <? carry_at (cw_carry s') 2)%float = true.
Proof.
  split; [reflexivity|]. split; [vm_compute; reflexivity|].
  split; [vm_compute; reflexivity|].
  eexists _, _, _. split; [vm_compute; reflexivity|]. repeat split.
Qed.

Lemma setNodeCarry_ceiling fuel carryMap nodes count replicaNum carryMap' nodes' id :
  setNodeCarry fuel carryMap nodes count replicaNum = Ret (carryMap', nodes') ->
  (10 <? carry_at carryMap id)%float = false ->
  (10 <? carry_at carryMap' id)%float = false.
Proof.
  revert carryMap nodes count.
  induction fuel as [|fuel IH]; intros carryMap nodes count; simpl.
  - destruct (count <? replicaNum); [done|]. by intros ?; simplify_eq.
  - destruct (count <? replicaNum); [|by intros ?; simplify_eq].
    rewrite carryPass_eq. intros Hrec Hid. eapply IH; [exact Hrec|].
    apply carry_writes_ceiling. by left.
Qed.

(** ** CarryWeight: what the counts count *)

Lemma getCarryDataNodes_count carry maxTotal excludeHosts nodes acc count :
  count = carryNodeCount acc ->
  let r := fold_left (fun '(nodeTabs, availCount) d =>
      if contains excludeHosts (dn_Addr d) then (nodeTabs, availCount)
      else if negb (dn_canAllocDp d) then (nodeTabs, availCount)
      else if negb (dn_canAlloc d) then (nodeTabs, availCount)
      else
        let availCount :=
          if (1 <=? carry_at carry (dn_ID d))%float then availCount + 1 else availCount in
        let nt := {| Carry := carry_at carry (dn_ID d);
                     Weight := (float64_of_uint64 (dn_AvailableSpace d)
                                / float64_of_uint64 maxTotal)%float;
                     Ptr := DataNodePtr d;
                     ID := 0 |} in
        (nodeTabs ++ [nt], availCount))
    nodes (acc, count) in
  r.2 = carryNodeCount r.1.
Proof.
  revert acc count. induction nodes as [|d nodes IH]; intros acc count Hc;
    cbn [fold_left]; [done|].
  destruct (contains excludeHosts (dn_Addr d)); [by apply IH|].
  destruct (dn_canAllocDp d); cbn [negb]; [|by apply IH].
  destruct (dn_canAlloc d); cbn [negb]; [|by apply IH].
  apply IH. unfold carryNodeCount in *. rewrite List.filter_app, length_app.
  cbn [List.filter Carry].
  destruct (1 <=? carry_at carry (dn_ID d))%float; cbn [length]; lia.
Qed.

Lemma getCarryMetaNodes_count nodeType carry maxTotal excludeHosts nodes acc count :
  count = carryNodeCount acc ->
  let r := fold_left (fun '(nodeTabs, availCount) m =>
      if contains excludeHosts (mn_Addr m) then (nodeTabs, availCount)
      else if negb (isWritable m
                (match nodeType with MetaNodeRocksdb => StoreModeRocksDb | _ => StoreModeMem end))
      then (nodeTabs, availCount)
      else
        let availCount :=
          if (1 <=? carry_at carry (mn_ID m))%float then availCount + 1 else availCount in
        let nt := {| Carry := carry_at carry (mn_ID m);
                     Weight := (float64_of_uint64 (uint64_sub (mn_Total m) (mn_Used m))
                                / float64_of_uint64 maxTotal)%float;
                     Ptr := MetaNodePtr m;
                     ID := 0 |} in
        (nodeTabs ++ [nt], availCount))
    nodes (acc, count) in
  r.2 = carryNodeCount r.1.
Proof.
  revert acc count. induction nodes as [|m nodes IH]; intros acc count Hc;
    cbn [fold_left]; [done|].
  destruct (contains excludeHosts (mn_Addr m)); [by apply IH|].
  destruct (isWritable m _); cbn [negb]; [|by apply IH].
  apply IH. unfold carryNodeCount in *. rewrite List.filter_app, length_app.
  cbn [List.filter Carry].
  destruct (1 <=? carry_at carry (mn_ID m))%float; cbn [length]; lia.
Qed.

(** The first count, taken while the candidates are listed, is the number
    of entries with carry [>= 1.0]. *)
Lemma getCarryNodes_count nodeType carry ns maxTotal excludeHosts :
  (getCarryNodes nodeType carry ns maxTotal excludeHosts).2 =
  carryNodeCount (getCarryNodes nodeType carry ns maxTotal excludeHosts).1.
Proof.
  destruct nodeType; simpl.
  - by apply (getCarryDataNodes_count carry maxTotal excludeHosts (dataNodes ns) [] 0).
  - by apply (getCarryMetaNodes_count MetaNodeMemory carry maxTotal excludeHosts
                (metaNodes ns) [] 0).
  - by apply (getCarryMetaNodes_count MetaNodeRocksdb carry maxTotal excludeHosts
                (metaNodes ns) [] 0).
Qed.

(** Each recount of the advancement loop is the number of entries with
    carry [> 1.0]. *)
Lemma carryPass_count carryMap nodes :
  (carryPass carryMap nodes).2 = aboveOneCount (carryPass carryMap nodes).1.2.
Proof. by rewrite carryPass_eq. Qed.

(** C5, at the input where the code departs from it.  One pass over the
    entry with carry and weight one half brings its carry to exactly [1.0];
    the recount is 0 although one entry has carry [>= 1.0].  Seen from
    [Select]: on [fleetHalf] with one replica the loop therefore runs a
    second pass, and the carries left behind are 0.5 and 0.75 rather than
    0 and 0.5. *)
Theorem recount_misses_carry_one :
  (carryPass ∅ [halfEntry]).2 = 0 /\
  carryNodeCount (carryPass ∅ [halfEntry]).1.2 = 1 /\
  map Carry (carryPass ∅ [halfEntry]).1.2 = [1%float] /\
  exists ret s',
    CarryWeight_Select 2 [] (NewCarryWeightNodeSelector DataNodeDisk) fleetHalf [] 1 =
      Ret (ret, s', [DataNodePtr (mkDataNode 1 "A" 50 100 true)]) /\
    carry_at (cw_carry s') 1 = 0.5%float /\
    carry_at (cw_carry s') 2 = 0.75%float.
Proof.
  split; [reflexivity|]. split; [reflexivity|]. split; [reflexivity|].
  eexists. eexists. split; [vm_compute; reflexivity|].
  split; vm_compute; reflexivity.
Qed.

(** ** Termination *)




Lemma asf_node_fuel sortedNodes k : asf_node sortedNodes k <> NoFuel.
Proof. unfold asf_node. by destruct (_ !! _). Qed.



Lemma swapRemove_length index nodes :
  length (swapRemove index nodes) = pred (length nodes).
Proof.
  destruct nodes as [|first rest]; [done|]. destruct index; simpl; [done|].
  by rewrite length_insert.
Qed.

Lemma straw_loop_fuel `{GoLib} fuel nodeType replicaNum st :
  (length (sw_nodes st) <= fuel)%nat ->
  straw_loop fuel nodeType replicaNum st <> NoFuel.
Proof.
  revert st. induction fuel as [|fuel IH]; intros st Hfuel; simpl.
  - destruct (_ <? replicaNum) eqn:Hlt; [|done].
    apply Z.ltb_lt in Hlt.
    destruct (_ + _ <? replicaNum) eqn:Hbrk; [done|].
    apply Z.ltb_ge in Hbrk. destruct (sw_nodes st); simpl in *; lia.
  - destruct (_ <? replicaNum); [|done].
    destruct (_ + _ <? replicaNum); [done|].
    destruct (selectOneNode _ _ _) as [[index maxNode] rand].
    destruct maxNode as [node|]; [|done].
    destruct (negb _); apply IH; simpl; rewrite swapRemove_length; lia.
Qed.










(** * Further properties of the code *)

(** ** The largest capacity: [getTotalMax] *)

Lemma maxOver_acc {A} (f : A -> Z) (nodes : list A) (acc : Z) :
  let total := fold_left (fun total x => if total <? f x then f x else total) nodes acc in
  acc <= total /\
  (forall x, x ∈ nodes -> f x <= total) /\
  (total = acc \/ exists x, x ∈ nodes /\ f x = total).
Proof.
  revert acc. induction nodes as [|y nodes IH]; intros acc; simpl.
  { split; [lia|]. split; [|by left]. intros x Hx. by apply elem_of_nil in Hx. }
  destruct (IH (if acc <? f y then f y else acc)) as (Hle & Hall & Hat).
  destruct (acc <? f y) eqn:Hc; [apply Z.ltb_lt in Hc|apply Z.ltb_ge in Hc].
  - split; [lia|]. split.
    + intros x Hx. apply elem_of_cons in Hx as [->|Hx]; [lia|by apply Hall].
    + right. destruct Hat as [->|(x & Hx & Hfx)].
      * exists y. split; [left|done].
      * exists x. split; [by right|done].
  - split; [lia|]. split.
    + intros x Hx. apply elem_of_cons in Hx as [->|Hx]; [lia|by apply Hall].
    + destruct Hat as [->|(x & Hx & Hfx)]; [by left|].
      right. exists x. split; [by right|done].
Qed.

Lemma maxOver_map {A B} (g : A -> B) (f : B -> Z) (h : A -> Z) (nodes : list A) :
  (forall x, f (g x) = h x) ->
  maxOver h nodes = maxOver f (map g nodes).
Proof.
  intros Hfg. unfold maxOver. generalize 0.
  induction nodes as [|x nodes IH]; intros acc; simpl; [done|].
  by rewrite IH, Hfg.
Qed.

Lemma getTotalMax_maxOver nodeType ns :
  getTotalMax nodeType ns = maxOver (nodeTotal nodeType) (getNodes ns nodeType).
Proof. destruct nodeType; simpl; by apply maxOver_map. Qed.

(** X1.  [getTotalMax] returns the largest capacity among the nodes of the
    selector's resource type: it is at least every node's capacity, and it
    is either 0 (the value for an empty set) or the capacity of one of the
    nodes. *)
Theorem getTotalMax_is_max (nodeType : NodeResourceType) (ns : nodeSet) :
  0 <= getTotalMax nodeType ns /\
  Forall (fun n => nodeTotal nodeType n <= getTotalMax nodeType ns)
    (getNodes ns nodeType) /\
  (getTotalMax nodeType ns = 0 \/
   exists n, n ∈ getNodes ns nodeType /\ nodeTotal nodeType n = getTotalMax nodeType ns).
Proof.
  rewrite getTotalMax_maxOver.
  destruct (maxOver_acc (nodeTotal nodeType) (getNodes ns nodeType) 0) as (H0 & Hall & Hat).
  split; [done|]. split; [|done]. by apply list.Forall_forall.
Qed.

(** ** Seeding the carry map: [prepareCarry] *)

Section PrepareCarry.
Context {A : Type} (id free : A -> Z).

Lemma prepareCarryEntry_Some carry k v i f total :
  carry !! k = Some v -> prepareCarryEntry carry i f total !! k = Some v.
Proof.
  intros Hk. unfold prepareCarryEntry. destruct (carry !! i) eqn:Hi; [done|].
  rewrite lookup_insert_ne; [done|]. intros ->. congruence.
Qed.

Lemma prepare_fold_Some nodes carry total k v :
  carry !! k = Some v ->
  fold_left (fun c x => prepareCarryEntry c (id x) (free x) total) nodes carry !! k = Some v.
Proof.
  revert carry. induction nodes as [|x nodes IH]; intros carry Hk; simpl; [done|].
  apply IH. by apply prepareCarryEntry_Some.
Qed.

Lemma prepare_fold_other nodes carry total k :
  k ∉ map id nodes ->
  fold_left (fun c x => prepareCarryEntry c (id x) (free x) total) nodes carry !! k
  = carry !! k.
Proof.
  revert carry. induction nodes as [|x nodes IH]; intros carry Hk; simpl; [done|].
  simpl in Hk. apply not_elem_of_cons in Hk as [Hne Hk].
  rewrite IH by done. unfold prepareCarryEntry.
  destruct (carry !! id x); [done|]. by rewrite lookup_insert_ne.
Qed.

Lemma prepare_fold_first pre x rest carry total :
  id x ∉ map id pre ->
  carry !! id x = None ->
  fold_left (fun c y => prepareCarryEntry c (id y) (free y) total) (pre ++ x :: rest) carry
    !! id x
  = Some (float64_of_uint64 (free x) / float64_of_uint64 total)%float.
Proof.
  intros Hpre Hnone. rewrite fold_left_app. simpl.
  apply prepare_fold_Some.
  pose proof (prepare_fold_other pre carry total (id x) Hpre) as Hsame.
  rewrite Hnone in Hsame. unfold prepareCarryEntry at 1. rewrite Hsame.
  by rewrite lookup_insert_eq.
Qed.

Lemma prepare_fold_covered nodes carry total :
  Forall (fun x => is_Some (carry !! id x)) nodes ->
  fold_left (fun c x => prepareCarryEntry c (id x) (free x) total) nodes carry = carry.
Proof.
  induction 1 as [|x nodes [v Hx] _ IH]; simpl; [done|].
  unfold prepareCarryEntry at 2. by rewrite Hx.
Qed.

Lemma prepare_fold_dom nodes carry total :
  Forall (fun x => is_Some
            (fold_left (fun c y => prepareCarryEntry c (id y) (free y) total) nodes carry
               !! id x)) nodes.
Proof.
  revert carry. induction nodes as [|x nodes IH]; intros carry; simpl; [constructor|].
  constructor; [|apply IH].
  assert (is_Some (prepareCarryEntry carry (id x) (free x) total !! id x)) as [v Hv].
  { unfold prepareCarryEntry. destruct (carry !! id x) eqn:Hx; [by rewrite Hx|].
    by rewrite lookup_insert_eq. }
  exists v. by apply prepare_fold_Some.
Qed.
End PrepareCarry.

Lemma fold_left_fmap {A B C} (g : A -> B) (f : C -> B -> C) (l : list A) (c : C) :
  fold_left f (map g l) c = fold_left (fun c x => f c (g x)) l c.
Proof. revert c. induction l as [|x l IH]; intros c; simpl; [done|apply IH]. Qed.

Lemma prepareCarry_fold nodeType carry ns total :
  prepareCarry nodeType carry ns total =
  fold_left (fun c n => prepareCarryEntry c (GetID n)
                          (getNodeAvailableSpace nodeType n) total)
    (getNodes ns nodeType) carry.
Proof. destruct nodeType; simpl; by rewrite fold_left_fmap. Qed.

(** X2.  [prepareCarry] never overwrites a carry that is already in the map,
    and it adds nothing for an id that no node of the set has. *)
Theorem prepareCarry_keeps (nodeType : NodeResourceType) (carry : gmap Z float)
    (ns : nodeSet) (total id : Z) :
  is_Some (carry !! id) \/ id ∉ map GetID (getNodes ns nodeType) ->
  prepareCarry nodeType carry ns total !! id = carry !! id.
Proof.
  rewrite prepareCarry_fold. intros [[v Hv]|Hout].
  - rewrite Hv. by apply prepare_fold_Some.
  - by apply prepare_fold_other.
Qed.

Lemma prepareCarry_keeps_witness :
  prepareCarry DataNodeDisk {[ 1 := 0.25%float ]} fleetHalf 100 !! 1
  = ({[ 1 := 0.25%float ]} : gmap Z float) !! 1.
Proof.
  apply (prepareCarry_keeps DataNodeDisk {[ 1 := 0.25%float ]} fleetHalf 100 1).
  left. by eexists.
Defined.

(** X3.  A node whose id is not yet in the map, and which is the first of
    the set with that id, is seeded with its free space divided by the
    capacity [total] that was passed in. *)
Theorem prepareCarry_seeds (nodeType : NodeResourceType) (carry : gmap Z float)
    (ns : nodeSet) (total : Z) (pre rest : list Node) (n : Node) :
  getNodes ns nodeType = pre ++ n :: rest ->
  GetID n ∉ map GetID pre ->
  carry !! GetID n = None ->
  prepareCarry nodeType carry ns total !! GetID n =
  Some (float64_of_uint64 (getNodeAvailableSpace nodeType n)
        / float64_of_uint64 total)%float.
Proof.
  intros Hnodes Hpre Hnone. rewrite prepareCarry_fold, Hnodes.
  by apply (prepare_fold_first GetID (getNodeAvailableSpace nodeType)).
Qed.

Lemma prepareCarry_seeds_witness :
  prepareCarry DataNodeDisk ∅ fleetHalf 100 !! 2 = Some 0.25%float.
Proof.
  apply (prepareCarry_seeds DataNodeDisk ∅ fleetHalf 100
           [DataNodePtr (mkDataNode 1 "A" 50 100 true)] []
           (DataNodePtr (mkDataNode 2 "B" 25 100 true))).
  - reflexivity.
  - apply (bool_decide_unpack _). vm_compute. exact I.
  - reflexivity.
Defined.

(** X4.  After [prepareCarry] every node of the set has an entry in the
    map, and a second [prepareCarry], with whatever capacity, changes
    nothing: a carry is seeded once, with the capacity seen at that time. *)
Theorem prepareCarry_idempotent (nodeType : NodeResourceType) (carry : gmap Z float)
    (ns : nodeSet) (total total' : Z) :
  Forall (fun n => is_Some (prepareCarry nodeType carry ns total !! GetID n))
    (getNodes ns nodeType) /\
  prepareCarry nodeType (prepareCarry nodeType carry ns total) ns total'
  = prepareCarry nodeType carry ns total.
Proof.
  assert (Forall (fun n => is_Some (prepareCarry nodeType carry ns total !! GetID n))
            (getNodes ns nodeType)) as Hdom.
  { rewrite prepareCarry_fold. apply prepare_fold_dom. }
  split; [done|].
  rewrite (prepareCarry_fold nodeType (prepareCarry nodeType carry ns total)).
  by apply prepare_fold_covered.
Qed.

(** ** The candidates of CarryWeight: [getCarryNodes] *)

Lemma getCarryDataNodes_Forall (P : weightedNode -> Prop) carry maxTotal excludeHosts
    nodes acc count :
  Forall P acc ->
  Forall (fun d => P {| Carry := carry_at carry (dn_ID d);
                        Weight := (float64_of_uint64 (dn_AvailableSpace d)
                                   / float64_of_uint64 maxTotal)%float;
                        Ptr := DataNodePtr d;
                        ID := 0 |}) nodes ->
  Forall P (fold_left (fun '(nodeTabs, availCount) d =>
      if contains excludeHosts (dn_Addr d) then (nodeTabs, availCount)
      else if negb (dn_canAllocDp d) then (nodeTabs, availCount)
      else if negb (dn_canAlloc d) then (nodeTabs, availCount)
      else
        let availCount :=
          if (1 <=? carry_at carry (dn_ID d))%float then availCount + 1 else availCount in
        let nt := {| Carry := carry_at carry (dn_ID d);
                     Weight := (float64_of_uint64 (dn_AvailableSpace d)
                                / float64_of_uint64 maxTotal)%float;
                     Ptr := DataNodePtr d;
                     ID := 0 |} in
        (nodeTabs ++ [nt], availCount))
    nodes (acc, count)).1.
Proof.
  intros Hacc Hall. revert acc count Hacc.
  induction Hall as [|d nodes Hd _ IH]; intros acc count Hacc; cbn [fold_left]; [done|].
  destruct (contains excludeHosts (dn_Addr d)); [by apply IH|].
  destruct (dn_canAllocDp d); cbn [negb]; [|by apply IH].
  destruct (dn_canAlloc d); cbn [negb]; [|by apply IH].
  apply IH. apply Forall_app. split; [done|]. by constructor.
Qed.

Lemma getCarryMetaNodes_fold_Forall (P : weightedNode -> Prop) storeMode carry maxTotal
    excludeHosts nodes acc count :
  Forall P acc ->
  Forall (fun m => P {| Carry := carry_at carry (mn_ID m);
                        Weight := (float64_of_uint64 (uint64_sub (mn_Total m) (mn_Used m))
                                   / float64_of_uint64 maxTotal)%float;
                        Ptr := MetaNodePtr m;
                        ID := 0 |}) nodes ->
  Forall P (fold_left (fun '(nodeTabs, availCount) m =>
      if contains excludeHosts (mn_Addr m) then (nodeTabs, availCount)
      else if negb (isWritable m storeMode) then (nodeTabs, availCount)
      else
        let availCount :=
          if (1 <=? carry_at carry (mn_ID m))%float then availCount + 1 else availCount in
        let nt := {| Carry := carry_at carry (mn_ID m);
                     Weight := (float64_of_uint64 (uint64_sub (mn_Total m) (mn_Used m))
                                / float64_of_uint64 maxTotal)%float;
                     Ptr := MetaNodePtr m;
                     ID := 0 |} in
        (nodeTabs ++ [nt], availCount))
    nodes (acc, count)).1.
Proof.
  intros Hacc Hall. revert acc count Hacc.
  induction Hall as [|m nodes Hm _ IH]; intros acc count Hacc; cbn [fold_left]; [done|].
  destruct (contains excludeHosts (mn_Addr m)); [by apply IH|].
  destruct (isWritable m storeMode); cbn [negb]; [|by apply IH].
  apply IH. apply Forall_app. split; [done|]. by constructor.
Qed.

Lemma getCarryMetaNodes_Forall (P : weightedNode -> Prop) nodeType carry maxTotal
    excludeHosts nodes :
  Forall (fun m => P {| Carry := carry_at carry (mn_ID m);
                        Weight := (float64_of_uint64 (uint64_sub (mn_Total m) (mn_Used m))
                                   / float64_of_uint64 maxTotal)%float;
                        Ptr := MetaNodePtr m;
                        ID := 0 |}) nodes ->
  Forall P (getCarryMetaNodes nodeType carry maxTotal excludeHosts nodes).1.
Proof.
  intros Hall. unfold getCarryMetaNodes.
  by apply getCarryMetaNodes_fold_Forall; [constructor|].
Qed.

Lemma getCarryNodes_Forall (P : weightedNode -> Prop) nodeType carry ns maxTotal
    excludeHosts :
  (forall n w, n ∈ getNodes ns nodeType ->
     P {| Carry := carry_at carry (GetID n); Weight := w; Ptr := n; ID := 0 |}) ->
  Forall P (getCarryNodes nodeType carry ns maxTotal excludeHosts).1.
Proof.
  intros HP. destruct nodeType; simpl in *.
  - apply getCarryDataNodes_Forall; [constructor|].
    apply list.Forall_forall. intros d Hd.
    apply (HP (DataNodePtr d)). by apply list_elem_of_fmap_2.
  - apply getCarryMetaNodes_Forall, list.Forall_forall. intros m Hm.
    apply (HP (MetaNodePtr m)). by apply list_elem_of_fmap_2.
  - apply getCarryMetaNodes_Forall, list.Forall_forall. intros m Hm.
    apply (HP (MetaNodePtr m)). by apply list_elem_of_fmap_2.
Qed.

Lemma carryNodeCount_bounds nodes : 0 <= carryNodeCount nodes <= Z.of_nat (length nodes).
Proof.
  unfold carryNodeCount. split; [lia|].
  apply inj_le. induction nodes as [|nt nodes IH]; simpl; [lia|].
  destruct (1 <=? Carry nt)%float; simpl; lia.
Qed.

(** X5.  [getCarryNodes] returns, in the order [Range] visits them, one
    entry for each node that can take a partition and is not excluded; the
    carry of an entry is the one the map holds for its node; and the count
    returned with them is the number of entries whose carry is at least 1.0,
    hence between 0 and the number of entries. *)
Theorem getCarryNodes_candidates (nodeType : NodeResourceType) (carry : gmap Z float)
    (ns : nodeSet) (maxTotal : Z) (excludeHosts : list string) :
  map Ptr (getCarryNodes nodeType carry ns maxTotal excludeHosts).1 =
    List.filter (eligible nodeType excludeHosts) (getNodes ns nodeType) /\
  carrySynced carry (getCarryNodes nodeType carry ns maxTotal excludeHosts).1 /\
  (getCarryNodes nodeType carry ns maxTotal excludeHosts).2 =
    carryNodeCount (getCarryNodes nodeType carry ns maxTotal excludeHosts).1 /\
  0 <= (getCarryNodes nodeType carry ns maxTotal excludeHosts).2
    <= Z.of_nat (length (getCarryNodes nodeType carry ns maxTotal excludeHosts).1).
Proof.
  split; [apply getCarryNodes_Ptr|]. split.
  { apply getCarryNodes_Forall. by intros n w _. }
  split; [apply getCarryNodes_count|].
  rewrite getCarryNodes_count. apply carryNodeCount_bounds.
Qed.

(** X6.  The weight [getCarryMetaNodes] gives a meta node is its free
    memory, [Total - Used], divided by [maxTotal], whatever the resource
    type of the selector: under [MetaNodeRocksdb] too, where [maxTotal] is
    the largest RocksDB capacity and the carry was seeded from the free
    RocksDB space. *)
Theorem getCarryMetaNodes_weight (nodeType : NodeResourceType) (carry : gmap Z float)
    (maxTotal : Z) (excludeHosts : list string) (nodes : list MetaNode) :
  Forall (fun nt => exists m, m ∈ nodes /\ Ptr nt = MetaNodePtr m /\
            Weight nt = (float64_of_uint64 (uint64_sub (mn_Total m) (mn_Used m))
                         / float64_of_uint64 maxTotal)%float)
    (getCarryMetaNodes nodeType carry maxTotal excludeHosts nodes).1.
Proof.
  apply getCarryMetaNodes_Forall, list.Forall_forall. intros m Hm. by exists m.
Qed.

(** ** The advancement loop and the carry map *)

Lemma carry_fold_written nodes (carryMap : gmap Z float) nt :
  NoDup (map (fun nt => GetID (Ptr nt)) nodes) ->
  nt ∈ nodes ->
  carry_at (fold_left (fun m nt => <[GetID (Ptr nt) := advanced nt]> m) nodes carryMap)
    (GetID (Ptr nt)) = advanced nt.
Proof.
  revert carryMap. induction nodes as [|x nodes IH]; intros carryMap Hnd Hin; simpl.
  { by apply elem_of_nil in Hin. }
  simpl in Hnd. apply NoDup_cons in Hnd as [Hx Hnd].
  apply elem_of_cons in Hin as [->|Hin]; [|by apply IH].
  unfold carry_at. rewrite carry_fold_other by done. by rewrite lookup_insert_eq.
Qed.

Lemma carryPass_synced carryMap nodes :
  NoDup (map (fun nt => GetID (Ptr nt)) nodes) ->
  carrySynced (carryPass carryMap nodes).1.1 (carryPass carryMap nodes).1.2.
Proof.
  intros Hnd. rewrite carryPass_eq. cbn [fst snd]. unfold carrySynced.
  apply Forall_map, list.Forall_forall. intros nt Hnt. cbn [Carry Ptr].
  symmetry. by apply carry_fold_written.
Qed.

Lemma carryPass_Weight carryMap nodes :
  map Weight (carryPass carryMap nodes).1.2 = map Weight nodes.
Proof. rewrite carryPass_eq. cbn [fst snd]. by rewrite map_map. Qed.

Lemma carryPass_ids carryMap nodes :
  map (fun nt => GetID (Ptr nt)) (carryPass carryMap nodes).1.2
  = map (fun nt => GetID (Ptr nt)) nodes.
Proof. rewrite carryPass_eq. cbn [fst snd]. by rewrite map_map. Qed.

(** X7.  What [setNodeCarry] keeps and what it establishes, for candidates
    with distinct ids whose carries agree with the map: on return the
    entries still agree with the map; the nodes and the weights of the
    entries are the same; no entry of the map outside the candidates is
    touched; if the loop had to run, at least [replicaNum] entries have a
    carry above 1.0; if it had not, nothing is changed. *)
Theorem setNodeCarry_invariants (fuel : nat) (carryMap : gmap Z float)
    (nodes : list weightedNode) (count replicaNum : Z)
    (carryMap' : gmap Z float) (nodes' : list weightedNode) :
  NoDup (map (fun nt => GetID (Ptr nt)) nodes) ->
  carrySynced carryMap nodes ->
  setNodeCarry fuel carryMap nodes count replicaNum = Ret (carryMap', nodes') ->
  carrySynced carryMap' nodes' /\
  map Ptr nodes' = map Ptr nodes /\
  map Weight nodes' = map Weight nodes /\
  (forall id, id ∉ map (fun nt => GetID (Ptr nt)) nodes ->
              carryMap' !! id = carryMap !! id) /\
  (count < replicaNum -> replicaNum <= aboveOneCount nodes') /\
  (replicaNum <= count -> carryMap' = carryMap /\ nodes' = nodes).
Proof.
  revert carryMap nodes count.
  induction fuel as [|fuel IH]; intros carryMap nodes count Hnd Hsync; simpl.
  - destruct (count <? replicaNum) eqn:Hc; [done|]. apply Z.ltb_ge in Hc.
    intros ?; simplify_eq. repeat split; try done. lia.
  - destruct (count <? replicaNum) eqn:Hc.
    2:{ apply Z.ltb_ge in Hc. intros ?; simplify_eq. repeat split; try done. lia. }
    apply Z.ltb_lt in Hc.
    pose proof (carryPass_synced carryMap nodes Hnd) as Hs1.
    pose proof (carryPass_Ptr carryMap nodes) as Hp1.
    pose proof (carryPass_Weight carryMap nodes) as Hw1.
    pose proof (carryPass_ids carryMap nodes) as Hi1.
    pose proof (carryPass_count carryMap nodes) as Hc1.
    pose proof (fun id => carryPass_other carryMap nodes id) as Ho1.
    destruct (carryPass carryMap nodes) as [[m1 n1] c1]. cbn [fst snd] in *.
    intros Hrec. apply IH in Hrec as (Hs & Hp & Hw & Ho & Hlt & Hge);
      [|by rewrite Hi1|done].
    split; [done|]. split; [congruence|]. split; [congruence|]. split.
    { intros id Hid. rewrite Ho by (by rewrite Hi1). by apply Ho1. }
    split; [|lia]. intros _.
    destruct (Z.lt_ge_cases c1 replicaNum) as [Hlt1|Hge1]; [by apply Hlt|].
    destruct (Hge Hge1) as [_ ->]. lia.
Qed.

Lemma setNodeCarry_invariants_witness :
  carrySynced {[ 1 := 1.5%float ]}
    [{| Carry := 1.5; Weight := 0.5; Ptr := Ptr halfEntry; ID := 0 |}] /\
  1 <= aboveOneCount [{| Carry := 1.5; Weight := 0.5; Ptr := Ptr halfEntry; ID := 0 |}].
Proof.
  pose proof (setNodeCarry_invariants 2 {[ 1 := 0.5%float ]} [halfEntry] 0 1
                {[ 1 := 1.5%float ]}
                [{| Carry := 1.5; Weight := 0.5; Ptr := Ptr halfEntry; ID := 0 |}])
    as Hw.
  destruct Hw as (Hs & _ & _ & _ & Hc & _).
  - apply (bool_decide_unpack _). vm_compute. exact I.
  - repeat constructor.
  - reflexivity.
  - split; [exact Hs|]. apply Hc. lia.
Defined.

(** ** CarryWeight: what a call leaves in the carry map *)

Lemma eligibleCount_candidates nodeType carry ns maxTotal excludeHosts :
  Z.of_nat (length (getCarryNodes nodeType carry ns maxTotal excludeHosts).1)
  = eligibleCount nodeType excludeHosts ns.
Proof.
  unfold eligibleCount. rewrite <- (getCarryNodes_Ptr nodeType carry ns maxTotal).
  by rewrite length_map.
Qed.

(** X8.  A CarryWeight call that asks for no replica, or for more replicas
    than there are writable nodes outside the excluded list, still seeds
    the carry map for the whole node-set, and does nothing else: no carry
    is advanced or decreased, no hook is invoked, and the error, if any,
    reports the number of writable nodes that were not excluded. *)
Theorem CarryWeight_Select_early_return `{GoLib} (fuel : nat) (draws : list nat)
    (s : CarryWeightNodeSelector) (ns : nodeSet) (excludeHosts : list string)
    (replicaNum : Z) :
  replicaNum = 0 \/ eligibleCount (cw_nodeType s) excludeHosts ns < replicaNum ->
  CarryWeight_Select fuel draws s ns excludeHosts replicaNum =
  Ret ({| newHosts := []; peers := [];
          err := if replicaNum =? 0 then None
                 else Some (ErrNoEnoughWritableHosts replicaNum
                              (eligibleCount (cw_nodeType s) excludeHosts ns)) |},
       {| cw_nodeType := cw_nodeType s;
          cw_carry := prepareCarry (cw_nodeType s) (cw_carry s) ns
                        (getTotalMax (cw_nodeType s) ns) |},
       []).
Proof.
  intros Hcase. unfold CarryWeight_Select.
  destruct (replicaNum =? 0) eqn:H0; [done|].
  destruct Hcase as [->|Hlt]; [done|].
  pose proof (eligibleCount_candidates (cw_nodeType s)
                (prepareCarry (cw_nodeType s) (cw_carry s) ns
                   (getTotalMax (cw_nodeType s) ns))
                ns (getTotalMax (cw_nodeType s) ns) excludeHosts) as Hlen.
  destruct (getCarryNodes _ _ _ _ _) as [weightedNodes count]. cbn [fst] in Hlen.
  rewrite Hlen. apply Z.ltb_lt in Hlt. by rewrite Hlt.
Qed.

Lemma CarryWeight_Select_early_return_witness :
  CarryWeight_Select 0 [] (NewCarryWeightNodeSelector DataNodeDisk) fleetOneWritable [] 2 =
  Ret ({| newHosts := []; peers := [];
          err := Some (ErrNoEnoughWritableHosts 2 1) |},
       {| cw_nodeType := DataNodeDisk;
          cw_carry := {[ 1 := 1%float; 2 := 0%float ]} |},
       []).
Proof.
  apply (CarryWeight_Select_early_return 0 [] (NewCarryWeightNodeSelector DataNodeDisk)
           fleetOneWritable [] 2).
  right. vm_compute. reflexivity.
Defined.

Lemma decreaseCarry_fold (picked : list Node) (carryMap : gmap Z float) (id : Z) :
  NoDup (map GetID picked) ->
  carry_at (fold_left decreaseCarry picked carryMap) id =
  if bool_decide (id ∈ map GetID picked)
  then (carry_at carryMap id - 1)%float else carry_at carryMap id.
Proof.
  revert carryMap.
  induction picked as [|x picked IH]; intros carryMap Hnd; cbn [fold_left map] in *.
  { rewrite bool_decide_eq_false_2; [done|]. apply not_elem_of_nil. }
  apply NoDup_cons in Hnd as [Hx Hnd]. rewrite IH by done.
  unfold decreaseCarry at 1 2. rewrite carry_at_insert.
  destruct (decide (GetID x = id)) as [Heq|Hne].
  - subst id. rewrite (bool_decide_eq_false_2 _ Hx).
    rewrite bool_decide_eq_true_2; [done|left].
  - destruct (bool_decide (id ∈ map GetID picked)) eqn:Hin.
    + apply bool_decide_eq_true_1 in Hin.
      rewrite bool_decide_eq_true_2; [done|by right].
    + apply bool_decide_eq_false_1 in Hin.
      rewrite bool_decide_eq_false_2; [done|].
      apply not_elem_of_cons. split; [congruence|done].
Qed.

(** X9.  A CarryWeight call that succeeds leaves in the carry map, for every
    id, the carry the advancement loop ended with, decreased by exactly 1.0
    for the nodes that were picked and as it is for every other id; the
    resource type of the selector is unchanged. *)
Theorem CarryWeight_Select_charges_carry `{GoLib} (fuel : nat) (draws : list nat)
    (s : CarryWeightNodeSelector) (ns : nodeSet) (excludeHosts : list string)
    (replicaNum : Z) (ret : SelectReturn) (s' : CarryWeightNodeSelector)
    (hooked : list Node) :
  NoDup (map GetID (getNodes ns (cw_nodeType s))) ->
  replicaNum <> 0 ->
  CarryWeight_Select fuel draws s ns excludeHosts replicaNum = Ret (ret, s', hooked) ->
  err ret = None ->
  let total := getTotalMax (cw_nodeType s) ns in
  let carry0 := prepareCarry (cw_nodeType s) (cw_carry s) ns total in
  let cand := getCarryNodes (cw_nodeType s) carry0 ns total excludeHosts in
  exists carry1 nodes1,
    setNodeCarry fuel carry0 cand.1 cand.2 replicaNum = Ret (carry1, nodes1) /\
    cw_nodeType s' = cw_nodeType s /\
    forall id,
      carry_at (cw_carry s') id =
      if bool_decide (id ∈ map GetID hooked)
      then (carry_at carry1 id - 1)%float else carry_at carry1 id.
Proof.
  intros Hnd H0 Hsel Herr total carry0 cand.
  pose proof (CarryWeight_Select_outcome _ _ _ _ _ _ _ _ _ Hsel) as [(Hsub & _) _].
  assert (NoDup (map GetID hooked)) as Hndh by (by eapply map_submseteq_NoDup).
  revert Hsel. unfold CarryWeight_Select.
  apply Z.eqb_neq in H0. rewrite H0.
  fold total. fold carry0. fold cand.
  destruct cand as [weightedNodes count]. cbn [fst snd].
  destruct (Z.of_nat (length weightedNodes) <? replicaNum).
  { by intros ?; simplify_eq. }
  destruct (setNodeCarry _ _ _ _ _) as [[carry1 weighted1]| |];
    cbn [mbind run_bind]; [|done..].
  destruct (reshuffleHosts _ _); intros ?; simplify_eq.
  exists carry1, weighted1. split; [done|]. split; [done|].
  intros id. cbn [cw_carry]. by apply decreaseCarry_fold.
Qed.

(** ** The scanning policies in closed form *)

Lemma pickScan_take_filter (elig : Node -> bool) n l :
  (pickScan elig n l).1 = take n (List.filter elig l).
Proof.
  revert n. induction l as [|x l IH]; intros [|n]; simpl; try done.
  destruct (elig x) eqn:Hx.
  - specialize (IH n). destruct (pickScan elig n l). simpl in *. by rewrite IH.
  - specialize (IH (S n)). by destruct (pickScan elig (S n) l).
Qed.

Lemma filter_length_perm {A} (f : A -> bool) (l l' : list A) :
  l ≡ₚ l' -> length (List.filter f l) = length (List.filter f l').
Proof.
  induction 1 as [|x l l' _ IH|x y l|l1 l2 l3 _ IH1 _ IH2]; simpl; try done.
  - destruct (f x); simpl; by rewrite IH.
  - destruct (f x), (f y); done.
  - by rewrite IH1.
Qed.

Lemma filter_length_le {A} (f : A -> bool) (l : list A) :
  (length (List.filter f l) <= length l)%nat.
Proof. induction l as [|x l IH]; simpl; [lia|]. destruct (f x); simpl; lia. Qed.

Lemma eligibleCount_le nodeType excludeHosts ns :
  0 <= eligibleCount nodeType excludeHosts ns
    <= Z.of_nat (length (getNodes ns nodeType)).
Proof.
  unfold eligibleCount. split; [lia|]. apply inj_le, filter_length_le.
Qed.

Lemma RoundRobin_Select_scan `{GoLib} draws s ns excludeHosts replicaNum :
  0 <= rr_index s ->
  rr_index s + Z.of_nat (length (getNodes ns (rr_nodeType s))) <= int_max ->
  replicaNum <> 0 ->
  replicaNum <= Z.of_nat (length (getNodes ns (rr_nodeType s))) ->
  let pe := pickScan (eligible (rr_nodeType s) excludeHosts) (Z.to_nat replicaNum)
              (rotate (Z.to_nat (rr_index s))
                 (sort_Slice (fun a b => GetID a <? GetID b)
                    (getNodes ns (rr_nodeType s)))) in
  let s' := {| rr_index := int_wrap (rr_index s + Z.of_nat (length pe.2));
               rr_nodeType := rr_nodeType s |} in
  RoundRobin_Select draws s ns excludeHosts replicaNum =
  if Z.of_nat (length pe.1) <? replicaNum then
    Ret {| sr_ret := {| newHosts := []; peers := map mkPeer pe.1;
                        err := Some (ErrNoEnoughWritableHosts replicaNum
                                       (Z.of_nat (length pe.1))) |};
           sr_sel := s; sr_hooked := pe.1; sr_examined := pe.2 |}
  else
    match reshuffleHosts draws (map GetAddr pe.1) with
    | None =>
        Ret {| sr_ret := {| newHosts := []; peers := map mkPeer pe.1;
                            err := Some ErrOrderHostsIsNil |};
               sr_sel := s'; sr_hooked := pe.1; sr_examined := pe.2 |}
    | Some hosts =>
        Ret {| sr_ret := {| newHosts := hosts; peers := map mkPeer pe.1; err := None |};
               sr_sel := s'; sr_hooked := pe.1; sr_examined := pe.2 |}
    end.
Proof.
  intros Hi Hmax H0 Hlen pe s'. unfold RoundRobin_Select.
  apply Z.eqb_neq in H0. rewrite H0.
  apply Z.ltb_ge in Hlen. rewrite Hlen.
  assert (length (sort_Slice (fun a b => GetID a <? GetID b) (getNodes ns (rr_nodeType s)))
          = length (getNodes ns (rr_nodeType s))) as Hlens by (by rewrite sort_Slice_perm).
  rewrite rr_loop_spec by (rewrite ?Hlens; done).
  cbn [mbind run_bind]. fold pe.
  unfold extendState.
  cbn [ss_orderHosts ss_peers ss_hooked ss_examined ss_nodeIndex scanState0].
  rewrite !app_nil_l, length_map. done.
Qed.

Lemma AvailableSpaceFirst_Select_scan `{GoLib} draws s ns excludeHosts replicaNum :
  replicaNum <> 0 ->
  replicaNum <= Z.of_nat (length (getNodes ns (asf_nodeType s))) ->
  let pe := pickScan (eligible (asf_nodeType s) excludeHosts) (Z.to_nat replicaNum)
              (sort_Slice (fun a b => getNodeAvailableSpace (asf_nodeType s) b
                                      <? getNodeAvailableSpace (asf_nodeType s) a)
                 (getNodes ns (asf_nodeType s))) in
  AvailableSpaceFirst_Select draws s ns excludeHosts replicaNum =
  if Z.of_nat (length pe.1) <? replicaNum then
    Ret {| sr_ret := {| newHosts := []; peers := map mkPeer pe.1;
                        err := Some (ErrNoEnoughWritableHosts replicaNum
                                       (Z.of_nat (length pe.1))) |};
           sr_sel := s; sr_hooked := pe.1; sr_examined := pe.2 |}
  else
    match reshuffleHosts draws (map GetAddr pe.1) with
    | None =>
        Ret {| sr_ret := {| newHosts := []; peers := map mkPeer pe.1;
                            err := Some ErrOrderHostsIsNil |};
               sr_sel := s; sr_hooked := pe.1; sr_examined := pe.2 |}
    | Some hosts =>
        Ret {| sr_ret := {| newHosts := hosts; peers := map mkPeer pe.1; err := None |};
               sr_sel := s; sr_hooked := pe.1; sr_examined := pe.2 |}
    end.
Proof.
  intros H0 Hlen pe. unfold AvailableSpaceFirst_Select.
  apply Z.eqb_neq in H0. rewrite H0.
  apply Z.ltb_ge in Hlen. rewrite Hlen.
  rewrite asf_loop_spec. cbn [mbind run_bind]. fold pe.
  unfold extendState.
  cbn [ss_orderHosts ss_peers ss_hooked ss_examined ss_nodeIndex scanState0].
  rewrite !app_nil_l, length_map. done.
Qed.

Lemma pickScan_count elig (visit nodes : list Node) (n : nat) :
  visit ≡ₚ nodes ->
  length (pickScan elig n visit).1 = (n `min` length (List.filter elig nodes))%nat.
Proof.
  intros Hperm. rewrite pickScan_take_filter, length_take.
  by rewrite (filter_length_perm elig visit nodes).
Qed.

Lemma reshuffleHosts_is_Some draws (oldHosts : list string) :
  oldHosts <> [] -> exists hosts, reshuffleHosts draws oldHosts = Some hosts.
Proof. destruct oldHosts; [done|]. intros _. by eexists. Qed.

(** ** Success and failure of the four policies *)

Lemma RoundRobin_Select_verdict `{GoLib} draws s ns excludeHosts replicaNum r :
  0 <= rr_index s ->
  rr_index s + Z.of_nat (length (getNodes ns (rr_nodeType s))) <= int_max ->
  1 <= replicaNum ->
  RoundRobin_Select draws s ns excludeHosts replicaNum = Ret r ->
  let E := eligibleCount (rr_nodeType s) excludeHosts ns in
  let S := Z.of_nat (length (getNodes ns (rr_nodeType s))) in
  (err (sr_ret r) = None /\ replicaNum <= E) \/
  (E < replicaNum /\
   err (sr_ret r) = Some (ErrNoEnoughWritableHosts replicaNum
                            (if S <? replicaNum then S else E))).
Proof.
  intros Hi Hmax HN Hsel E S.
  pose proof (eligibleCount_le (rr_nodeType s) excludeHosts ns) as HE. fold E S in HE.
  destruct (S <? replicaNum) eqn:HS.
  { revert Hsel. unfold RoundRobin_Select.
    destruct (replicaNum =? 0) eqn:H0; [apply Z.eqb_eq in H0; lia|].
    fold S. rewrite HS. intros ?; simplify_eq. cbn. right.
    apply Z.ltb_lt in HS. split; [lia|done]. }
  apply Z.ltb_ge in HS.
  rewrite RoundRobin_Select_scan in Hsel by (try done; lia).
  cbv zeta in Hsel.
  pose proof (pickScan_count (eligible (rr_nodeType s) excludeHosts)
                (rotate (Z.to_nat (rr_index s))
                   (sort_Slice (fun a b => GetID a <? GetID b) (getNodes ns (rr_nodeType s))))
                (getNodes ns (rr_nodeType s)) (Z.to_nat replicaNum)) as Hcount.
  rewrite Hcount in Hsel by (by rewrite rotate_perm, sort_Slice_perm).
  destruct (_ <? replicaNum) eqn:Hshort.
  - apply Z.ltb_lt in Hshort. simplify_eq. cbn. right.
    unfold E, eligibleCount in *. split; [lia|]. do 2 f_equal. lia.
  - apply Z.ltb_ge in Hshort.
    destruct (reshuffleHosts_is_Some draws
                (map GetAddr (pickScan (eligible (rr_nodeType s) excludeHosts)
                   (Z.to_nat replicaNum)
                   (rotate (Z.to_nat (rr_index s))
                      (sort_Slice (fun a b => GetID a <? GetID b)
                         (getNodes ns (rr_nodeType s))))).1)) as [hosts Hre].
    { intros Hnil. apply map_eq_nil in Hnil.
      apply (f_equal length) in Hnil. rewrite Hcount in Hnil
        by (by rewrite rotate_perm, sort_Slice_perm). simpl in Hnil. lia. }
    rewrite Hre in Hsel. simplify_eq. cbn. left.
    unfold E, eligibleCount. split; [done|lia].
Qed.

Lemma AvailableSpaceFirst_Select_verdict `{GoLib} draws s ns excludeHosts replicaNum r :
  1 <= replicaNum ->
  AvailableSpaceFirst_Select draws s ns excludeHosts replicaNum = Ret r ->
  let E := eligibleCount (asf_nodeType s) excludeHosts ns in
  let S := Z.of_nat (length (getNodes ns (asf_nodeType s))) in
  (err (sr_ret r) = None /\ replicaNum <= E) \/
  (E < replicaNum /\
   err (sr_ret r) = Some (if S <? replicaNum then ErrNoEnoughHosts replicaNum S
                          else ErrNoEnoughWritableHosts replicaNum E)).
Proof.
  intros HN Hsel E S.
  pose proof (eligibleCount_le (asf_nodeType s) excludeHosts ns) as HE. fold E S in HE.
  destruct (S <? replicaNum) eqn:HS.
  { revert Hsel. unfold AvailableSpaceFirst_Select.
    destruct (replicaNum =? 0) eqn:H0; [apply Z.eqb_eq in H0; lia|].
    fold S. rewrite HS. intros ?; simplify_eq. cbn. right.
    apply Z.ltb_lt in HS. split; [lia|done]. }
  apply Z.ltb_ge in HS.
  rewrite AvailableSpaceFirst_Select_scan in Hsel by (try done; lia).
  cbv zeta in Hsel.
  pose proof (pickScan_count (eligible (asf_nodeType s) excludeHosts)
                (sort_Slice (fun a b => getNodeAvailableSpace (asf_nodeType s) b
                                        <? getNodeAvailableSpace (asf_nodeType s) a)
                   (getNodes ns (asf_nodeType s)))
                (getNodes ns (asf_nodeType s)) (Z.to_nat replicaNum)) as Hcount.
  rewrite Hcount in Hsel by (by rewrite sort_Slice_perm).
  destruct (_ <? replicaNum) eqn:Hshort.
  - apply Z.ltb_lt in Hshort. simplify_eq. cbn. right.
    unfold E, eligibleCount in *. split; [lia|]. do 2 f_equal. lia.
  - apply Z.ltb_ge in Hshort.
    destruct (reshuffleHosts_is_Some draws
                (map GetAddr (pickScan (eligible (asf_nodeType s) excludeHosts)
                   (Z.to_nat replicaNum)
                   (sort_Slice (fun a b => getNodeAvailableSpace (asf_nodeType s) b
                                           <? getNodeAvailableSpace (asf_nodeType s) a)
                      (getNodes ns (asf_nodeType s)))).1)) as [hosts Hre].
    { intros Hnil. apply map_eq_nil in Hnil.
      apply (f_equal length) in Hnil. rewrite Hcount in Hnil
        by (by rewrite sort_Slice_perm). simpl in Hnil. lia. }
    rewrite Hre in Hsel. simplify_eq. cbn. left.
    unfold E, eligibleCount. split; [done|lia].
Qed.

Lemma setNodeCarry_length fuel carryMap nodes count replicaNum carryMap' nodes' :
  setNodeCarry fuel carryMap nodes count replicaNum = Ret (carryMap', nodes') ->
  length nodes' = length nodes.
Proof.
  intros Hset. apply setNodeCarry_Ptr in Hset.
  apply (f_equal length) in Hset. by rewrite !length_map in Hset.
Qed.

Lemma CarryWeight_Select_verdict `{GoLib} fuel draws s ns excludeHosts replicaNum
    ret s' hooked :
  1 <= replicaNum ->
  CarryWeight_Select fuel draws s ns excludeHosts replicaNum = Ret (ret, s', hooked) ->
  let E := eligibleCount (cw_nodeType s) excludeHosts ns in
  (err ret = None /\ replicaNum <= E) \/
  (E < replicaNum /\ err ret = Some (ErrNoEnoughWritableHosts replicaNum E)).
Proof.
  intros HN Hsel E. revert Hsel. unfold CarryWeight_Select.
  destruct (replicaNum =? 0) eqn:H0; [apply Z.eqb_eq in H0; lia|].
  pose proof (eligibleCount_candidates (cw_nodeType s)
                (prepareCarry (cw_nodeType s) (cw_carry s) ns
                   (getTotalMax (cw_nodeType s) ns))
                ns (getTotalMax (cw_nodeType s) ns) excludeHosts) as Hlen.
  fold E in Hlen.
  destruct (getCarryNodes _ _ _ _ _) as [weightedNodes count]. cbn [fst] in Hlen.
  rewrite Hlen.
  destruct (E <? replicaNum) eqn:HE.
  { intros ?; simplify_eq. cbn. right. by apply Z.ltb_lt in HE. }
  apply Z.ltb_ge in HE.
  destruct (setNodeCarry _ _ _ _ _) as [[carry1 weighted1]| |] eqn:Hset;
    cbn [mbind run_bind]; [|done..].
  apply setNodeCarry_length in Hset.
  destruct (reshuffleHosts _ _) as [hosts|] eqn:Hre; intros ?; simplify_eq; cbn.
  - by left.
  - exfalso. apply reshuffleHosts_None in Hre.
    apply (f_equal length) in Hre. rewrite !length_map, length_take in Hre.
    rewrite sort_Slice_perm in Hre. simpl in Hre. lia.
Qed.

(** ** Straw: the loop neither panics nor gives up early *)

Lemma straw_loop_no_panic `{GoLib} fuel nodeType replicaNum st :
  straw_loop fuel nodeType replicaNum st <> Panic.
Proof.
  revert st. induction fuel as [|fuel IH]; intros st; simpl.
  - destruct (_ <? replicaNum); [|done]. by destruct (_ + _ <? replicaNum).
  - destruct (Z.of_nat (length (sw_orderHosts st)) <? replicaNum) eqn:Hlt; [|done].
    destruct (_ + _ <? replicaNum) eqn:Hbrk; [done|].
    apply Z.ltb_lt in Hlt. apply Z.ltb_ge in Hbrk.
    assert (sw_nodes st <> []) as Hne.
    { intros Hnil. rewrite Hnil in Hbrk. simpl in Hbrk. lia. }
    destruct (selectOneNode_spec nodeType (sw_rand st) (sw_nodes st) Hne)
      as (j & node & rand' & -> & Hj).
    destruct (negb _); apply IH.
Qed.

Lemma straw_loop_count `{GoLib} fuel nodeType replicaNum st st' :
  straw_loop fuel nodeType replicaNum st = Ret st' ->
  (length (sw_orderHosts st')
   + length (List.filter (fun n => canAllocPartition n nodeType) (sw_nodes st'))
   = length (sw_orderHosts st)
     + length (List.filter (fun n => canAllocPartition n nodeType) (sw_nodes st)))%nat /\
  (Z.of_nat (length (sw_orderHosts st')) < replicaNum ->
   Z.of_nat (length (sw_nodes st')) + Z.of_nat (length (sw_orderHosts st')) < replicaNum).
Proof.
  revert st. induction fuel as [|fuel IH]; intros st; simpl.
  - destruct (Z.of_nat (length (sw_orderHosts st)) <? replicaNum) eqn:Hlt.
    + destruct (_ + _ <? replicaNum) eqn:Hbrk; [|done].
      intros ?; simplify_eq. split; [done|]. intros _. by apply Z.ltb_lt in Hbrk.
    + intros ?; simplify_eq. split; [done|]. apply Z.ltb_ge in Hlt. lia.
  - destruct (Z.of_nat (length (sw_orderHosts st)) <? replicaNum) eqn:Hlt.
    2:{ intros ?; simplify_eq. split; [done|]. apply Z.ltb_ge in Hlt. lia. }
    destruct (_ + _ <? replicaNum) eqn:Hbrk.
    { intros ?; simplify_eq. split; [done|]. intros _. by apply Z.ltb_lt in Hbrk. }
    apply Z.ltb_lt in Hlt. apply Z.ltb_ge in Hbrk.
    assert (sw_nodes st <> []) as Hne.
    { intros Hnil. rewrite Hnil in Hbrk. simpl in Hbrk. lia. }
    destruct (selectOneNode_spec nodeType (sw_rand st) (sw_nodes st) Hne)
      as (j & node & rand' & -> & Hj).
    rewrite Nat2Z.id.
    pose proof (filter_length_perm (fun n => canAllocPartition n nodeType) _ _
                  (swapRemove_perm j (sw_nodes st) node Hj)) as Hperm.
    cbn [List.filter] in Hperm.
    destruct (canAllocPartition node nodeType) eqn:Hw; cbn [negb];
      intros Hrec; apply IH in Hrec as [Hc Hb];
      cbn [sw_orderHosts sw_nodes] in Hc, Hb; (split; [|done]).
    + rewrite length_app in Hc. simpl in *. lia.
    + lia.
Qed.

Lemma filter_filter_length {A} (f g : A -> bool) (l : list A) :
  length (List.filter f (List.filter g l))
  = length (List.filter (fun x => f x && g x) l).
Proof.
  induction l as [|x l IH]; simpl; [done|].
  destruct (g x); simpl; destruct (f x); simpl; by rewrite ?IH.
Qed.

Lemma filter_length_ext {A} (f g : A -> bool) (l : list A) :
  (forall x, f x = g x) -> length (List.filter f l) = length (List.filter g l).
Proof.
  intros Hfg. induction l as [|x l IH]; simpl; [done|].
  rewrite Hfg. destruct (g x); simpl; by rewrite IH.
Qed.

Lemma Straw_Select_verdict `{GoLib} draws s ns excludeHosts replicaNum ret s' hooked :
  1 <= replicaNum ->
  Straw_Select draws s ns excludeHosts replicaNum = Ret (ret, s', hooked) ->
  let E := eligibleCount (st_nodeType s) excludeHosts ns in
  (err ret = None /\ replicaNum <= E) \/
  (E < replicaNum /\
   err ret = Some (ErrNoEnoughWritableHosts replicaNum (Z.of_nat (length hooked)))).
Proof.
  intros HN Hsel E.
  pose proof (Straw_Select_outcome _ _ _ _ _ _ _ _ Hsel) as (_ & _ & Hpeers & _).
  revert Hsel. unfold Straw_Select.
  set (cand := List.filter _ (getNodes ns (st_nodeType s))).
  set (st0 := {| sw_rand := st_rand s; sw_nodes := cand; sw_orderHosts := [];
                 sw_peers := []; sw_hooked := [] |}).
  destruct (straw_loop _ _ _ _) as [st| |] eqn:Hloop; cbn [mbind run_bind]; [|done..].
  assert (strawInv (st_nodeType s) replicaNum cand st) as (_ & Hoh & _).
  { eapply straw_loop_inv; [|exact Hloop].
    unfold strawInv, st0. cbn. repeat split; try done. by left. }
  apply straw_loop_count in Hloop as [Hc Hb].
  unfold st0 in Hc. cbn [sw_orderHosts sw_nodes length] in Hc.
  assert (Z.of_nat (length (List.filter (fun n => canAllocPartition n (st_nodeType s)) cand))
          = E) as Hcand.
  { unfold E, eligibleCount, cand. rewrite filter_filter_length. f_equal.
    apply filter_length_ext. intros x. unfold eligible.
    by rewrite notExcluded_contains. }
  pose proof (filter_length_le (fun n => canAllocPartition n (st_nodeType s))
                (sw_nodes st)) as Hle.
  destruct (_ <? replicaNum) eqn:Hshort.
  - apply Z.ltb_lt in Hshort. specialize (Hb Hshort).
    intros ?; simplify_eq. cbn. right. split; [lia|].
    rewrite Hoh, length_map. done.
  - apply Z.ltb_ge in Hshort.
    destruct (reshuffleHosts_is_Some draws (sw_orderHosts st)) as [hosts Hre].
    { intros Hnil. rewrite Hnil in Hshort. simpl in Hshort. lia. }
    rewrite Hre. intros ?; simplify_eq. cbn. left. split; [done|]. lia.
Qed.

Lemma Select_verdict `{GoLib} fuel draws sel ns excludeHosts replicaNum ret sel' hooked :
  cursorInRange sel ns ->
  1 <= replicaNum ->
  Select fuel draws sel ns excludeHosts replicaNum = Ret (ret, sel', hooked) ->
  let E := eligibleCount (selectorType sel) excludeHosts ns in
  let S := Z.of_nat (length (getNodes ns (selectorType sel))) in
  (err ret = None /\ replicaNum <= E) \/
  (E < replicaNum /\
   err ret = Some match sel with
                  | RoundRobin _ =>
                      ErrNoEnoughWritableHosts replicaNum (if S <? replicaNum then S else E)
                  | AvailableSpaceFirst _ =>
                      if S <? replicaNum then ErrNoEnoughHosts replicaNum S
                      else ErrNoEnoughWritableHosts replicaNum E
                  | CarryWeight _ => ErrNoEnoughWritableHosts replicaNum E
                  | Straw _ =>
                      ErrNoEnoughWritableHosts replicaNum (Z.of_nat (length hooked))
                  end).
Proof.
  intros Hcur HN. destruct sel as [s|s|s|s]; simpl.
  - destruct (RoundRobin_Select _ _ _ _ _) as [r| |] eqn:Hsel; cbn [mbind run_bind]; [|done..].
    intros ?; simplify_eq. destruct Hcur.
    by apply (RoundRobin_Select_verdict draws s ns excludeHosts replicaNum r).
  - destruct (AvailableSpaceFirst_Select _ _ _ _ _) as [r| |] eqn:Hsel;
      cbn [mbind run_bind]; [|done..].
    intros ?; simplify_eq.
    by apply (AvailableSpaceFirst_Select_verdict draws s ns excludeHosts replicaNum r).
  - destruct (CarryWeight_Select _ _ _ _ _ _) as [[[ret0 s0] h0]| |] eqn:Hsel;
      cbn [mbind run_bind]; [|done..].
    intros ?; simplify_eq.
    by apply (CarryWeight_Select_verdict fuel draws s ns excludeHosts replicaNum ret s0 hooked).
  - destruct (Straw_Select _ _ _ _ _) as [[[ret0 s0] h0]| |] eqn:Hsel;
      cbn [mbind run_bind]; [|done..].
    intros ?; simplify_eq.
    by apply (Straw_Select_verdict draws s ns excludeHosts replicaNum ret s0 hooked).
Qed.

(** X10.  No policy fails for want of looking: a call for at least one
    replica that returns succeeds exactly when the node-set holds at least
    [replicaNum] nodes that can take a partition and are not excluded. *)
Theorem Select_succeeds_iff `{GoLib} (fuel : nat) (draws : list nat) (sel : NodeSelector)
    (ns : nodeSet) (excludeHosts : list string) (replicaNum : Z)
    (ret : SelectReturn) (sel' : NodeSelector) (hooked : list Node) :
  cursorInRange sel ns ->
  1 <= replicaNum ->
  Select fuel draws sel ns excludeHosts replicaNum = Ret (ret, sel', hooked) ->
  (err ret = None <-> replicaNum <= eligibleCount (selectorType sel) excludeHosts ns).
Proof.
  intros Hcur HN Hsel.
  destruct (Select_verdict _ _ _ _ _ _ _ _ _ Hcur HN Hsel) as [[He Hle]|[Hlt He]].
  - by split.
  - split; [congruence|lia].
Qed.

Lemma Select_succeeds_iff_witness :
  err {| newHosts := ["A"]; peers := [mkPeer (DataNodePtr nodeA)]; err := None |} = None
  <-> 1 <= eligibleCount DataNodeDisk [] fleetOneWritable.
Proof.
  apply (Select_succeeds_iff 0 [] (Straw (NewStrawNodeSelector someRand DataNodeDisk))
           fleetOneWritable [] 1
           {| newHosts := ["A"]; peers := [mkPeer (DataNodePtr nodeA)]; err := None |}
           (Straw {| st_rand := {| rand_src := rand_src someRand; rand_pos := 2 |};
                     st_nodeType := DataNodeDisk |})
           [DataNodePtr nodeA]).
  - exact I.
  - lia.
  - vm_compute. reflexivity.
Defined.

(** X11.  What a failed call for at least one replica reports.  The call
    fails only when fewer than [replicaNum] nodes can take a partition and
    are not excluded.  RoundRobin and AvailableSpaceFirst report the size of
    the node-set when that is already too small (AvailableSpaceFirst as "no
    enough hosts"), otherwise the number of writable nodes that are not
    excluded, as CarryWeight always does; Straw reports the number of nodes
    it had accepted when it gave up. *)
Theorem Select_error_report `{GoLib} (fuel : nat) (draws : list nat) (sel : NodeSelector)
    (ns : nodeSet) (excludeHosts : list string) (replicaNum : Z)
    (ret : SelectReturn) (sel' : NodeSelector) (hooked : list Node) :
  cursorInRange sel ns ->
  1 <= replicaNum ->
  Select fuel draws sel ns excludeHosts replicaNum = Ret (ret, sel', hooked) ->
  err ret <> None ->
  let E := eligibleCount (selectorType sel) excludeHosts ns in
  let S := Z.of_nat (length (getNodes ns (selectorType sel))) in
  E < replicaNum /\
  err ret = Some match sel with
                 | RoundRobin _ =>
                     ErrNoEnoughWritableHosts replicaNum (if S <? replicaNum then S else E)
                 | AvailableSpaceFirst _ =>
                     if S <? replicaNum then ErrNoEnoughHosts replicaNum S
                     else ErrNoEnoughWritableHosts replicaNum E
                 | CarryWeight _ => ErrNoEnoughWritableHosts replicaNum E
                 | Straw _ =>
                     ErrNoEnoughWritableHosts replicaNum (Z.of_nat (length hooked))
                 end.
Proof.
  intros Hcur HN Hsel Herr E S.
  by destruct (Select_verdict _ _ _ _ _ _ _ _ _ Hcur HN Hsel) as [[He Hle]|[Hlt He]].
Qed.

Lemma Select_error_report_witness :
  eligibleCount DataNodeDisk [] fleetOneWritable < 2 /\
  err {| newHosts := []; peers := [mkPeer (DataNodePtr nodeA)];
         err := Some (ErrNoEnoughWritableHosts 2 1) |}
  = Some (ErrNoEnoughWritableHosts 2 1).
Proof.
  apply (Select_error_report 0 [] (AvailableSpaceFirst (NewAvailableSpaceFirstNodeSelector DataNodeDisk))
           fleetOneWritable [] 2
           {| newHosts := []; peers := [mkPeer (DataNodePtr nodeA)];
              err := Some (ErrNoEnoughWritableHosts 2 1) |}
           (AvailableSpaceFirst (NewAvailableSpaceFirstNodeSelector DataNodeDisk))
           [DataNodePtr nodeA]).
  - exact I.
  - lia.
  - vm_compute. reflexivity.
  - discriminate.
Defined.

(** ** A negative replica count *)

Lemma rr_loop_nonpos fuel sortedNodes index nodeType excludeHosts replicaNum st :
  replicaNum <= 0 ->
  rr_loop fuel sortedNodes index nodeType excludeHosts replicaNum 0 st = Ret st.
Proof.
  intros HN. assert ((0 <? replicaNum) = false) as Hc by (apply Z.ltb_ge; lia).
  destruct fuel; simpl; by rewrite Hc.
Qed.

Lemma asf_loop_nonpos fuel sortedNodes nodeType excludeHosts replicaNum st :
  replicaNum <= 0 ->
  asf_loop fuel sortedNodes nodeType excludeHosts replicaNum 0 st = Ret st.
Proof.
  intros HN. assert ((0 <? replicaNum) = false) as Hc by (apply Z.ltb_ge; lia).
  destruct fuel; simpl; by rewrite Hc.
Qed.

Lemma straw_loop_nonpos `{GoLib} fuel nodeType replicaNum st :
  replicaNum <= 0 ->
  straw_loop fuel nodeType replicaNum st = Ret st.
Proof.
  intros HN.
  assert ((Z.of_nat (length (sw_orderHosts st)) <? replicaNum) = false) as Hc
    by (apply Z.ltb_ge; lia).
  destruct fuel; simpl; by rewrite Hc.
Qed.

Lemma setNodeCarry_enough fuel carryMap nodes count replicaNum :
  replicaNum <= count ->
  setNodeCarry fuel carryMap nodes count replicaNum = Ret (carryMap, nodes).
Proof.
  intros HN. assert ((count <? replicaNum) = false) as Hc by (apply Z.ltb_ge; lia).
  destruct fuel; simpl; by rewrite Hc.
Qed.

(** X12.  A negative replica count is not rejected as such.  Every policy
    lets it through its checks, picks nothing, invokes no hook, and returns
    the error of the empty reshuffle, "orderHosts is nil"; the policy stays
    the same. *)
Theorem Select_negative_replicas `{GoLib} (fuel : nat) (draws : list nat)
    (sel : NodeSelector) (ns : nodeSet) (excludeHosts : list string) (replicaNum : Z) :
  replicaNum < 0 ->
  exists sel',
    Select fuel draws sel ns excludeHosts replicaNum =
    Ret ({| newHosts := []; peers := []; err := Some ErrOrderHostsIsNil |}, sel', []) /\
    GetName sel' = GetName sel.
Proof.
  intros HN.
  assert ((replicaNum =? 0) = false) as H0 by (apply Z.eqb_neq; lia).
  assert (forall n : nat, (Z.of_nat n <? replicaNum) = false) as Hlt
    by (intros n; apply Z.ltb_ge; lia).
  destruct sel as [s|s|s|s]; simpl.
  - unfold RoundRobin_Select. rewrite H0, Hlt.
    rewrite rr_loop_nonpos by lia. cbn [mbind run_bind].
    cbn [ss_orderHosts ss_peers ss_hooked ss_examined ss_nodeIndex scanState0 length].
    rewrite (Hlt O). cbn. by eexists.
  - unfold AvailableSpaceFirst_Select. rewrite H0, Hlt.
    rewrite asf_loop_nonpos by lia. cbn [mbind run_bind].
    cbn [ss_orderHosts ss_peers ss_hooked ss_examined ss_nodeIndex scanState0 length].
    rewrite (Hlt O). cbn. by eexists.
  - unfold CarryWeight_Select. rewrite H0.
    pose proof (getCarryNodes_count (cw_nodeType s)
                  (prepareCarry (cw_nodeType s) (cw_carry s) ns
                     (getTotalMax (cw_nodeType s) ns))
                  ns (getTotalMax (cw_nodeType s) ns) excludeHosts) as Hcount.
    destruct (getCarryNodes _ _ _ _ _) as [weightedNodes count]. cbn [fst snd] in Hcount.
    rewrite Hlt.
    pose proof (carryNodeCount_bounds weightedNodes) as Hb.
    rewrite setNodeCarry_enough by lia. cbn [mbind run_bind].
    replace (Z.to_nat replicaNum) with O by lia. rewrite take_0. cbn. by eexists.
  - unfold Straw_Select. rewrite straw_loop_nonpos by lia. cbn [mbind run_bind].
    cbn [sw_orderHosts sw_peers sw_hooked sw_rand length].
    rewrite (Hlt O). cbn. by eexists.
Qed.

Lemma Select_negative_replicas_witness :
  exists sel',
    Select 0 [] (CarryWeight (NewCarryWeightNodeSelector DataNodeDisk)) fleetFive [] (-1) =
    Ret ({| newHosts := []; peers := []; err := Some ErrOrderHostsIsNil |}, sel', []) /\
    GetName sel' = "CarryWeight".
Proof.
  apply (Select_negative_replicas 0 [] (CarryWeight (NewCarryWeightNodeSelector DataNodeDisk))
           fleetFive [] (-1)).
  lia.
Defined.

(** ** No policy panics *)

Lemma RoundRobin_Select_returns `{GoLib} draws s ns excludeHosts replicaNum :
  0 <= rr_index s ->
  rr_index s + Z.of_nat (length (getNodes ns (rr_nodeType s))) <= int_max ->
  exists r, RoundRobin_Select draws s ns excludeHosts replicaNum = Ret r.
Proof.
  intros Hi Hmax.
  destruct (decide (replicaNum = 0)) as [->|H0]; [by eexists|].
  destruct (Z.lt_ge_cases (Z.of_nat (length (getNodes ns (rr_nodeType s)))) replicaNum)
    as [Hlt|Hge].
  { unfold RoundRobin_Select. apply Z.eqb_neq in H0. rewrite H0.
    apply Z.ltb_lt in Hlt. rewrite Hlt. by eexists. }
  rewrite RoundRobin_Select_scan by done. cbv zeta.
  destruct (_ <? replicaNum); [by eexists|].
  destruct (reshuffleHosts _ _); by eexists.
Qed.

Lemma AvailableSpaceFirst_Select_returns `{GoLib} draws s ns excludeHosts replicaNum :
  exists r, AvailableSpaceFirst_Select draws s ns excludeHosts replicaNum = Ret r.
Proof.
  destruct (decide (replicaNum = 0)) as [->|H0]; [by eexists|].
  destruct (Z.lt_ge_cases (Z.of_nat (length (getNodes ns (asf_nodeType s)))) replicaNum)
    as [Hlt|Hge].
  { unfold AvailableSpaceFirst_Select. apply Z.eqb_neq in H0. rewrite H0.
    apply Z.ltb_lt in Hlt. rewrite Hlt. by eexists. }
  rewrite AvailableSpaceFirst_Select_scan by done. cbv zeta.
  destruct (_ <? replicaNum); [by eexists|].
  destruct (reshuffleHosts _ _); by eexists.
Qed.

Lemma Straw_Select_returns `{GoLib} draws s ns excludeHosts replicaNum :
  exists r, Straw_Select draws s ns excludeHosts replicaNum = Ret r.
Proof.
  unfold Straw_Select.
  set (st0 := {| sw_rand := _ |}).
  pose proof (straw_loop_fuel (length (sw_nodes st0)) (st_nodeType s) replicaNum st0) as Hf.
  pose proof (straw_loop_no_panic (length (sw_nodes st0)) (st_nodeType s) replicaNum st0)
    as Hp.
  destruct (straw_loop _ _ _ _) as [st| |]; cbn [mbind run_bind];
    [|done|exfalso; by apply Hf].
  destruct (_ <? replicaNum); [by eexists|]. destruct (reshuffleHosts _ _); by eexists.
Qed.

(** X13.  With the cursor of RoundRobin in range, a call of RoundRobin,
    AvailableSpaceFirst or Straw always returns: the index
    [(nodeIndex + s.index) % len(sortedNodes)], the scan index and the index
    Straw draws never leave their slice (the loop of Straw draws only from a
    non-empty slice), and the loops come to an end. *)
Theorem Select_returns `{GoLib} (fuel : nat) (draws : list nat) (sel : NodeSelector)
    (ns : nodeSet) (excludeHosts : list string) (replicaNum : Z) :
  cursorInRange sel ns ->
  ~ isCarryWeight sel ->
  exists r, Select fuel draws sel ns excludeHosts replicaNum = Ret r.
Proof.
  intros Hcur Hncw. destruct sel as [s|s|s|s]; simpl.
  - destruct Hcur as [Hi Hmax].
    destruct (RoundRobin_Select_returns draws s ns excludeHosts replicaNum Hi Hmax)
      as [r ->]. cbn [mbind run_bind]. by eexists.
  - destruct (AvailableSpaceFirst_Select_returns draws s ns excludeHosts replicaNum)
      as [r ->]. cbn [mbind run_bind]. by eexists.
  - by destruct Hncw.
  - destruct (Straw_Select_returns draws s ns excludeHosts replicaNum) as [[[ret s0] h] ->].
    cbn [mbind run_bind]. by eexists.
Qed.

Lemma Select_returns_witness :
  exists r, Select 0 [] (RoundRobin (NewRoundRobinNodeSelector DataNodeDisk))
              fleetGap [] 2 = Ret r.
Proof.
  apply (Select_returns 0 [] (RoundRobin (NewRoundRobinNodeSelector DataNodeDisk))
           fleetGap [] 2).
  - vm_compute. split; discriminate.
  - intros Hcw. exact Hcw.
Defined.

(** ** The order in which the scanning policies pick *)

Lemma StronglySorted_sublist_of {A} (R : A -> A -> Prop) (l k : list A) :
  l `sublist_of` k -> StronglySorted R k -> StronglySorted R l.
Proof.
  induction 1 as [|x l k Hsub IH|x l k Hsub IH]; intros Hs; [done|..].
  - apply StronglySorted_cons in Hs as [Hx Hs]. apply StronglySorted_cons.
    split; [|by apply IH]. apply list.Forall_forall. intros y Hy.
    rewrite list.Forall_forall in Hx. apply Hx. by eapply elem_of_sublist.
  - apply StronglySorted_cons in Hs as [_ Hs]. by apply IH.
Qed.

Lemma StronglySorted_impl {A} (R R' : A -> A -> Prop) (l : list A) :
  (forall a b, R a b -> R' a b) -> StronglySorted R l -> StronglySorted R' l.
Proof.
  intros HR. induction 1 as [|x l _ IH Hx]; constructor; [done|].
  eapply Forall_impl; [exact Hx|]. intros y. apply HR.
Qed.

Lemma take_filter_sublist {A} (f : A -> bool) n (l : list A) :
  take n (List.filter f l) `sublist_of` l.
Proof. etrans; [apply sublist_take|apply filter_sublist]. Qed.

(** X14.  RoundRobin picks in turn.  With the cursor in range and a
    node-set of at least [replicaNum] nodes, the nodes whose hook is invoked,
    and the peers reported, are, in this order, the first [replicaNum] nodes
    that can take a partition and are not excluded, walking the nodes by
    ascending id from position [index mod len]; and the nodes read are an
    initial stretch of that walk, each read once. *)
Theorem RoundRobin_picks_in_turn `{GoLib} (draws : list nat) (s : RoundRobinNodeSelector)
    (ns : nodeSet) (excludeHosts : list string) (replicaNum : Z)
    (r : ScanResult RoundRobinNodeSelector) :
  0 <= rr_index s ->
  rr_index s + Z.of_nat (length (getNodes ns (rr_nodeType s))) <= int_max ->
  replicaNum <= Z.of_nat (length (getNodes ns (rr_nodeType s))) ->
  RoundRobin_Select draws s ns excludeHosts replicaNum = Ret r ->
  let walk := rotate (Z.to_nat (rr_index s))
                (sort_Slice (fun a b => GetID a <? GetID b)
                   (getNodes ns (rr_nodeType s))) in
  sr_hooked r = take (Z.to_nat replicaNum)
                  (List.filter (eligible (rr_nodeType s) excludeHosts) walk) /\
  peers (sr_ret r) = map mkPeer (sr_hooked r) /\
  sr_examined r = take (length (sr_examined r)) walk.
Proof.
  intros Hi Hmax Hlen Hsel walk.
  destruct (decide (replicaNum = 0)) as [->|H0].
  { revert Hsel. unfold RoundRobin_Select. simpl. intros ?; simplify_eq. simpl.
    by rewrite take_0. }
  rewrite RoundRobin_Select_scan in Hsel by done. cbv zeta in Hsel. fold walk in Hsel.
  pose proof (pickScan_take_filter (eligible (rr_nodeType s) excludeHosts)
                (Z.to_nat replicaNum) walk) as Hp.
  pose proof (pickScan_examined_prefix (eligible (rr_nodeType s) excludeHosts)
                (Z.to_nat replicaNum) walk) as He.
  destruct (_ <? replicaNum); [by simplify_eq|].
  destruct (reshuffleHosts _ _); by simplify_eq.
Qed.

Lemma RoundRobin_picks_in_turn_witness :
  sr_hooked rrSecondCall =
    take (Z.to_nat 2)
      (List.filter (eligible DataNodeDisk [])
         (rotate (Z.to_nat 2)
            (sort_Slice (fun a b => GetID a <? GetID b) (getNodes fleetFive DataNodeDisk)))) /\
  peers (sr_ret rrSecondCall) = map mkPeer (sr_hooked rrSecondCall) /\
  sr_examined rrSecondCall =
    take (length (sr_examined rrSecondCall))
      (rotate (Z.to_nat 2)
         (sort_Slice (fun a b => GetID a <? GetID b) (getNodes fleetFive DataNodeDisk))).
Proof.
  apply (RoundRobin_picks_in_turn [] {| rr_index := 2; rr_nodeType := DataNodeDisk |}
           fleetFive [] 2 rrSecondCall).
  - simpl. lia.
  - vm_compute. discriminate.
  - vm_compute. discriminate.
  - vm_compute. reflexivity.
Defined.

(** X15.  AvailableSpaceFirst picks from the top.  On a node-set of at least
    [replicaNum] nodes, the nodes whose hook is invoked, and the peers
    reported, are, in this order, the first [replicaNum] nodes of the sorted
    slice that can take a partition and are not excluded; their available
    space never increases along the list. *)
Theorem AvailableSpaceFirst_picks_from_top `{GoLib} (draws : list nat)
    (s : AvailableSpaceFirstNodeSelector) (ns : nodeSet) (excludeHosts : list string)
    (replicaNum : Z) (r : ScanResult AvailableSpaceFirstNodeSelector) :
  replicaNum <= Z.of_nat (length (getNodes ns (asf_nodeType s))) ->
  AvailableSpaceFirst_Select draws s ns excludeHosts replicaNum = Ret r ->
  sr_hooked r =
    take (Z.to_nat replicaNum)
      (List.filter (eligible (asf_nodeType s) excludeHosts)
         (sort_Slice (fun a b => getNodeAvailableSpace (asf_nodeType s) b
                                 <? getNodeAvailableSpace (asf_nodeType s) a)
            (getNodes ns (asf_nodeType s)))) /\
  peers (sr_ret r) = map mkPeer (sr_hooked r) /\
  StronglySorted (fun a b => getNodeAvailableSpace (asf_nodeType s) b
                             <= getNodeAvailableSpace (asf_nodeType s) a)
    (sr_hooked r).
Proof.
  intros Hlen Hsel.
  set (sorted := sort_Slice (fun a b => getNodeAvailableSpace (asf_nodeType s) b
                                        <? getNodeAvailableSpace (asf_nodeType s) a)
                   (getNodes ns (asf_nodeType s))).
  assert (StronglySorted (fun a b => getNodeAvailableSpace (asf_nodeType s) b
                                     <= getNodeAvailableSpace (asf_nodeType s) a)
            sorted) as Hsorted.
  { eapply StronglySorted_impl; [|apply sort_Slice_sorted, availableSpace_order].
    intros a b Hab. apply Z.ltb_ge in Hab. exact Hab. }
  destruct (decide (replicaNum = 0)) as [->|H0].
  { revert Hsel. unfold AvailableSpaceFirst_Select. simpl. intros ?; simplify_eq. simpl.
    rewrite take_0. repeat split; constructor. }
  rewrite AvailableSpaceFirst_Select_scan in Hsel by done. cbv zeta in Hsel.
  fold sorted in Hsel.
  pose proof (pickScan_take_filter (eligible (asf_nodeType s) excludeHosts)
                (Z.to_nat replicaNum) sorted) as Hp.
  assert (StronglySorted (fun a b => getNodeAvailableSpace (asf_nodeType s) b
                                     <= getNodeAvailableSpace (asf_nodeType s) a)
            (pickScan (eligible (asf_nodeType s) excludeHosts)
               (Z.to_nat replicaNum) sorted).1) as Hs.
  { rewrite Hp. eapply StronglySorted_sublist_of; [apply take_filter_sublist|done]. }
  destruct (_ <? replicaNum); [by simplify_eq|].
  destruct (reshuffleHosts _ _); by simplify_eq.
Qed.

Lemma AvailableSpaceFirst_picks_from_top_witness :
  sr_hooked scenarioS2 =
    take (Z.to_nat 3)
      (List.filter (eligible DataNodeDisk ["n1"])
         (sort_Slice (fun a b => getNodeAvailableSpace DataNodeDisk b
                                 <? getNodeAvailableSpace DataNodeDisk a)
            (getNodes fleetFive DataNodeDisk))) /\
  peers (sr_ret scenarioS2) = map mkPeer (sr_hooked scenarioS2) /\
  StronglySorted (fun a b => getNodeAvailableSpace DataNodeDisk b
                             <= getNodeAvailableSpace DataNodeDisk a)
    (sr_hooked scenarioS2).
Proof.
  apply (AvailableSpaceFirst_picks_from_top [2; 0; 1]%nat {| asf_nodeType := DataNodeDisk |}
           fleetFive ["n1"] 3 scenarioS2).
  - vm_compute. discriminate.
  - vm_compute. reflexivity.
Defined.

(** X16.  RoundRobin does not depend on the order in which [Range] hands
    out the nodes: when the ids of the nodes are distinct, two node-sets with
    the same nodes give the same result, cursor included. *)
Theorem RoundRobin_Select_any_range_order `{GoLib} (draws : list nat)
    (s : RoundRobinNodeSelector) (ns ns' : nodeSet) (excludeHosts : list string)
    (replicaNum : Z) :
  NoDup (map GetID (getNodes ns (rr_nodeType s))) ->
  getNodes ns' (rr_nodeType s) ≡ₚ getNodes ns (rr_nodeType s) ->
  RoundRobin_Select draws s ns' excludeHosts replicaNum =
  RoundRobin_Select draws s ns excludeHosts replicaNum.
Proof.
  intros Hnd Hperm. unfold RoundRobin_Select.
  rewrite (sort_by_id_unique (getNodes ns (rr_nodeType s)) (getNodes ns' (rr_nodeType s)))
    by done.
  by rewrite (Permutation_length Hperm).
Qed.

Lemma RoundRobin_Select_any_range_order_witness :
  RoundRobin_Select [] (NewRoundRobinNodeSelector DataNodeDisk) (dataFleet [n2; n1]) [] 1 =
  RoundRobin_Select [] (NewRoundRobinNodeSelector DataNodeDisk) (dataFleet [n1; n2]) [] 1.
Proof.
  apply (RoundRobin_Select_any_range_order [] (NewRoundRobinNodeSelector DataNodeDisk)
           (dataFleet [n1; n2]) (dataFleet [n2; n1]) [] 1).
  - apply (bool_decide_unpack _). vm_compute. exact I.
  - apply Permutation_swap.
Defined.

(** ** Straw: one draw *)

Lemma strawStep_fold_rand `{GoLib} nodeType nodes rand i maxStraw index maxNode :
  let '(rand', _, _, _, _) :=
    fold_left (strawStep nodeType) nodes (rand, i, maxStraw, index, maxNode) in
  rand_src rand' = rand_src rand /\
  rand_pos rand' = (rand_pos rand + length nodes)%nat.
Proof.
  revert rand i maxStraw index maxNode.
  induction nodes as [|x nodes IH]; intros rand i maxStraw index maxNode.
  - simpl. split; [done|lia].
  - cbn [fold_left]. unfold strawStep at 2. unfold Intn.
    match goal with |- context [if ?c then _ else _] => destruct c end.
    + match goal with |- context [fold_left _ _ (?r, ?a, ?b, ?c, ?d)] =>
        specialize (IH r a b c d) end.
      destruct (fold_left _ _ _) as [[[[rand' ?] ?] ?] ?].
      destruct IH as [Hs Hp]. cbn in Hs, Hp. split; [done|]. rewrite Hp. simpl. lia.
    + match goal with |- context [fold_left _ _ (?r, ?a, ?b, ?c, ?d)] =>
        specialize (IH r a b c d) end.
      destruct (fold_left _ _ _) as [[[[rand' ?] ?] ?] ?].
      destruct IH as [Hs Hp]. cbn in Hs, Hp. split; [done|]. rewrite Hp. simpl. lia.
Qed.

(** X17.  One draw of Straw.  [selectOneNode] takes one number from the
    random source for each node it is given, no more and no fewer.  On an
    empty slice it returns index -1 and no node; otherwise the index it
    returns is within the slice and the node it returns is the node at that
    index. *)
Theorem selectOneNode_draws `{GoLib} (nodeType : NodeResourceType) (rand : Rand)
    (nodes : list Node) :
  let '(index, maxNode, rand') := selectOneNode nodeType rand nodes in
  rand_src rand' = rand_src rand /\
  rand_pos rand' = (rand_pos rand + length nodes)%nat /\
  match nodes with
  | [] => index = -1 /\ maxNode = None
  | _ :: _ => 0 <= index < Z.of_nat (length nodes) /\
              is_Some maxNode /\ nodes !! Z.to_nat index = maxNode
  end.
Proof.
  pose proof (strawStep_fold_rand nodeType nodes rand 0 0%float (-1) None) as Hr.
  destruct nodes as [|x nodes].
  { simpl in *. by destruct Hr. }
  destruct (selectOneNode_spec nodeType rand (x :: nodes) ltac:(done))
    as (j & node & rand' & Hsel & Hj).
  rewrite Hsel. revert Hsel. unfold selectOneNode.
  destruct (fold_left _ _ _) as [[[[rand0 ?] ?] ?] ?].
  intros ?; simplify_eq. destruct Hr as [Hs Hp].
  split; [done|]. split; [done|].
  pose proof (lookup_lt_Some _ _ _ Hj) as Hlt.
  split; [lia|]. split; [by eexists|]. by rewrite Nat2Z.id.
Qed.

(** ** Making a selector *)

(** X18.  [NewNodeSelector] gives, for each of the four policy names, the
    selector that answers to that name, and the CarryWeight selector for
    every other name; the selector is bound to the resource type that was
    asked for and starts from scratch: cursor 0, empty carry map. *)
Theorem NewNodeSelector_name (rand : Rand) (name : string) (nodeType : NodeResourceType) :
  GetName (NewNodeSelector rand name nodeType)
    = (if bool_decide (name ∈ selectorNames) then name else "CarryWeight") /\
  selectorType (NewNodeSelector rand name nodeType) = nodeType /\
  match NewNodeSelector rand name nodeType with
  | RoundRobin s => rr_index s = 0
  | CarryWeight s => cw_carry s = ∅
  | AvailableSpaceFirst _ => True
  | Straw s => st_rand s = rand
  end.
Proof.
  unfold NewNodeSelector, selectorNames.
  destruct (String.eqb_spec name "RoundRobin") as [->|H1]; [done|].
  destruct (String.eqb_spec name "CarryWeight") as [->|H2]; [done|].
  destruct (String.eqb_spec name "AvailableSpaceFirst") as [->|H3]; [done|].
  destruct (String.eqb_spec name "Straw") as [->|H4]; [done|].
  split; [|done]. rewrite bool_decide_eq_false_2; [done|].
  rewrite !elem_of_cons. intros [?|[?|[?|[?|Hnil]]]]; try done.
  by apply elem_of_nil in Hnil.
Qed.

(** X19.  [Select] never turns a selector into one of another policy or of
    another resource type, whatever it returns; and AvailableSpaceFirst
    keeps no state at all between calls. *)
Theorem Select_keeps_policy `{GoLib} (fuel : nat) (draws : list nat) (sel : NodeSelector)
    (ns : nodeSet) (excludeHosts : list string) (replicaNum : Z)
    (ret : SelectReturn) (sel' : NodeSelector) (hooked : list Node) :
  Select fuel draws sel ns excludeHosts replicaNum = Ret (ret, sel', hooked) ->
  GetName sel' = GetName sel /\
  selectorType sel' = selectorType sel /\
  match sel with AvailableSpaceFirst _ => sel' = sel | _ => True end.
Proof.
  destruct sel as [s|s|s|s]; simpl.
  - destruct (RoundRobin_Select _ _ _ _ _) as [r| |] eqn:Hsel; cbn [mbind run_bind]; [|done..].
    intros ?; simplify_eq. split; [done|]. split; [|done]. simpl.
    revert Hsel. unfold RoundRobin_Select.
    destruct (replicaNum =? 0); [by intros ?; simplify_eq|].
    destruct (_ <? replicaNum); [by intros ?; simplify_eq|].
    destruct (rr_loop _ _ _ _ _ _ _ _) as [st| |]; cbn [mbind run_bind]; [|done..].
    destruct (_ <? replicaNum); [by intros ?; simplify_eq|].
    destruct (reshuffleHosts _ _); by intros ?; simplify_eq.
  - destruct (AvailableSpaceFirst_Select _ _ _ _ _) as [r| |] eqn:Hsel;
      cbn [mbind run_bind]; [|done..].
    intros ?; simplify_eq. split; [done|].
    assert (sr_sel r = s) as ->; [|done].
    revert Hsel. unfold AvailableSpaceFirst_Select.
    destruct (replicaNum =? 0); [by intros ?; simplify_eq|].
    destruct (_ <? replicaNum); [by intros ?; simplify_eq|].
    destruct (asf_loop _ _ _ _ _ _ _) as [st| |]; cbn [mbind run_bind]; [|done..].
    destruct (_ <? replicaNum); [by intros ?; simplify_eq|].
    destruct (reshuffleHosts _ _); by intros ?; simplify_eq.
  - destruct (CarryWeight_Select _ _ _ _ _ _) as [[[ret0 s0] h0]| |] eqn:Hsel;
      cbn [mbind run_bind]; [|done..].
    intros ?; simplify_eq. split; [done|]. split; [|done]. simpl.
    revert Hsel. unfold CarryWeight_Select.
    destruct (replicaNum =? 0); [by intros ?; simplify_eq|].
    destruct (getCarryNodes _ _ _ _ _) as [weightedNodes count].
    destruct (_ <? replicaNum); [by intros ?; simplify_eq|].
    destruct (setNodeCarry _ _ _ _ _) as [[carry1 weighted1]| |];
      cbn [mbind run_bind]; [|done..].
    destruct (reshuffleHosts _ _); by intros ?; simplify_eq.
  - destruct (Straw_Select _ _ _ _ _) as [[[ret0 s0] h0]| |] eqn:Hsel;
      cbn [mbind run_bind]; [|done..].
    intros ?; simplify_eq. split; [done|]. split; [|done]. simpl.
    revert Hsel. unfold Straw_Select.
    destruct (straw_loop _ _ _ _) as [st| |]; cbn [mbind run_bind]; [|done..].
    destruct (_ <? replicaNum); [by intros ?; simplify_eq|].
    destruct (reshuffleHosts _ _); by intros ?; simplify_eq.
Qed.

Lemma Select_keeps_policy_witness :
  GetName (AvailableSpaceFirst (NewAvailableSpaceFirstNodeSelector DataNodeDisk))
    = "AvailableSpaceFirst" /\
  selectorType (AvailableSpaceFirst (NewAvailableSpaceFirstNodeSelector DataNodeDisk))
    = DataNodeDisk /\
  AvailableSpaceFirst (NewAvailableSpaceFirstNodeSelector DataNodeDisk)
    = AvailableSpaceFirst (NewAvailableSpaceFirstNodeSelector DataNodeDisk).
Proof.
  apply (Select_keeps_policy 0 []
           (AvailableSpaceFirst (NewAvailableSpaceFirstNodeSelector DataNodeDisk))
           fleetOneWritable [] 2
           {| newHosts := []; peers := [mkPeer (DataNodePtr nodeA)];
              err := Some (ErrNoEnoughWritableHosts 2 1) |}
           (AvailableSpaceFirst (NewAvailableSpaceFirstNodeSelector DataNodeDisk))
           [DataNodePtr nodeA]).
  vm_compute. reflexivity.
Defined.

(** ** The callers of [Select] *)

Lemma selectOutcome_hosts nodes nodeType excludeHosts replicaNum ret hooked :
  selectOutcome nodes nodeType excludeHosts replicaNum ret hooked ->
  err ret = None ->
  Z.of_nat (length (newHosts ret)) = replicaNum /\
  Forall (fun h => (h ∉ excludeHosts) /\
            exists n, n ∈ nodes /\ GetAddr n = h /\ canAllocPartition n nodeType = true)
    (newHosts ret).
Proof.
  intros (Hsub & Hok & _ & Hcase) Herr.
  destruct Hcase as [(_ & Hperm & Hlen)|(Hne & _)]; [|done].
  split; [by rewrite Hperm, length_map|].
  apply list.Forall_forall. intros h Hh. rewrite Hperm in Hh.
  apply list_elem_of_fmap in Hh as (n & -> & Hn).
  rewrite list.Forall_forall in Hok. destruct (Hok n Hn) as [Hw Hex].
  split; [done|]. exists n. split; [|done]. by eapply elem_of_submseteq.
Qed.

(** X20.  [getAvailDataNodeHosts] runs the data selector of the node-set
    and nothing else: what it returns is what [Select] of that selector
    returns on the nodes of the set, the data selector of the set after the
    call is that selector as [Select] left it, and the nodes and the two
    meta selectors are as before.  If that selector is bound to
    [DataNodeDisk], a call that succeeds returns [replicaNum] hosts, each
    the address of a data node of the set for which [canAlloc] and
    [canAllocDp] hold, none of them excluded. *)
Theorem getAvailDataNodeHosts_hosts `{GoLib} (fuel : nat) (draws : list nat)
    (ns : nodeSetWithSelectors) (excludeHosts : list string) (replicaNum : Z)
    (ret : SelectReturn) (ns' : nodeSetWithSelectors) (hooked : list Node) :
  selectorType (dataNodeDiskSelector ns) = DataNodeDisk ->
  cursorInRange (dataNodeDiskSelector ns) (nss_nodes ns) ->
  getAvailDataNodeHosts fuel draws ns excludeHosts replicaNum = Ret (ret, ns', hooked) ->
  Select fuel draws (dataNodeDiskSelector ns) (nss_nodes ns) excludeHosts replicaNum
    = Ret (ret, dataNodeDiskSelector ns', hooked) /\
  nss_nodes ns' = nss_nodes ns /\
  metaNodeMemorySelector ns' = metaNodeMemorySelector ns /\
  metaNodeRocksdbSelector ns' = metaNodeRocksdbSelector ns /\
  (err ret = None ->
   Z.of_nat (length (newHosts ret)) = replicaNum /\
   Forall (fun h => (h ∉ excludeHosts) /\
             exists d, d ∈ dataNodes (nss_nodes ns) /\ dn_Addr d = h /\
                       dn_canAlloc d = true /\ dn_canAllocDp d = true)
     (newHosts ret)).
Proof.
  intros Htype Hcur. unfold getAvailDataNodeHosts.
  destruct (Select _ _ _ _ _ _) as [[[ret0 sel0] h0]| |] eqn:Hsel;
    cbn [mbind run_bind]; [|done..].
  intros ?; simplify_eq. cbn. split; [done|]. split; [done|]. split; [done|].
  split; [done|].
  intros Herr. apply Select_outcome in Hsel as [Hout _]; [|done].
  destruct (selectOutcome_hosts _ _ _ _ _ _ Hout Herr) as [Hlen Hall].
  split; [done|].
  eapply Forall_impl; [exact Hall|]. intros h [Hex (n & Hn & Haddr & Hw)].
  split; [done|]. rewrite Htype in Hn, Hw. simpl in Hn.
  apply list_elem_of_fmap in Hn as (d & -> & Hd). simpl in *.
  apply andb_true_iff in Hw as [Hw1 Hw2]. by exists d.
Qed.

Lemma getAvailDataNodeHosts_hosts_witness :
  Select 0 [] (CarryWeight (NewCarryWeightNodeSelector DataNodeDisk)) fleetOneWritable [] 1
    = Ret ({| newHosts := ["A"]; peers := [mkPeer (DataNodePtr nodeA)]; err := None |},
           CarryWeight {| cw_nodeType := DataNodeDisk;
                          cw_carry := {[ 1 := 0%float; 2 := 0%float ]} |},
           [DataNodePtr nodeA]) /\
  Z.of_nat (length ["A"]) = 1 /\
  Forall (fun h => (h ∉ ([] : list string)) /\
            exists d, d ∈ dataNodes fleetOneWritable /\ dn_Addr d = h /\
                      dn_canAlloc d = true /\ dn_canAllocDp d = true)
    ["A"].
Proof.
  pose proof (getAvailDataNodeHosts_hosts 0 []
    {| nss_nodes := fleetOneWritable;
       dataNodeDiskSelector := CarryWeight (NewCarryWeightNodeSelector DataNodeDisk);
       metaNodeMemorySelector := CarryWeight (NewCarryWeightNodeSelector MetaNodeMemory);
       metaNodeRocksdbSelector := CarryWeight (NewCarryWeightNodeSelector MetaNodeRocksdb) |}
    [] 1
    {| newHosts := ["A"]; peers := [mkPeer (DataNodePtr nodeA)]; err := None |}
    {| nss_nodes := fleetOneWritable;
       dataNodeDiskSelector :=
         CarryWeight {| cw_nodeType := DataNodeDisk;
                        cw_carry := {[ 1 := 0%float; 2 := 0%float ]} |};
       metaNodeMemorySelector := CarryWeight (NewCarryWeightNodeSelector MetaNodeMemory);
       metaNodeRocksdbSelector := CarryWeight (NewCarryWeightNodeSelector MetaNodeRocksdb) |}
    [DataNodePtr nodeA]) as Hw.
  destruct Hw as (Hsel & _ & _ & _ & Hhosts).
  - reflexivity.
  - exact I.
  - vm_compute. reflexivity.
  - split; [exact Hsel|]. apply Hhosts. reflexivity.
Defined.

(** X21.  [getAvailMetaNodeHosts] runs the RocksDB selector when the store
    mode is RocksDB and the memory selector otherwise: what it returns is
    what [Select] of that selector returns on the nodes of the set, and that
    selector of the set after the call is the selector as [Select] left it.
    The other two selectors and the nodes are as before.  If the selector it
    runs is
    bound to the resource type of that store mode, a call that succeeds
    returns [replicaNum] hosts, each the address of a meta node of the set
    that is writable in that store mode, none of them excluded. *)
Theorem getAvailMetaNodeHosts_hosts `{GoLib} (fuel : nat) (draws : list nat)
    (ns : nodeSetWithSelectors) (excludeHosts : list string) (replicaNum : Z)
    (storeMode : StoreMode)
    (ret : SelectReturn) (ns' : nodeSetWithSelectors) (hooked : list Node) :
  match storeMode with
  | StoreModeRocksDb =>
      selectorType (metaNodeRocksdbSelector ns) = MetaNodeRocksdb /\
      cursorInRange (metaNodeRocksdbSelector ns) (nss_nodes ns)
  | StoreModeMem =>
      selectorType (metaNodeMemorySelector ns) = MetaNodeMemory /\
      cursorInRange (metaNodeMemorySelector ns) (nss_nodes ns)
  end ->
  getAvailMetaNodeHosts fuel draws ns excludeHosts replicaNum storeMode
    = Ret (ret, ns', hooked) ->
  Select fuel draws
    match storeMode with
    | StoreModeRocksDb => metaNodeRocksdbSelector ns
    | StoreModeMem => metaNodeMemorySelector ns
    end
    (nss_nodes ns) excludeHosts replicaNum
    = Ret (ret,
           match storeMode with
           | StoreModeRocksDb => metaNodeRocksdbSelector ns'
           | StoreModeMem => metaNodeMemorySelector ns'
           end,
           hooked) /\
  nss_nodes ns' = nss_nodes ns /\
  dataNodeDiskSelector ns' = dataNodeDiskSelector ns /\
  match storeMode with
  | StoreModeRocksDb => metaNodeMemorySelector ns' = metaNodeMemorySelector ns
  | StoreModeMem => metaNodeRocksdbSelector ns' = metaNodeRocksdbSelector ns
  end /\
  (err ret = None ->
   Z.of_nat (length (newHosts ret)) = replicaNum /\
   Forall (fun h => (h ∉ excludeHosts) /\
             exists m, m ∈ metaNodes (nss_nodes ns) /\ mn_Addr m = h /\
                       isWritable m storeMode = true)
     (newHosts ret)).
Proof.
  intros Hpre. unfold getAvailMetaNodeHosts.
  destruct storeMode; destruct Hpre as [Htype Hcur];
    (destruct (Select _ _ _ _ _ _) as [[[ret0 sel0] h0]| |] eqn:Hsel;
       cbn [mbind run_bind]; [|done..]);
    intros ?; simplify_eq; cbn; (split; [done|]); (split; [done|]); (split; [done|]);
    (split; [done|]);
    intros Herr; apply Select_outcome in Hsel as [Hout _]; try done;
    destruct (selectOutcome_hosts _ _ _ _ _ _ Hout Herr) as [Hlen Hall];
    (split; [done|]);
    (eapply Forall_impl; [exact Hall|]); intros h [Hex (n & Hn & Haddr & Hw)];
    (split; [done|]); rewrite Htype in Hn, Hw; simpl in Hn;
    apply list_elem_of_fmap in Hn as (m & -> & Hm); simpl in *; by exists m.
Qed.

Lemma getAvailMetaNodeHosts_hosts_witness :
  Select 0 [] (metaNodeRocksdbSelector clusterAM) (nss_nodes clusterAM) [] 1
    = Ret ({| newHosts := ["M"]; peers := [mkPeer (MetaNodePtr metaM)]; err := None |},
           metaNodeRocksdbSelector clusterAM, [MetaNodePtr metaM]) /\
  Z.of_nat (length ["M"]) = 1 /\
  Forall (fun h => (h ∉ ([] : list string)) /\
            exists m, m ∈ metaNodes (nss_nodes clusterAM) /\ mn_Addr m = h /\
                      isWritable m StoreModeRocksDb = true)
    ["M"].
Proof.
  pose proof (getAvailMetaNodeHosts_hosts 0 [] clusterAM [] 1 StoreModeRocksDb
    {| newHosts := ["M"]; peers := [mkPeer (MetaNodePtr metaM)]; err := None |}
    clusterAM [MetaNodePtr metaM]) as Hw.
  destruct Hw as (Hsel & _ & _ & _ & Hhosts).
  - split; [reflexivity|exact I].
  - vm_compute. reflexivity.
  - split; [exact Hsel|]. apply Hhosts. reflexivity.
Defined.

Lemma CarryWeight_Select_charges_carry_witness :
  exists carry1 nodes1,
    setNodeCarry 0 (prepareCarry DataNodeDisk ∅ fleetOneWritable 100)
      (getCarryNodes DataNodeDisk (prepareCarry DataNodeDisk ∅ fleetOneWritable 100)
         fleetOneWritable 100 []).1
      (getCarryNodes DataNodeDisk (prepareCarry DataNodeDisk ∅ fleetOneWritable 100)
         fleetOneWritable 100 []).2 1 = Ret (carry1, nodes1) /\
    DataNodeDisk = DataNodeDisk /\
    forall id,
      carry_at ({[ 1 := 0%float; 2 := 0%float ]} : gmap Z float) id =
      if bool_decide (id ∈ map GetID [DataNodePtr nodeA])
      then (carry_at carry1 id - 1)%float else carry_at carry1 id.
Proof.
  refine (CarryWeight_Select_charges_carry 0 [] (NewCarryWeightNodeSelector DataNodeDisk)
            fleetOneWritable [] 1
            {| newHosts := ["A"]; peers := [mkPeer (DataNodePtr nodeA)]; err := None |}
            {| cw_nodeType := DataNodeDisk;
               cw_carry := {[ 1 := 0%float; 2 := 0%float ]} |}
            [DataNodePtr nodeA] _ _ _ _).
  - apply (bool_decide_unpack _). vm_compute. exact I.
  - lia.
  - vm_compute. reflexivity.
  - reflexivity.
Defined.

(** ** The cursor of RoundRobin stays in range *)

(** X22.  A call of RoundRobin never moves the cursor backwards and never
    moves it by more than the size of the node-set: a cursor that is not
    negative, and not within one round of the largest [int], is not negative
    afterwards. *)
Theorem RoundRobin_cursor_step `{GoLib} (draws : list nat) (s : RoundRobinNodeSelector)
    (ns : nodeSet) (excludeHosts : list string) (replicaNum : Z)
    (r : ScanResult RoundRobinNodeSelector) :
  0 <= rr_index s ->
  rr_index s + Z.of_nat (length (getNodes ns (rr_nodeType s))) <= int_max ->
  RoundRobin_Select draws s ns excludeHosts replicaNum = Ret r ->
  rr_index s <= rr_index (sr_sel r)
    <= rr_index s + Z.of_nat (length (getNodes ns (rr_nodeType s))) /\
  Z.of_nat (length (sr_examined r)) <= Z.of_nat (length (getNodes ns (rr_nodeType s))).
Proof.
  intros Hi Hmax Hsel.
  split; [by apply (RoundRobin_cursor_monotone draws s ns excludeHosts replicaNum r)|].
  destruct (decide (replicaNum = 0)) as [->|H0].
  { revert Hsel. unfold RoundRobin_Select. simpl. intros ?; simplify_eq. simpl. lia. }
  destruct (Z.lt_ge_cases (Z.of_nat (length (getNodes ns (rr_nodeType s)))) replicaNum)
    as [Hlt|Hge].
  { revert Hsel. unfold RoundRobin_Select. apply Z.eqb_neq in H0. rewrite H0.
    apply Z.ltb_lt in Hlt. rewrite Hlt. intros ?; simplify_eq. simpl. lia. }
  rewrite RoundRobin_Select_scan in Hsel by done. cbv zeta in Hsel.
  pose proof (pickScan_examined_length (eligible (rr_nodeType s) excludeHosts)
                (Z.to_nat replicaNum)
                (rotate (Z.to_nat (rr_index s))
                   (sort_Slice (fun a b => GetID a <? GetID b)
                      (getNodes ns (rr_nodeType s))))) as Hle.
  assert (length (sort_Slice (fun a b => GetID a <? GetID b) (getNodes ns (rr_nodeType s)))
          = length (getNodes ns (rr_nodeType s))) as Hlens by (by rewrite sort_Slice_perm).
  rewrite length_rotate, Hlens in Hle.
  destruct (_ <? replicaNum); [simplify_eq; simpl; lia|].
  destruct (reshuffleHosts _ _); simplify_eq; simpl; lia.
Qed.

Lemma RoundRobin_cursor_step_witness :
  rr_index {| rr_index := 2; rr_nodeType := DataNodeDisk |} <= rr_index (sr_sel rrSecondCall)
    <= rr_index {| rr_index := 2; rr_nodeType := DataNodeDisk |}
       + Z.of_nat (length (getNodes fleetFive DataNodeDisk)) /\
  Z.of_nat (length (sr_examined rrSecondCall))
    <= Z.of_nat (length (getNodes fleetFive DataNodeDisk)).
Proof.
  apply (RoundRobin_cursor_step [] {| rr_index := 2; rr_nodeType := DataNodeDisk |}
           fleetFive [] 2 rrSecondCall).
  - simpl. lia.
  - vm_compute. discriminate.
  - vm_compute. reflexivity.
Defined.

(** ** The order of carries and the local contract of the sort *)

Section InsertionSortOn.
Context {A : Type} (less : A -> A -> bool) (P : A -> Prop).
Hypothesis Hsw : strict_weak_on P less.

Lemma insert_left_sorted_on x rprefix :
  P x -> Forall P rprefix ->
  StronglySorted (fun a b => less a b = false) rprefix ->
  StronglySorted (fun a b => less a b = false) (insert_left less x rprefix).
Proof.
  destruct Hsw as [Hasym Hneg]. intros Hx.
  induction rprefix as [|y r IH]; simpl; intros HP Hs.
  - repeat constructor.
  - apply Forall_cons in HP as [Hy HP].
    apply StronglySorted_cons in Hs as [Hyr Hr].
    rewrite list.Forall_forall in Hyr, HP.
    destruct (less x y) eqn:Hxy.
    + apply StronglySorted_cons. split; [|apply IH; [by apply list.Forall_forall|done]].
      apply list.Forall_forall. intros z Hz.
      rewrite insert_left_perm in Hz.
      apply elem_of_cons in Hz as [->|Hz]; [by apply Hasym|by apply Hyr].
    + apply StronglySorted_cons. split.
      * apply list.Forall_forall. intros z Hz.
        apply elem_of_cons in Hz as [->|Hz]; [done|].
        apply (Hneg x y z); try done; [by apply HP|by apply Hyr].
      * apply StronglySorted_cons. split; [by apply list.Forall_forall|done].
Qed.

Lemma fold_insert_left_sorted_on l acc :
  Forall P l -> Forall P acc ->
  StronglySorted (fun a b => less a b = false) acc ->
  StronglySorted (fun a b => less a b = false)
    (fold_left (fun rprefix x => insert_left less x rprefix) l acc).
Proof.
  intros Hl. revert acc. induction Hl as [|x l Hx Hl IH]; intros acc HP Hacc; simpl; [done|].
  apply IH.
  - apply list.Forall_forall. intros z Hz. rewrite insert_left_perm in Hz.
    apply elem_of_cons in Hz as [->|Hz]; [done|].
    rewrite list.Forall_forall in HP. by apply HP.
  - by apply insert_left_sorted_on.
Qed.

Lemma insertionSort_sorted_on l :
  Forall P l ->
  StronglySorted (fun a b => less b a = false) (insertionSort less l).
Proof.
  intros Hl. unfold insertionSort.
  apply (StronglySorted_rev_flip (fun a b => less a b = false)).
  apply fold_insert_left_sorted_on; [done|constructor|constructor].
Qed.
End InsertionSortOn.

#[global] Instance insertionSortLocal : @GoSortLocal insertionLib.
Proof.
  constructor. intros A less l Hsw. simpl.
  apply (insertionSort_sorted_on less (fun x => x ∈ l)); [done|].
  by apply list.Forall_forall.
Qed.

Lemma SFcompare_ge_trans (a b c : spec_float) :
  a <> S754_nan -> b <> S754_nan -> c <> S754_nan ->
  SFcompare c b <> Some Lt -> SFcompare b a <> Some Lt -> SFcompare c a <> Some Lt.
Proof.
  intros Ha Hb Hc.
  destruct a as [sa|sa| |sa ma ea]; [| |done|];
  destruct b as [sb|sb| |sb mb eb]; try done;
  destruct c as [sc|sc| |sc mc ec]; try done;
  simpl; repeat match goal with s : bool |- _ => destruct s end; simpl; try done;
  fold (Pos.compare mc mb) (Pos.compare mb ma) (Pos.compare mc ma);
  destruct (Z.compare_spec ec eb), (Z.compare_spec eb ea), (Z.compare_spec ec ea);
    subst; try lia; try done;
  destruct (Pos.compare_spec mc mb), (Pos.compare_spec mb ma), (Pos.compare_spec mc ma);
    subst; simpl; try lia; try done.
Qed.

Lemma float_ltb_false (x y : float) :
  (x <? y)%float = false <-> SFcompare (Prim2SF x) (Prim2SF y) <> Some Lt.
Proof.
  rewrite FloatAxioms.ltb_spec. unfold SFltb.
  destruct (SFcompare (Prim2SF x) (Prim2SF y)) as [[]|]; split; congruence.
Qed.

Lemma float_ltb_asym (x y : float) : (x <? y)%float = true -> (y <? x)%float = false.
Proof.
  rewrite !FloatAxioms.ltb_spec. unfold SFltb. rewrite (SFcompare_swap (Prim2SF x)).
  by destruct (SFcompare (Prim2SF x) (Prim2SF y)) as [[]|].
Qed.

Lemma float_ge_trans (x y z : float) :
  is_nan x = false -> is_nan y = false -> is_nan z = false ->
  (z <? y)%float = false -> (y <? x)%float = false -> (z <? x)%float = false.
Proof.
  intros Hx Hy Hz. rewrite !float_ltb_false.
  apply SFcompare_ge_trans; by apply is_nan_false.
Qed.

Lemma carry_order_on (P : weightedNode -> Prop) :
  (forall nt, P nt -> is_nan (Carry nt) = false) ->
  strict_weak_on P (fun a b => (Carry b <? Carry a)%float).
Proof.
  intros HP. split.
  - intros a b _ _. apply float_ltb_asym.
  - intros a b c Ha Hb Hc Hab Hbc.
    apply (float_ge_trans (Carry a) (Carry b) (Carry c)); auto.
Qed.

(** ** [SortedWeightedNodes] as a [sort.Interface] *)

Lemma SortedWeightedNodes_at_Some nodes i nt :
  SortedWeightedNodes_at nodes i = Some nt ->
  0 <= i < SortedWeightedNodes_Len nodes /\ nt ∈ nodes /\ nodes !! Z.to_nat i = Some nt.
Proof.
  unfold SortedWeightedNodes_at, SortedWeightedNodes_Len.
  destruct (i <? 0) eqn:Hi; [done|]. apply Z.ltb_ge in Hi. intros Hl.
  pose proof (lookup_lt_Some _ _ _ Hl) as Hlt.
  split; [lia|]. split; [by eapply list_elem_of_lookup_2|done].
Qed.

Lemma SortedWeightedNodes_at_None nodes i :
  SortedWeightedNodes_at nodes i = None ->
  ~ (0 <= i < SortedWeightedNodes_Len nodes).
Proof.
  unfold SortedWeightedNodes_at, SortedWeightedNodes_Len.
  destruct (i <? 0) eqn:Hi; [apply Z.ltb_lt in Hi; lia|].
  intros Hl. apply lookup_ge_None in Hl. lia.
Qed.

(** X23.  [Less] compares carries, larger first, and panics exactly when an
    index is outside the slice.  It never holds both ways; and on a slice
    whose carries are numbers, "neither is less" is transitive, so that
    [Less] is the strict weak order [sort.Sort] asks for. *)
Theorem SortedWeightedNodes_Less_order (nodes : list weightedNode) (i j k : Z) :
  (SortedWeightedNodes_Less nodes i j <> Panic <->
   0 <= i < SortedWeightedNodes_Len nodes /\ 0 <= j < SortedWeightedNodes_Len nodes) /\
  (SortedWeightedNodes_Less nodes i j = Ret true ->
   SortedWeightedNodes_Less nodes j i = Ret false) /\
  (carriesAreNumbers nodes ->
   SortedWeightedNodes_Less nodes i j = Ret false ->
   SortedWeightedNodes_Less nodes j k = Ret false ->
   SortedWeightedNodes_Less nodes i k = Ret false).
Proof.
  unfold SortedWeightedNodes_Less.
  destruct (SortedWeightedNodes_at nodes i) as [a|] eqn:Ha.
  2:{ apply SortedWeightedNodes_at_None in Ha. repeat split; try done. tauto. }
  destruct (SortedWeightedNodes_at nodes j) as [b|] eqn:Hb.
  2:{ apply SortedWeightedNodes_at_None in Hb. repeat split; try done. tauto. }
  apply SortedWeightedNodes_at_Some in Ha as (Hi & Ha & _).
  apply SortedWeightedNodes_at_Some in Hb as (Hj & Hb & _).
  split; [done|]. split.
  - intros ?; simplify_eq. f_equal. by apply float_ltb_asym.
  - intros Hnum Hij. destruct (SortedWeightedNodes_at nodes k) as [c|] eqn:Hc; [|done].
    apply SortedWeightedNodes_at_Some in Hc as (_ & Hc & _).
    intros Hjk. simplify_eq. f_equal.
    unfold carriesAreNumbers in Hnum. rewrite list.Forall_forall in Hnum.
    apply (float_ge_trans (Carry a) (Carry b) (Carry c)); auto.
Qed.

Lemma insert_swap_perm {A} (l : list A) (i j : nat) (a b : A) :
  l !! i = Some a -> l !! j = Some b ->
  <[j := a]> (<[i := b]> l) ≡ₚ l.
Proof.
  revert i j. induction l as [|x l IH]; intros [|i] [|j]; simpl; try done.
  - intros ??; by simplify_eq.
  - intros ? Hj; simplify_eq.
    rewrite insert_take_drop by (by eapply lookup_lt_Some).
    rewrite <- (take_drop_middle l j b Hj) at 3.
    rewrite <- !Permutation_middle. apply Permutation_swap.
  - intros Hi ?; simplify_eq.
    rewrite insert_take_drop by (by eapply lookup_lt_Some).
    rewrite <- (take_drop_middle l i a Hi) at 3.
    rewrite <- !Permutation_middle. apply Permutation_swap.
  - intros Hi Hj. constructor. by apply IH.
Qed.

Lemma insert_swap_back {A} (l : list A) (i j : nat) (a b : A) :
  l !! i = Some a -> l !! j = Some b ->
  <[j := b]> (<[i := a]> (<[j := a]> (<[i := b]> l))) = l.
Proof.
  intros Hi Hj. apply list_eq. intros k.
  pose proof (lookup_lt_Some _ _ _ Hi) as Hli.
  pose proof (lookup_lt_Some _ _ _ Hj) as Hlj.
  destruct (decide (k = j)) as [->|Hkj].
  { rewrite list_lookup_insert_eq by (by rewrite !length_insert). done. }
  rewrite list_lookup_insert_ne by done.
  destruct (decide (k = i)) as [->|Hki].
  { rewrite list_lookup_insert_eq by (by rewrite !length_insert). done. }
  by rewrite !list_lookup_insert_ne.
Qed.

(** X24.  [Swap] exchanges the entries at two indices of the slice and
    leaves the others in place: the slice keeps its length and its entries,
    and a second [Swap] of the same indices restores it.  With an index
    outside the slice it panics. *)
Theorem SortedWeightedNodes_Swap_exchanges (nodes : list weightedNode) (i j : Z) :
  match SortedWeightedNodes_Swap nodes i j with
  | Ret nodes' =>
      0 <= i < SortedWeightedNodes_Len nodes /\
      0 <= j < SortedWeightedNodes_Len nodes /\
      nodes' ≡ₚ nodes /\
      SortedWeightedNodes_Len nodes' = SortedWeightedNodes_Len nodes /\
      SortedWeightedNodes_at nodes' i = SortedWeightedNodes_at nodes j /\
      SortedWeightedNodes_at nodes' j = SortedWeightedNodes_at nodes i /\
      SortedWeightedNodes_Swap nodes' i j = Ret nodes
  | Panic =>
      ~ (0 <= i < SortedWeightedNodes_Len nodes /\
         0 <= j < SortedWeightedNodes_Len nodes)
  | NoFuel => False
  end.
Proof.
  unfold SortedWeightedNodes_Swap.
  destruct (SortedWeightedNodes_at nodes i) as [a|] eqn:Ha.
  2:{ apply SortedWeightedNodes_at_None in Ha. tauto. }
  destruct (SortedWeightedNodes_at nodes j) as [b|] eqn:Hb.
  2:{ apply SortedWeightedNodes_at_None in Hb. tauto. }
  pose proof Ha as Ha'. pose proof Hb as Hb'.
  apply SortedWeightedNodes_at_Some in Ha' as (Hi & _ & Hli).
  apply SortedWeightedNodes_at_Some in Hb' as (Hj & _ & Hlj).
  unfold SortedWeightedNodes_Len in *.
  assert (SortedWeightedNodes_at (<[Z.to_nat j := a]> (<[Z.to_nat i := b]> nodes)) j = Some a)
    as Hj'.
  { unfold SortedWeightedNodes_at. destruct (j <? 0) eqn:Hneg; [apply Z.ltb_lt in Hneg; lia|].
    apply list_lookup_insert_eq. rewrite length_insert. lia. }
  assert (SortedWeightedNodes_at (<[Z.to_nat j := a]> (<[Z.to_nat i := b]> nodes)) i = Some b)
    as Hi'.
  { unfold SortedWeightedNodes_at. destruct (i <? 0) eqn:Hneg; [apply Z.ltb_lt in Hneg; lia|].
    destruct (decide (Z.to_nat i = Z.to_nat j)) as [Heq|Hne].
    - rewrite Heq. rewrite list_lookup_insert_eq by (rewrite length_insert; lia).
      rewrite Heq in Hli. congruence.
    - rewrite list_lookup_insert_ne by done. apply list_lookup_insert_eq. lia. }
  split; [done|]. split; [done|]. split; [by apply insert_swap_perm|].
  split; [by rewrite !length_insert|]. split; [congruence|]. split; [congruence|].
  rewrite Hi', Hj'. f_equal. by apply insert_swap_back.
Qed.

(** ** CarryWeight picks the largest carries *)

Lemma setNodeCarry_synced fuel carryMap nodes count replicaNum carryMap' nodes' :
  NoDup (map (fun nt => GetID (Ptr nt)) nodes) ->
  carrySynced carryMap nodes ->
  setNodeCarry fuel carryMap nodes count replicaNum = Ret (carryMap', nodes') ->
  carrySynced carryMap' nodes'.
Proof.
  revert carryMap nodes count.
  induction fuel as [|fuel IH]; intros carryMap nodes count Hnd Hsync; simpl.
  - destruct (count <? replicaNum); [done|]. by intros ?; simplify_eq.
  - destruct (count <? replicaNum); [|by intros ?; simplify_eq].
    pose proof (carryPass_synced carryMap nodes Hnd) as Hs1.
    pose proof (carryPass_ids carryMap nodes) as Hi1.
    destruct (carryPass carryMap nodes) as [[m1 n1] c1]. cbn [fst snd] in *.
    apply IH; [by rewrite Hi1|done].
Qed.

(** X25.  CarryWeight picks the largest carries.  After a call that
    succeeded, if the carries the advancement loop ended with are numbers,
    no candidate that was left out had, at the end of that loop, a carry
    above the carry of a node that was picked.  (The sort is taken with its
    local contract: it orders a slice on which [Less] is a strict weak
    order.) *)
Theorem CarryWeight_picks_largest_carries `{GoLib} `{!GoSortLocal} (fuel : nat)
    (draws : list nat) (s : CarryWeightNodeSelector) (ns : nodeSet)
    (excludeHosts : list string) (replicaNum : Z)
    (ret : SelectReturn) (s' : CarryWeightNodeSelector) (hooked : list Node) :
  NoDup (map GetID (getNodes ns (cw_nodeType s))) ->
  replicaNum <> 0 ->
  CarryWeight_Select fuel draws s ns excludeHosts replicaNum = Ret (ret, s', hooked) ->
  err ret = None ->
  let total := getTotalMax (cw_nodeType s) ns in
  let carry0 := prepareCarry (cw_nodeType s) (cw_carry s) ns total in
  let cand := getCarryNodes (cw_nodeType s) carry0 ns total excludeHosts in
  exists carry1 nodes1,
    setNodeCarry fuel carry0 cand.1 cand.2 replicaNum = Ret (carry1, nodes1) /\
    (carriesAreNumbers nodes1 ->
     forall p q,
       p ∈ hooked ->
       q ∈ getNodes ns (cw_nodeType s) ->
       eligible (cw_nodeType s) excludeHosts q = true ->
       q ∉ hooked ->
       (carry_at carry1 (GetID p) <? carry_at carry1 (GetID q))%float = false).
Proof.
  intros Hnd Hnz Hsel Herr total carry0 cand.
  pose proof (getCarryNodes_Ptr (cw_nodeType s) carry0 ns total excludeHosts) as Hcand.
  assert (carrySynced carry0 cand.1) as Hsync0.
  { apply getCarryNodes_Forall. by intros n w _. }
  fold cand in Hcand.
  revert Hsel. unfold CarryWeight_Select.
  apply Z.eqb_neq in Hnz. rewrite Hnz.
  fold total. fold carry0. fold cand.
  destruct cand as [weightedNodes count]. cbn [fst snd] in *.
  destruct (Z.of_nat (length weightedNodes) <? replicaNum).
  { by intros ?; simplify_eq. }
  destruct (setNodeCarry _ _ _ _ _) as [[carry1 weighted1]| |] eqn:Hset;
    cbn [mbind run_bind]; [|done..].
  set (sorted := sort_Slice (fun a b => (Carry b <? Carry a)%float) weighted1).
  destruct (reshuffleHosts _ _); intros ?; simplify_eq.
  exists carry1, weighted1. split; [done|].
  intros Hnum p q Hp Hq Helig Hnq.
  assert (NoDup (map (fun nt => GetID (Ptr nt)) weightedNodes)) as Hndw.
  { rewrite <- (map_map Ptr GetID), Hcand.
    apply (sublist_NoDup _ (map GetID (getNodes ns (cw_nodeType s)))); [done|].
    apply (fmap_sublist GetID), filter_sublist. }
  pose proof (setNodeCarry_synced _ _ _ _ _ _ _ Hndw Hsync0 Hset) as Hsync1.
  pose proof (setNodeCarry_Ptr _ _ _ _ _ _ _ Hset) as Hptr.
  assert (sorted ≡ₚ weighted1) as Hperm by apply sort_Slice_perm.
  assert (StronglySorted (fun a b => (Carry a <? Carry b)%float = false) sorted) as Hsorted.
  { apply (sort_Slice_sorted_on weightedNode (fun a b => (Carry b <? Carry a)%float)).
    apply carry_order_on. intros nt Hnt.
    unfold carriesAreNumbers in Hnum. rewrite list.Forall_forall in Hnum. by apply Hnum. }
  unfold carrySynced in Hsync1. rewrite list.Forall_forall in Hsync1.
  apply list_elem_of_fmap in Hp as (ntp & -> & Hntp).
  assert (q ∈ map Ptr sorted) as Hqs.
  { rewrite Hperm, Hptr, Hcand. apply list_elem_of_In, filter_In.
    split; [by apply list_elem_of_In|done]. }
  apply list_elem_of_fmap in Hqs as (ntq & -> & Hntq).
  rewrite <- (take_drop (Z.to_nat replicaNum) sorted) in Hntq, Hsorted.
  apply elem_of_app in Hntq as [Hin|Hntq].
  { exfalso. apply Hnq. by apply list_elem_of_fmap_2. }
  pose proof (StronglySorted_app_1_elem_of _ _ _ _ _ Hsorted Hntp Hntq) as Hord.
  rewrite <- (Hsync1 ntp), <- (Hsync1 ntq); [done|..].
  - rewrite <- Hperm. rewrite <- (take_drop (Z.to_nat replicaNum) sorted).
    apply elem_of_app. by right.
  - rewrite <- Hperm. eapply elem_of_sublist; [exact Hntp|apply sublist_take].
Qed.

Lemma CarryWeight_picks_largest_carries_witness :
  exists carry1 nodes1,
    setNodeCarry 2 (prepareCarry DataNodeDisk ∅ fleetHalf 100)
      (getCarryNodes DataNodeDisk (prepareCarry DataNodeDisk ∅ fleetHalf 100)
         fleetHalf 100 []).1
      (getCarryNodes DataNodeDisk (prepareCarry DataNodeDisk ∅ fleetHalf 100)
         fleetHalf 100 []).2 1 = Ret (carry1, nodes1) /\
    (carriesAreNumbers nodes1 ->
     forall p q,
       p ∈ [DataNodePtr (mkDataNode 1 "A" 50 100 true)] ->
       q ∈ getNodes fleetHalf DataNodeDisk ->
       eligible DataNodeDisk [] q = true ->
       q ∉ [DataNodePtr (mkDataNode 1 "A" 50 100 true)] ->
       (carry_at carry1 (GetID p) <? carry_at carry1 (GetID q))%float = false).
Proof.
  refine (CarryWeight_picks_largest_carries 2 [] (NewCarryWeightNodeSelector DataNodeDisk)
            fleetHalf [] 1
            {| newHosts := ["A"];
               peers := [mkPeer (DataNodePtr (mkDataNode 1 "A" 50 100 true))];
               err := None |}
            {| cw_nodeType := DataNodeDisk;
               cw_carry := {[ 1 := 0.5%float; 2 := 0.75%float ]} |}
            [DataNodePtr (mkDataNode 1 "A" 50 100 true)] _ _ _ _).
  - apply (bool_decide_unpack _). vm_compute. exact I.
  - lia.
  - vm_compute. reflexivity.
  - reflexivity.
Defined.

(** ** Straw draws the longest straw *)

Lemma float_ltb_irrefl (x : float) : (x <? x)%float = false.
Proof.
  destruct (x <? x)%float eqn:E; [|done].
  pose proof (float_ltb_asym x x E) as E'. congruence.
Qed.

Lemma strawStep_fold_longest `{GoLib} nodeType rand0 rest pre maxStraw index maxNode :
  (forall i n, (pre ++ rest) !! i = Some n -> is_nan (strawAt nodeType rand0 i n) = false) ->
  (pre = [] /\ index = -1) \/
  (exists j node, index = Z.of_nat j /\ maxNode = Some node /\ pre !! j = Some node /\
     maxStraw = strawAt nodeType rand0 j node /\
     forall i n, pre !! i = Some n ->
                 (maxStraw <? strawAt nodeType rand0 i n)%float = false) ->
  let '(_, _, maxStraw', index', maxNode') :=
    fold_left (strawStep nodeType) rest
      ({| rand_src := rand_src rand0; rand_pos := rand_pos rand0 + length pre |},
       Z.of_nat (length pre), maxStraw, index, maxNode) in
  (pre ++ rest = [] /\ index' = -1) \/
  (exists j node, index' = Z.of_nat j /\ maxNode' = Some node /\
     (pre ++ rest) !! j = Some node /\
     maxStraw' = strawAt nodeType rand0 j node /\
     forall i n, (pre ++ rest) !! i = Some n ->
                 (maxStraw' <? strawAt nodeType rand0 i n)%float = false).
Proof.
  revert pre maxStraw index maxNode.
  induction rest as [|x rest IH]; intros pre maxStraw index maxNode Hnum Hinv.
  - simpl. rewrite app_nil_r. destruct Hinv as [[-> ->]|Hinv]; [by left|by right].
  - cbn [fold_left]. unfold strawStep at 2. unfold Intn. cbn [rand_src rand_pos].
    fold (strawAt nodeType rand0 (length pre) x).
    assert (pre ++ x :: rest = (pre ++ [x]) ++ rest) as Happ by (by rewrite <- app_assoc).
    assert (S (rand_pos rand0 + length pre) = rand_pos rand0 + length (pre ++ [x]))%nat
      as Hpos by (rewrite length_app; simpl; lia).
    assert (Z.of_nat (length pre) + 1 = Z.of_nat (length (pre ++ [x]))) as Hi
      by (rewrite length_app; simpl; lia).
    rewrite Happ in Hnum |- *. rewrite Hpos, Hi.
    assert (is_nan (strawAt nodeType rand0 (length pre) x) = false) as Hx.
    { apply Hnum. rewrite lookup_app_l by (rewrite length_app; simpl; lia).
      by apply list_lookup_middle. }
    match goal with |- context [if ?c then _ else _] => destruct c eqn:Hc end.
    + apply IH; [done|]. right. exists (length pre), x.
      split; [done|]. split; [done|]. split; [by apply list_lookup_middle|].
      split; [done|]. intros i n Hin.
      apply lookup_app_Some in Hin as [Hin|[Hge Hin]].
      * destruct Hinv as [[-> _]|(j & node & -> & -> & Hj & -> & Hmax)]; [done|].
        apply orb_true_iff in Hc as [Hc|Hc]; [apply Z.eqb_eq in Hc; lia|].
        eapply (float_ge_trans _ (strawAt nodeType rand0 j node)).
        -- apply Hnum. by apply lookup_app_l_Some, lookup_app_l_Some.
        -- apply Hnum. by apply lookup_app_l_Some, lookup_app_l_Some.
        -- done.
        -- by apply float_ltb_asym.
        -- by apply Hmax.
      * apply list_lookup_singleton_Some in Hin as [Hz ->].
        replace i with (length pre) by lia. apply float_ltb_irrefl.
    + apply IH; [done|]. right.
      apply orb_false_iff in Hc as [Hc1 Hc2].
      destruct Hinv as [[-> ->]|(j & node & -> & -> & Hj & -> & Hmax)]; [done|].
      exists j, node. split; [done|]. split; [done|].
      split; [by apply lookup_app_l_Some|]. split; [done|].
      intros i n Hin. apply lookup_app_Some in Hin as [Hin|[Hge Hin]]; [by apply Hmax|].
      apply list_lookup_singleton_Some in Hin as [Hz ->].
      replace i with (length pre) by lia. done.
Qed.

(** X26.  Straw draws the longest straw.  On a non-empty slice, when the
    straws computed for the nodes are numbers, the node [selectOneNode]
    returns is one whose straw no other node's straw exceeds. *)
Theorem selectOneNode_longest_straw `{GoLib} (nodeType : NodeResourceType) (rand : Rand)
    (nodes : list Node) :
  nodes <> [] ->
  (forall i n, nodes !! i = Some n -> is_nan (strawAt nodeType rand i n) = false) ->
  exists j node rand',
    selectOneNode nodeType rand nodes = (Z.of_nat j, Some node, rand') /\
    nodes !! j = Some node /\
    forall i n, nodes !! i = Some n ->
      (strawAt nodeType rand j node <? strawAt nodeType rand i n)%float = false.
Proof.
  intros Hne Hnum. unfold selectOneNode.
  pose proof (strawStep_fold_longest nodeType rand nodes [] 0%float (-1) None Hnum) as Hf.
  cbn [length app] in Hf. rewrite Nat.add_0_r in Hf.
  replace {| rand_src := rand_src rand; rand_pos := rand_pos rand |} with rand in Hf
    by (by destruct rand).
  destruct (fold_left _ _ _) as [[[[rand' i'] ms'] index'] maxNode'].
  destruct Hf as [[Hnil _]|(j & node & -> & -> & Hj & -> & Hmax)]; [by left|done|].
  by exists j, node, rand'.
Qed.

Lemma selectOneNode_longest_straw_witness :
  exists j node rand',
    selectOneNode DataNodeDisk someRand (getNodes fleetOneWritable DataNodeDisk)
      = (Z.of_nat j, Some node, rand') /\
    getNodes fleetOneWritable DataNodeDisk !! j = Some node /\
    forall i n, getNodes fleetOneWritable DataNodeDisk !! i = Some n ->
      (strawAt DataNodeDisk someRand j node <? strawAt DataNodeDisk someRand i n)%float
      = false.
Proof.
  apply (selectOneNode_longest_straw DataNodeDisk someRand
           (getNodes fleetOneWritable DataNodeDisk)).
  - discriminate.
  - intros [|[|i]] n Hn; simpl in Hn; [| |discriminate];
      injection Hn as <-; vm_compute; reflexivity.
Defined.

(** ** Only writable nodes of the node-set are returned *)

(** X27.  No policy places a replica on a node that cannot take it.  Every
    host a successful call returns is the address of a node of the node-set,
    of the selector's resource type, for which [canAllocPartition] holds and
    which is not excluded; the same holds for every node whose hook was
    invoked, whether the call succeeded or not. *)
Theorem Select_hosts_writable `{GoLib} (fuel : nat) (draws : list nat) (sel : NodeSelector)
    (ns : nodeSet) (excludeHosts : list string) (replicaNum : Z)
    (ret : SelectReturn) (sel' : NodeSelector) (hooked : list Node) :
  cursorInRange sel ns ->
  Select fuel draws sel ns excludeHosts replicaNum = Ret (ret, sel', hooked) ->
  Forall (fun n => n ∈ getNodes ns (selectorType sel) /\
                   canAllocPartition n (selectorType sel) = true /\
                   GetAddr n ∉ excludeHosts) hooked /\
  (err ret = None ->
   Forall (fun h => (h ∉ excludeHosts) /\
             exists n, n ∈ getNodes ns (selectorType sel) /\ GetAddr n = h /\
                       canAllocPartition n (selectorType sel) = true)
     (newHosts ret)).
Proof.
  intros Hcur Hsel. apply Select_outcome in Hsel as [Hout _]; [|done].
  split.
  - destruct Hout as (Hsub & Hok & _).
    apply list.Forall_forall. intros n Hn. rewrite list.Forall_forall in Hok.
    destruct (Hok n Hn) as [Hw Hex]. split; [by eapply elem_of_submseteq|done].
  - intros Herr. by destruct (selectOutcome_hosts _ _ _ _ _ _ Hout Herr).
Qed.

Lemma Select_hosts_writable_witness :
  Forall (fun n => n ∈ getNodes fleetOneWritable DataNodeDisk /\
                   canAllocPartition n DataNodeDisk = true /\
                   GetAddr n ∉ ([] : list string)) [DataNodePtr nodeA] /\
  (err {| newHosts := []; peers := [mkPeer (DataNodePtr nodeA)];
          err := Some (ErrNoEnoughWritableHosts 2 1) |} = None ->
   Forall (fun h => (h ∉ ([] : list string)) /\
             exists n, n ∈ getNodes fleetOneWritable DataNodeDisk /\ GetAddr n = h /\
                       canAllocPartition n DataNodeDisk = true)
     (newHosts {| newHosts := []; peers := [mkPeer (DataNodePtr nodeA)];
                  err := Some (ErrNoEnoughWritableHosts 2 1) |})).
Proof.
  apply (Select_hosts_writable 0 []
           (RoundRobin (NewRoundRobinNodeSelector DataNodeDisk))
           fleetOneWritable [] 2
           {| newHosts := []; peers := [mkPeer (DataNodePtr nodeA)];
              err := Some (ErrNoEnoughWritableHosts 2 1) |}
           (RoundRobin (NewRoundRobinNodeSelector DataNodeDisk))
           [DataNodePtr nodeA]).
  - vm_compute. split; discriminate.
  - vm_compute. reflexivity.
Defined.

(** ** AvailableSpaceFirst without ties *)

Lemma sort_by_space_unique `{GoLib} nodeType (nodes nodes' : list Node) :
  NoDup (map (getNodeAvailableSpace nodeType) nodes) ->
  nodes' ≡ₚ nodes ->
  sort_Slice (fun a b => getNodeAvailableSpace nodeType b
                         <? getNodeAvailableSpace nodeType a) nodes' =
  sort_Slice (fun a b => getNodeAvailableSpace nodeType b
                         <? getNodeAvailableSpace nodeType a) nodes.
Proof.
  intros Hnd Hperm.
  apply (StronglySorted_unique_strong
           (fun a b => (getNodeAvailableSpace nodeType a
                        <? getNodeAvailableSpace nodeType b) = false)).
  - intros x1 x2 Hx1 Hx2 H12 H21.
    rewrite sort_Slice_perm in Hx1, Hx2. rewrite Hperm in Hx1.
    apply Z.ltb_ge in H12, H21.
    apply (NoDup_map_inj (getNodeAvailableSpace nodeType) nodes); [done..|lia].
  - apply sort_Slice_sorted, availableSpace_order.
  - apply sort_Slice_sorted, availableSpace_order.
  - by rewrite !sort_Slice_perm.
Qed.

(** X28.  AvailableSpaceFirst without ties does not depend on the order in
    which [Range] hands out the nodes: when no two nodes of the set have the
    same available space, two node-sets holding the same nodes give the same
    result. *)
Theorem AvailableSpaceFirst_Select_any_range_order `{GoLib} (draws : list nat)
    (s : AvailableSpaceFirstNodeSelector) (ns ns' : nodeSet)
    (excludeHosts : list string) (replicaNum : Z) :
  NoDup (map (getNodeAvailableSpace (asf_nodeType s)) (getNodes ns (asf_nodeType s))) ->
  getNodes ns' (asf_nodeType s) ≡ₚ getNodes ns (asf_nodeType s) ->
  AvailableSpaceFirst_Select draws s ns' excludeHosts replicaNum =
  AvailableSpaceFirst_Select draws s ns excludeHosts replicaNum.
Proof.
  intros Hnd Hperm. unfold AvailableSpaceFirst_Select.
  rewrite (sort_by_space_unique (asf_nodeType s) (getNodes ns (asf_nodeType s))
             (getNodes ns' (asf_nodeType s))) by done.
  by rewrite (Permutation_length Hperm).
Qed.

Lemma AvailableSpaceFirst_Select_any_range_order_witness :
  AvailableSpaceFirst_Select [] (NewAvailableSpaceFirstNodeSelector DataNodeDisk)
    (dataFleet [n2; n1]) [] 1 =
  AvailableSpaceFirst_Select [] (NewAvailableSpaceFirstNodeSelector DataNodeDisk)
    (dataFleet [n1; n2]) [] 1.
Proof.
  apply (AvailableSpaceFirst_Select_any_range_order []
           (NewAvailableSpaceFirstNodeSelector DataNodeDisk)
           (dataFleet [n1; n2]) (dataFleet [n2; n1]) [] 1).
  - apply (bool_decide_unpack _). vm_compute. exact I.
  - apply Permutation_swap.
Defined.

(** ** The carry map only grows *)

Lemma carry_fold_keeps nodes (carryMap : gmap Z float) id :
  is_Some (carryMap !! id) ->
  is_Some (fold_left (fun m nt => <[GetID (Ptr nt) := advanced nt]> m) nodes carryMap !! id).
Proof.
  revert carryMap. induction nodes as [|x nodes IH]; intros carryMap Hid; simpl; [done|].
  apply IH. apply lookup_insert_is_Some'. by right.
Qed.

Lemma setNodeCarry_keeps fuel carryMap nodes count replicaNum carryMap' nodes' id :
  setNodeCarry fuel carryMap nodes count replicaNum = Ret (carryMap', nodes') ->
  is_Some (carryMap !! id) -> is_Some (carryMap' !! id).
Proof.
  revert carryMap nodes count.
  induction fuel as [|fuel IH]; intros carryMap nodes count; simpl.
  - destruct (count <? replicaNum); [done|]. by intros ?; simplify_eq.
  - destruct (count <? replicaNum); [|by intros ?; simplify_eq].
    pose proof (carry_fold_keeps nodes carryMap id) as Hk.
    rewrite carryPass_eq. intros Hrec Hid. eapply IH; [exact Hrec|]. by apply Hk.
Qed.

Lemma decreaseCarry_fold_keeps picked (carryMap : gmap Z float) id :
  is_Some (carryMap !! id) ->
  is_Some (fold_left decreaseCarry picked carryMap !! id).
Proof.
  revert carryMap. induction picked as [|x picked IH]; intros carryMap Hid; simpl; [done|].
  apply IH. unfold decreaseCarry. apply lookup_insert_is_Some'. by right.
Qed.

(** X29.  The carry map only grows.  A CarryWeight call never removes an
    entry: an id that had a carry before the call has one after it, whether
    or not a node of the node-set still has that id; and after the call
    every node of the node-set has a carry. *)
Theorem CarryWeight_Select_carry_grows `{GoLib} (fuel : nat) (draws : list nat)
    (s : CarryWeightNodeSelector) (ns : nodeSet) (excludeHosts : list string)
    (replicaNum : Z) (ret : SelectReturn) (s' : CarryWeightNodeSelector)
    (hooked : list Node) :
  CarryWeight_Select fuel draws s ns excludeHosts replicaNum = Ret (ret, s', hooked) ->
  (forall id, is_Some (cw_carry s !! id) -> is_Some (cw_carry s' !! id)) /\
  Forall (fun n => is_Some (cw_carry s' !! GetID n)) (getNodes ns (cw_nodeType s)).
Proof.
  intros Hsel.
  set (carry0 := prepareCarry (cw_nodeType s) (cw_carry s) ns
                   (getTotalMax (cw_nodeType s) ns)).
  assert (forall id, is_Some (carry0 !! id) -> is_Some (cw_carry s' !! id)) as Hgrow.
  { revert Hsel. unfold CarryWeight_Select. fold carry0.
    destruct (replicaNum =? 0); [by intros ?; simplify_eq|].
    destruct (getCarryNodes _ _ _ _ _) as [weightedNodes count].
    destruct (_ <? replicaNum); [by intros ?; simplify_eq|].
    destruct (setNodeCarry _ _ _ _ _) as [[carry1 weighted1]| |] eqn:Hset;
      cbn [mbind run_bind]; [|done..].
    intros Hret id Hid.
    assert (cw_carry s' = fold_left decreaseCarry
              (map Ptr (take (Z.to_nat replicaNum)
                 (sort_Slice (fun a b => (Carry b <? Carry a)%float) weighted1))) carry1)
      as ->.
    { revert Hret. by destruct (reshuffleHosts _ _); intros ?; simplify_eq. }
    apply decreaseCarry_fold_keeps. by eapply setNodeCarry_keeps. }
  split.
  - intros id [v Hv]. apply Hgrow. exists v. unfold carry0.
    rewrite prepareCarry_fold. by apply prepare_fold_Some.
  - apply list.Forall_forall. intros n Hn. apply Hgrow.
    pose proof (prepare_fold_dom GetID (getNodeAvailableSpace (cw_nodeType s))
                  (getNodes ns (cw_nodeType s)) (cw_carry s)
                  (getTotalMax (cw_nodeType s) ns)) as Hdom.
    rewrite list.Forall_forall in Hdom. unfold carry0. rewrite prepareCarry_fold.
    by apply Hdom.
Qed.

Lemma CarryWeight_Select_carry_grows_witness :
  (forall id, is_Some (({[ 9 := 3%float ]} : gmap Z float) !! id) ->
              is_Some (({[ 1 := 0%float; 2 := 0%float; 9 := 3%float ]} : gmap Z float) !! id)) /\
  Forall (fun n => is_Some
            (({[ 1 := 0%float; 2 := 0%float; 9 := 3%float ]} : gmap Z float) !! GetID n))
    (getNodes fleetOneWritable DataNodeDisk).
Proof.
  refine (CarryWeight_Select_carry_grows 0 []
            {| cw_nodeType := DataNodeDisk; cw_carry := {[ 9 := 3%float ]} |}
            fleetOneWritable [] 1
            {| newHosts := ["A"]; peers := [mkPeer (DataNodePtr nodeA)]; err := None |}
            {| cw_nodeType := DataNodeDisk;
               cw_carry := {[ 1 := 0%float; 2 := 0%float; 9 := 3%float ]} |}
            [DataNodePtr nodeA] _).
  vm_compute. reflexivity.
Defined.
